(** * cvapipe_analysis: shape-mode binning, coefficient matrices and contours

    A shallow embedding of
    [cvapipe_analysis/steps/shapemode/avgshape.py]:
    the percentile filter, the shape-mode digitizer, the spherical-harmonics
    coefficient matrix builder, the plane/mesh intersector, the per-bin
    reconstruction driver and the nuclear-offset stage of the animation step.

    Numbers.  A numpy float is modelled by [fl]: a rational number, or one of
    the special values nan, -inf, +inf; the special values follow IEEE 754.
    Where the code's result depends on rounding, the operations round:
    [np.percentile] and Python's [%] work in binary64 ([add64], [mul64], ...),
    the coefficient array and the feature values are cast to float32
    ([np_float32]), and the bin edges of [digitize_shape_mode] are written
    once over an interface of float operations and are run both on [fl] and
    on the kernel's binary64 floats.  Elsewhere finite arithmetic is exact. *)

From Stdlib Require Import PrimFloat.
From Stdlib Require Import List String Ascii Bool Arith ZArith QArith Qabs Qround.
From Stdlib Require Import Lia Lqa Permutation DecimalString.
From Stdlib Require Uint63.
Import ListNotations.

Local Open Scope Z_scope.
Local Open Scope Q_scope.
Local Open Scope string_scope.
Local Open Scope list_scope.

(** ** Exceptions *)

(** The exceptions the modelled code raises, or lets numpy, pandas and Python
    raise for it. *)
Inductive exn : Type :=
| ValueError (msg : string)
| KeyError (key : string)
| IndexError
| TypeError
| ZeroDivisionError
| OverflowError
| OnlyZerosInPlaneAxis            (* Exception("Only zeros found in the plane axis.") *)
| NoCoefficientsFound (prefix : string). (* Exception("No coefficients found. ...") *)

Inductive result (A : Type) : Type :=
| Ok (a : A)
| Raise (e : exn).
Arguments Ok {A} a.
Arguments Raise {A} e.

Definition bind {A B : Type} (r : result A) (k : A -> result B) : result B :=
  match r with
  | Ok a => k a
  | Raise e => Raise e
  end.

Notation "x <- r ;; k" := (bind r (fun x => k))
  (at level 61, r at next level, right associativity).

Definition raised {A : Type} (r : result A) : Prop :=
  exists e, r = Raise e.

(** ** Floats with exact finite arithmetic *)

Inductive fl : Type :=
| NaN
| NInf
| Fin (q : Q)
| PInf.

Definition Qltb (x y : Q) : bool := negb (Qle_bool y x).

Definition fl_neg (a : fl) : fl :=
  match a with
  | NaN => NaN
  | NInf => PInf
  | Fin x => Fin (- x)
  | PInf => NInf
  end.

Definition fl_abs (a : fl) : fl :=
  match a with
  | NaN => NaN
  | NInf => PInf
  | Fin x => Fin (Qabs x)
  | PInf => PInf
  end.

Definition fl_add (a b : fl) : fl :=
  match a, b with
  | NaN, _ | _, NaN => NaN
  | PInf, NInf | NInf, PInf => NaN
  | PInf, _ | _, PInf => PInf
  | NInf, _ | _, NInf => NInf
  | Fin x, Fin y => Fin (x + y)
  end.

Definition fl_sub (a b : fl) : fl := fl_add a (fl_neg b).

(** The sign of an infinity multiplied or divided by a finite number. *)
Definition signed_inf (positive : bool) : fl := if positive then PInf else NInf.

Definition fl_mul (a b : fl) : fl :=
  match a, b with
  | NaN, _ | _, NaN => NaN
  | Fin x, Fin y => Fin (x * y)
  | PInf, PInf | NInf, NInf => PInf
  | PInf, NInf | NInf, PInf => NInf
  | PInf, Fin y | Fin y, PInf =>
      if Qeq_bool y 0 then NaN else signed_inf (Qltb 0 y)
  | NInf, Fin y | Fin y, NInf =>
      if Qeq_bool y 0 then NaN else signed_inf (Qltb y 0)
  end.

(** numpy division: a zero divisor gives nan or an infinity, never an
    exception.  (There is one zero here, so [x / 0] takes the sign of [x].) *)
Definition fl_div (a b : fl) : fl :=
  match a, b with
  | NaN, _ | _, NaN => NaN
  | (PInf | NInf), (PInf | NInf) => NaN
  | Fin _, (PInf | NInf) => Fin 0
  | PInf, Fin y => signed_inf (Qle_bool 0 y)
  | NInf, Fin y => signed_inf (Qltb y 0)
  | Fin x, Fin y =>
      if Qeq_bool y 0 then
        if Qeq_bool x 0 then NaN else signed_inf (Qltb 0 x)
      else Fin (x / y)
  end.

(** Square root of a rational, exact on squares of rationals and rounded down
    to a multiple of the inverse of the denominator otherwise; it is zero only
    at zero. *)
Definition Qsqrt (q : Q) : Q :=
  Z.sqrt (Qnum q * Zpos (Qden q)) # Qden q.

Definition fl_sqrt (a : fl) : fl :=
  match a with
  | NaN | NInf => NaN
  | PInf => PInf
  | Fin x => if Qltb x 0 then NaN else Fin (Qsqrt x)
  end.

(** IEEE comparisons: every comparison with nan is false. *)
Definition fl_leb (a b : fl) : bool :=
  match a, b with
  | NaN, _ | _, NaN => false
  | NInf, _ => true
  | _, PInf => true
  | Fin x, Fin y => Qle_bool x y
  | _, _ => false
  end.

Definition fl_ltb (a b : fl) : bool :=
  match a, b with
  | NaN, _ | _, NaN => false
  | PInf, _ | _, NInf => false
  | NInf, _ => true
  | _, PInf => true
  | Fin x, Fin y => Qltb x y
  end.

Definition fl_eqb (a b : fl) : bool :=
  match a, b with
  | NInf, NInf | PInf, PInf => true
  | Fin x, Fin y => Qeq_bool x y
  | _, _ => false
  end.

Definition fl_is_nan (a : fl) : bool :=
  match a with NaN => true | _ => false end.

Definition fl_of_Z (z : Z) : fl := Fin (inject_Z z).

(** Python truth value of a float: [not x] holds when [x == 0]. *)
Definition fl_is_zero (a : fl) : bool := fl_eqb a (Fin 0).

(** ** Rounding to a binary float format *)

(** A format has [prec] bits of precision; its smallest positive number is
    [2^emin] and every number from [2^emax] on is an infinity. *)
Section Rounding.
Variables prec emin emax : Z.

(** The integer nearest to [n/d], and the even one of two that are equally
    near. *)
Definition round_half_even (n d : Z) : Z :=
  let q := (n / d)%Z in
  match (2 * (n mod d) ?= d)%Z with
  | Lt => q
  | Gt => (q + 1)%Z
  | Eq => if Z.even q then q else (q + 1)%Z
  end.

(** [2^e] is the fraction [up e / down e]. *)
Definition up (e : Z) : Z := (2 ^ Z.max e 0)%Z.
Definition down (e : Z) : Z := (2 ^ Z.max (- e) 0)%Z.

(** The exponent [e] with [2^e <= n/d < 2^(e+1)], for positive [n] and [d]. *)
Definition floor_log2 (n d : Z) : Z :=
  let e := (Z.log2 n - Z.log2 d)%Z in
  if (d * up e <=? n * down e)%Z then e else (e - 1)%Z.

(** [n/d > 0] rounded to the nearest number of the format, ties to even:
    a multiple [m * 2^p] of the unit in the last place [2^p]. *)
Definition round_positive (n d : Z) : fl :=
  let p := Z.max (floor_log2 n d - prec + 1) emin in
  let m := round_half_even (n * down p) (d * up p) in
  if (2 ^ emax * down p <=? m * up p)%Z then PInf
  else Fin (Qred (Qmake (m * up p) (Z.to_pos (down p)))).

Definition round_to (q : Q) : fl :=
  match Qred q with
  | Qmake Z0 _ => Fin 0
  | Qmake (Zpos n) d => round_positive (Zpos n) (Zpos d)
  | Qmake (Zneg n) d => fl_neg (round_positive (Zpos n) (Zpos d))
  end.

End Rounding.

(** IEEE 754 binary64 (numpy's float64, Python's float) and binary32
    (numpy's float32). *)
Definition round64 : Q -> fl := round_to 53 (-1074) 1024.
Definition round32 : Q -> fl := round_to 24 (-149) 128.

(** A cast to float64 or to float32. *)
Definition np_float64 (a : fl) : fl :=
  match a with Fin q => round64 q | _ => a end.

Definition np_float32 (a : fl) : fl :=
  match a with Fin q => round32 q | _ => a end.

(** The operations of binary64: the exact result, rounded. *)
Definition add64 (a b : fl) : fl := np_float64 (fl_add a b).
Definition sub64 (a b : fl) : fl := np_float64 (fl_sub a b).
Definition mul64 (a b : fl) : fl := np_float64 (fl_mul a b).
Definition div64 (a b : fl) : fl := np_float64 (fl_div a b).

(** [np.floor] *)
Definition fl_floor (a : fl) : fl :=
  match a with Fin q => Fin (inject_Z (Qfloor q)) | _ => a end.

(** ** The float operations the binning code uses *)

Class FloatOps (F : Type) : Type := {
  of_Z : Z -> F;
  add : F -> F -> F;
  sub : F -> F -> F;
  mul : F -> F -> F;
  div : F -> F -> F;
  leb : F -> F -> bool;
  eqb : F -> F -> bool;
  is_nan : F -> bool;
  neg_inf : F;
  pos_inf : F
}.

#[global] Instance exact_ops : FloatOps fl := {|
  of_Z := fl_of_Z;
  add := fl_add;
  sub := fl_sub;
  mul := fl_mul;
  div := fl_div;
  leb := fl_leb;
  eqb := fl_eqb;
  is_nan := fl_is_nan;
  neg_inf := NInf;
  pos_inf := PInf
|}.

(** IEEE 754 binary64, the precision at which numpy computes the bin centers
    and edges. *)
Definition binary64_of_Z (z : Z) : PrimFloat.float :=
  match z with
  | Z0 => PrimFloat.zero
  | Zpos _ => PrimFloat.of_uint63 (Uint63.of_Z z)
  | Zneg _ => PrimFloat.opp (PrimFloat.of_uint63 (Uint63.of_Z (Z.opp z)))
  end.

#[global] Instance binary64_ops : FloatOps PrimFloat.float := {|
  of_Z := binary64_of_Z;
  add := PrimFloat.add;
  sub := PrimFloat.sub;
  mul := PrimFloat.mul;
  div := PrimFloat.div;
  leb := PrimFloat.leb;
  eqb := PrimFloat.eqb;
  is_nan := PrimFloat.is_nan;
  neg_inf := PrimFloat.neg_infinity;
  pos_inf := PrimFloat.infinity
|}.

(** ** numpy routines of the binning code *)

Section Binning.
Context {F : Type} {ops : FloatOps F}.

(** The order numpy sorts and searches by: nan comes after every number. *)
Definition sort_leb (a b : F) : bool :=
  is_nan b || (negb (is_nan a) && leb a b).

Fixpoint insert_sorted (x : F) (l : list F) : list F :=
  match l with
  | [] => [x]
  | y :: l' => if sort_leb x y then x :: l else y :: insert_sorted x l'
  end.

Definition np_sort (l : list F) : list F := fold_right insert_sorted [] l.

(** [aux[1:] != aux[:-1]]: an element is kept when it differs from the one
    before it. *)
Fixpoint drop_repeats (prev : F) (l : list F) : list F :=
  match l with
  | [] => []
  | x :: l' =>
      if eqb x prev then drop_repeats x l' else x :: drop_repeats x l'
  end.

(** [np.unique] of the flattened input: sort, then drop repeated values. *)
Definition np_unique (l : list F) : list F :=
  match np_sort l with
  | [] => []
  | x :: l' => x :: drop_repeats x l'
  end.

Fixpoint set_last (v : F) (l : list F) : list F :=
  match l with
  | [] => []
  | [_] => [v]
  | x :: l' => x :: set_last v l'
  end.

(** [np.linspace(start, stop, num)] with its default [endpoint=True]:
    [arange(num) * step + start], the last sample then set to [stop]. *)
Definition np_linspace (start stop : F) (num : Z) : result (list F) :=
  if (num <? 0)%Z then
    Raise (ValueError "Number of samples must be non-negative.")
  else
    let dv := (num - 1)%Z in
    let delta := sub stop start in
    let y := map (fun i => of_Z (Z.of_nat i)) (seq 0 (Z.to_nat num)) in
    let y :=
      if (0 <? dv)%Z then
        let step := div delta (of_Z dv) in
        if eqb step (of_Z 0)
        then map (fun v => mul (div v (of_Z dv)) delta) y
        else map (fun v => mul v step) y
      else map (fun v => mul v delta) y in
    let y := map (fun v => add v start) y in
    Ok (if (1 <? num)%Z then set_last stop y else y).

Fixpoint non_decreasing (l : list F) : bool :=
  match l with
  | x :: ((y :: _) as l') => leb x y && non_decreasing l'
  | _ => true
  end.

Fixpoint non_increasing (l : list F) : bool :=
  match l with
  | x :: ((y :: _) as l') => leb y x && non_increasing l'
  | _ => true
  end.

(** [searchsorted(bins, x, side='right')] on sorted bins: the number of
    bins that are not after [x]. *)
Definition searchsorted_right (bins : list F) (x : F) : Z :=
  Z.of_nat (List.length (filter (fun b => sort_leb b x) bins)).

(** [searchsorted(bins, x, side='left')] on sorted bins: the number of bins
    that are before [x]. *)
Definition searchsorted_left (bins : list F) (x : F) : Z :=
  Z.of_nat (List.length (filter (fun b => negb (sort_leb x b)) bins)).

(** [np.digitize(x, bins)] with its default [right=False]. *)
Definition np_digitize (xs bins : list F) : result (list Z) :=
  if non_decreasing bins then
    Ok (map (searchsorted_right bins) xs)
  else if non_increasing bins then
    Ok (map (fun x => (Z.of_nat (List.length bins)
                       - searchsorted_left (rev bins) x)%Z) xs)
  else
    Raise (ValueError "bins must be monotonically increasing or decreasing").

(** *** The bins of [digitize_shape_mode] (lines 142-154) *)

Definition LINF : F := of_Z (-2). (* inferior limit = -2 std *)
Definition LSUP : F := of_Z 2.    (* superior limit = 2 std *)

(** [binw = (LSUP-LINF)/(2*(nbins-1))]: a Python float divided by a Python
    int, which raises at zero. *)
Definition bin_half_width (nbins : Z) : result F :=
  if (2 * (nbins - 1) =? 0)%Z then Raise ZeroDivisionError
  else Ok (div (sub LSUP LINF) (of_Z (2 * (nbins - 1)))).

(** [bin_edges[0] = -np.inf; bin_edges[-1] = np.inf] *)
Definition open_ends (edges : list F) : result (list F) :=
  match edges with
  | [] => Raise IndexError
  | _ :: rest => Ok (set_last pos_inf (neg_inf :: rest))
  end.

Definition shape_mode_bins (nbins : Z) : result (list F * list F) :=
  binw <- bin_half_width nbins ;;
  bin_centers <- np_linspace LINF LSUP nbins ;;
  let bin_edges :=
    np_unique (flat_map (fun b => [sub b binw; add b binw]) bin_centers) in
  bin_edges <- open_ends bin_edges ;;
  Ok (bin_centers, bin_edges).

(** [np.digitize(values, bin_edges)] for already z-scored [values]. *)
Definition digitize_values (values : list F) (nbins : Z)
  : result (list Z) :=
  bins <- shape_mode_bins nbins ;;
  np_digitize values (snd bins).

End Binning.

(** ** More numpy on exact floats *)

Definition np_sum (l : list fl) : fl := fold_left fl_add l (Fin 0).

Definition np_mean (l : list fl) : fl :=
  fl_div (np_sum l) (fl_of_Z (Z.of_nat (List.length l))).

(** [ndarray.std()]: [sqrt(mean(abs(x - x.mean())**2))]. *)
Definition np_std (l : list fl) : fl :=
  let m := np_mean l in
  fl_sqrt (np_mean (map (fun x => let d := fl_abs (fl_sub x m) in fl_mul d d) l)).

Definition fl_min (a b : fl) : fl :=
  if fl_is_nan a || fl_is_nan b then NaN else if fl_leb a b then a else b.

Definition fl_max (a b : fl) : fl :=
  if fl_is_nan a || fl_is_nan b then NaN else if fl_leb a b then b else a.

Definition np_min (l : list fl) : result fl :=
  match l with
  | [] => Raise (ValueError "zero-size array to reduction operation minimum")
  | x :: l' => Ok (fold_left fl_min l' x)
  end.

Definition np_max (l : list fl) : result fl :=
  match l with
  | [] => Raise (ValueError "zero-size array to reduction operation maximum")
  | x :: l' => Ok (fold_left fl_max l' x)
  end.

(** ** Data frames *)

(** One cell of a frame. *)
Inductive cell : Type :=
| CFloat (x : fl)
| CInt (z : Z)
| CBool (b : bool)
| CStr (s : string).

(** A pandas column has one dtype; [ObjCol] is the object dtype pandas falls
    back to when the cells of a column are of several kinds. *)
Inductive column : Type :=
| FloatCol (v : list fl)
| IntCol (v : list Z)
| BoolCol (v : list bool)
| StrCol (v : list string)
| ObjCol (v : list cell).

(** A pandas DataFrame: the row labels and the named columns, in order. *)
Record DataFrame : Type := mkDataFrame {
  index : list Z;
  columns : list (string * column)
}.

Definition column_length (c : column) : nat :=
  match c with
  | FloatCol v => List.length v
  | IntCol v => List.length v
  | BoolCol v => List.length v
  | StrCol v => List.length v
  | ObjCol v => List.length v
  end.

(** Every column has one cell per row. *)
Definition well_formed (df : DataFrame) : Prop :=
  Forall (fun nc => column_length (snd nc) = List.length (index df)) (columns df).

Fixpoint lookup {A : Type} (name : string) (l : list (string * A)) : option A :=
  match l with
  | [] => None
  | (n, a) :: l' => if String.eqb name n then Some a else lookup name l'
  end.

(** [name in df.columns] *)
Definition has_column (name : string) (df : DataFrame) : bool :=
  match lookup name (columns df) with Some _ => true | None => false end.

(** [df[name]] *)
Definition get_column (name : string) (df : DataFrame) : result column :=
  match lookup name (columns df) with
  | Some c => Ok c
  | None => Raise (KeyError name)
  end.

Fixpoint assign {A : Type} (name : string) (a : A) (l : list (string * A))
  : list (string * A) :=
  match l with
  | [] => [(name, a)]
  | (n, b) :: l' =>
      if String.eqb name n then (n, a) :: l' else (n, b) :: assign name a l'
  end.

(** [df[name] = c]: replaces the column in place, or appends a new one. *)
Definition set_column (name : string) (c : column) (df : DataFrame) : DataFrame :=
  mkDataFrame (index df) (assign name c (columns df)).

(** [df.drop(columns=[name])] of a frame that has the column. *)
Definition drop_column (name : string) (df : DataFrame) : DataFrame :=
  mkDataFrame (index df)
    (filter (fun nc => negb (String.eqb name (fst nc))) (columns df)).

(** Boolean-mask selection. *)
Fixpoint mask_select {A : Type} (mask : list bool) (l : list A) : list A :=
  match mask, l with
  | b :: mask', x :: l' =>
      if b then x :: mask_select mask' l' else mask_select mask' l'
  | _, _ => []
  end.

Definition select_column (mask : list bool) (c : column) : column :=
  match c with
  | FloatCol v => FloatCol (mask_select mask v)
  | IntCol v => IntCol (mask_select mask v)
  | BoolCol v => BoolCol (mask_select mask v)
  | StrCol v => StrCol (mask_select mask v)
  | ObjCol v => ObjCol (mask_select mask v)
  end.

(** [df.loc[mask]]: a new frame with the rows where the mask holds. *)
Definition select_rows (mask : list bool) (df : DataFrame) : DataFrame :=
  mkDataFrame (mask_select mask (index df))
    (map (fun nc => (fst nc, select_column mask (snd nc))) (columns df)).

Definition fl_of_bool (b : bool) : fl := if b then Fin 1 else Fin 0.

(** A cell as a number; text is not a number. *)
Definition as_float (c : cell) : result fl :=
  match c with
  | CFloat x => Ok x
  | CInt z => Ok (fl_of_Z z)
  | CBool b => Ok (fl_of_bool b)
  | CStr _ => Raise TypeError
  end.

Fixpoint all_ok {A : Type} (l : list (result A)) : result (list A) :=
  match l with
  | [] => Ok []
  | r :: l' => a <- r ;; rest <- all_ok l' ;; Ok (a :: rest)
  end.

(** The cells of a column as numbers. *)
Definition as_floats (c : column) : result (list fl) :=
  match c with
  | FloatCol v => Ok v
  | IntCol v => Ok (map fl_of_Z v)
  | BoolCol v => Ok (map fl_of_bool v)
  | StrCol _ => Raise TypeError
  | ObjCol v => all_ok (map as_float v)
  end.

(** ** [np.percentile] *)

(** [ndarray.astype(np.intp)] of a float that holds a small integer. *)
Definition intp (a : fl) : Z :=
  match a with Fin q => Qfloor q | _ => 0%Z end.

(** [np.take(arr, i)]: a negative index counts from the end. *)
Definition np_take (arr : list fl) (i : Z) : fl :=
  let i := if (i <? 0)%Z then (i + Z.of_nat (List.length arr))%Z else i in
  nth (Z.to_nat i) arr NaN.

(** An int64, as arithmetic on int64 leaves it. *)
Definition int64 (z : Z) : Z := ((z + 2 ^ 63) mod 2 ^ 64 - 2 ^ 63)%Z.

(** [subtract(b, a)] on two entries of the array, then as a float64: an
    int64 array subtracts integers. *)
Definition array_diff (ints : bool) (b a : fl) : fl :=
  if ints then
    match b, a with
    | Fin y, Fin x => np_float64 (fl_of_Z (int64 (Qfloor y - Qfloor x)))
    | _, _ => NaN
    end
  else sub64 b a.

(** numpy's [_lerp(a, b, t)], with [diff_b_a] given:
    [a + diff_b_a * t], and [b - diff_b_a * (1 - t)] where [t >= 0.5]. *)
Definition lerp (a b diff_b_a t : fl) : fl :=
  if fl_leb (Fin (1 # 2)) t then sub64 b (mul64 diff_b_a (sub64 (Fin 1) t))
  else add64 a (mul64 diff_b_a t).

(** numpy's [_quantile] with the default method, on the sorted array and for
    one quantile [q]: the virtual index [(n - 1) * q], the two entries
    around it ([_get_indexes]: the last entry twice from the last index on,
    the first twice below zero), and their interpolation by [_lerp] with the
    weight [virtual_index - previous_index]. *)
Definition quantile_of_sorted (ints : bool) (s : list fl) (q : fl) : fl :=
  let last_index := np_float64 (fl_of_Z (Z.of_nat (List.length s) - 1)) in
  let virtual_index := mul64 last_index q in
  let previous_index := fl_floor virtual_index in
  let next_index := add64 previous_index (Fin 1) in
  let '(previous_index, next_index) :=
    if fl_leb last_index virtual_index then (Fin (-1), Fin (-1))
    else (previous_index, next_index) in
  let '(previous_index, next_index) :=
    if fl_ltb virtual_index (Fin 0) then (Fin 0, Fin 0)
    else (previous_index, next_index) in
  let '(previous_index, next_index) :=
    if fl_is_nan virtual_index then (Fin (-1), Fin (-1))
    else (previous_index, next_index) in
  let previous := np_take s (intp previous_index) in
  let next := np_take s (intp next_index) in
  let gamma := sub64 virtual_index previous_index in
  lerp (np_float64 previous) (np_float64 next)
       (array_diff ints next previous) gamma.

(** [_quantile_is_valid]: [0.0 <= q <= 1.0] *)
Definition valid_quantile (q : fl) : bool :=
  fl_leb (Fin 0) q && fl_leb q (Fin 1).

(** [np.percentile(c.values, [pct, 100 - pct])] (numpy 1.23).  The two
    percentages are divided by 100 and checked first; an empty array raises
    on its first lookup; booleans and text cannot be subtracted; a nan
    anywhere in a float array makes both results nan.  (For an object column
    with a nan among its numbers numpy's result depends on the order of the
    cells; here it is nan as well.) *)
Definition np_percentile2 (c : column) (pct : Q) : result (fl * fl) :=
  let q1 := div64 (Fin pct) (Fin 100) in
  let q2 := div64 (sub64 (Fin 100) (Fin pct)) (Fin 100) in
  if negb (valid_quantile q1 && valid_quantile q2) then
    Raise (ValueError "Percentiles must be in the range [0, 100]")
  else if (column_length c =? 0)%nat then Raise IndexError
  else
    let floats v :=
      if existsb fl_is_nan v then (NaN, NaN)
      else
        let s := np_sort v in
        (quantile_of_sorted false s q1, quantile_of_sorted false s q2) in
    match c with
    | FloatCol v => Ok (floats v)
    | IntCol v =>
        let s := np_sort (map fl_of_Z v) in
        Ok (quantile_of_sorted true s q1, quantile_of_sorted true s q2)
    | BoolCol _ | StrCol _ => Raise TypeError
    | ObjCol v => v <- all_ok (map as_float v) ;; Ok (floats v)
    end.

(** The cells of a column as a comparison with a float64 reads them: an
    int64 is cast to float64. *)
Definition as_float64s (c : column) : result (list fl) :=
  match c with
  | IntCol v => Ok (map (fun z => np_float64 (fl_of_Z z)) v)
  | _ => as_floats c
  end.

(** [df[f] < x] and [df[f] > x] *)
Definition lt_mask (f : string) (x : fl) (df : DataFrame) : result (list bool) :=
  c <- get_column f df ;;
  v <- as_float64s c ;;
  Ok (map (fun y => fl_ltb y x) v).

Definition gt_mask (f : string) (x : fl) (df : DataFrame) : result (list bool) :=
  c <- get_column f df ;;
  v <- as_float64s c ;;
  Ok (map (fun y => fl_ltb x y) v).

(** ** [filter_extremes_based_on_percentile] *)

(** The temporary column of the filter. *)
Definition extreme : string := "extreme".

Fixpoint set_true_where (mask flags : list bool) : list bool :=
  match mask, flags with
  | m :: mask', b :: flags' => (m || b) :: set_true_where mask' flags'
  | _, _ => flags
  end.

(** [df.loc[mask, "extreme"] = True]; the column is the boolean one that the
    filter has just created. *)
Definition flag_where (mask : list bool) (df : DataFrame) : DataFrame :=
  match lookup extreme (columns df) with
  | Some (BoolCol flags) =>
      set_column extreme (BoolCol (set_true_where mask flags)) df
  | _ => df
  end.

(** One turn of the loop over the features, on the frame the caller passed
    in: that frame after the turn, and whether the turn raised. *)
Definition flag_feature (f : string) (pct : Q) (df : DataFrame)
  : DataFrame * result unit :=
  match (c <- get_column f df ;; np_percentile2 c pct) with
  | Raise e => (df, Raise e)
  | Ok (finf, fsup) =>
      match lt_mask f finf df with
      | Raise e => (df, Raise e)
      | Ok below =>
          let df := flag_where below df in
          match gt_mask f fsup df with
          | Raise e => (df, Raise e)
          | Ok above => (flag_where above df, Ok tt)
          end
      end
  end.

Fixpoint flag_extremes (features : list string) (pct : Q) (df : DataFrame)
  : DataFrame * result unit :=
  match features with
  | [] => (df, Ok tt)
  | f :: rest =>
      match flag_feature f pct df with
      | (df, Ok _) => flag_extremes rest pct df
      | (df, Raise e) => (df, Raise e)
      end
  end.

(** [df.extreme == False] *)
Definition not_extreme (df : DataFrame) : result (list bool) :=
  c <- get_column extreme df ;;
  match c with
  | BoolCol flags => Ok (map negb flags)
  | _ => v <- as_floats c ;; Ok (map (fun y => fl_eqb y (Fin 0)) v)
  end.

(** The function works on the caller's frame until its last two lines, which
    build new frames.  The result is the caller's frame as the call leaves it
    and what the call returns or raises. *)
Definition filter_extremes_based_on_percentile
    (df : DataFrame) (features : list string) (pct : Q)
  : DataFrame * result DataFrame :=
  let df := set_column extreme
              (BoolCol (repeat false (List.length (index df)))) df in
  match flag_extremes features pct df with
  | (df, Raise e) => (df, Raise e)
  | (df, Ok _) =>
      (df, keep <- not_extreme df ;;
           Ok (drop_column extreme (select_rows keep df)))
  end.

(** ** Text as a number *)

(** Python's [float(s)] for a text [s] in ASCII: blanks around it are
    dropped; then a sign, and [inf], [infinity] or [nan] in any case, or a
    decimal numeral with an optional exponent, where single underscores may
    stand between digits; the numeral is rounded to the nearest binary64. *)
Definition is_space (c : ascii) : bool :=
  let n := nat_of_ascii c in
  ((9 <=? n) && (n <=? 13) || (28 <=? n) && (n <=? 32))%nat.

Definition is_digit (c : ascii) : bool :=
  let n := nat_of_ascii c in ((48 <=? n) && (n <=? 57))%nat.

Definition digit_value (c : ascii) : Z := (Z.of_nat (nat_of_ascii c) - 48)%Z.

Definition to_lower (c : ascii) : ascii :=
  let n := nat_of_ascii c in
  if ((65 <=? n) && (n <=? 90))%nat then ascii_of_nat (n + 32) else c.

Fixpoint lstrip (l : list ascii) : list ascii :=
  match l with
  | c :: l' => if is_space c then lstrip l' else l
  | [] => []
  end.

Definition strip (l : list ascii) : list ascii :=
  rev (lstrip (rev (lstrip l))).

(** The digits at the front of [l], with underscores between them: their
    value after [acc], how many they are after [count], and what follows. *)
Fixpoint digit_run (acc : Z) (count : nat) (l : list ascii)
  : Z * nat * list ascii :=
  match l with
  | c :: l' =>
      if is_digit c then digit_run (acc * 10 + digit_value c)%Z (S count) l'
      else if Ascii.eqb c "_" && (0 <? count)%nat then
        match l' with
        | d :: _ => if is_digit d then digit_run acc count l' else (acc, count, l)
        | [] => (acc, count, l)
        end
      else (acc, count, l)
  | [] => (acc, count, l)
  end.

(** [m * 10^e] *)
Definition decimal (m e : Z) : Q :=
  if (0 <=? e)%Z then inject_Z (m * 10 ^ e)
  else Qmake m (Z.to_pos (10 ^ (- e))).

Definition parse_exponent (l : list ascii) : option Z :=
  match l with
  | [] => Some 0%Z
  | c :: l' =>
      if Ascii.eqb (to_lower c) "e" then
        let '(negative, l') :=
          match l' with
          | s :: l'' =>
              if Ascii.eqb s "-" then (true, l'')
              else if Ascii.eqb s "+" then (false, l'')
              else (false, l')
          | [] => (false, l')
          end in
        match digit_run 0 0 l' with
        | (_, O, _) => None
        | (e, _, []) => Some (if negative then (- e)%Z else e)
        | _ => None
        end
      else None
  end.

Definition parse_numeral (l : list ascii) : option Q :=
  let '(int_part, int_digits, rest) := digit_run 0 0 l in
  let '(mantissa, frac_digits, rest) :=
    match rest with
    | c :: rest' =>
        if Ascii.eqb c "." then digit_run int_part 0 rest'
        else (int_part, O, rest)
    | [] => (int_part, O, rest)
    end in
  if (int_digits + frac_digits =? 0)%nat then None
  else
    match parse_exponent rest with
    | Some e => Some (decimal mantissa (e - Z.of_nat frac_digits))
    | None => None
    end.

Definition python_float (s : string) : option fl :=
  let l := strip (list_ascii_of_string s) in
  let '(negative, l) :=
    match l with
    | c :: l' =>
        if Ascii.eqb c "-" then (true, l')
        else if Ascii.eqb c "+" then (false, l')
        else (false, l)
    | [] => (false, l)
    end in
  let word := string_of_list_ascii (map to_lower l) in
  let signed := fun x : fl => if negative then fl_neg x else x in
  if String.eqb word "inf" || String.eqb word "infinity" then Some (signed PInf)
  else if String.eqb word "nan" then Some NaN
  else option_map (fun q => signed (round64 q)) (parse_numeral l).

(** One cell as numpy stores it in a float32 array: a Python object is
    made a Python float (a binary64) first, which an integer beyond the
    binary64 range refuses, and text is read by [float]. *)
Definition cell_float32 (c : cell) : result fl :=
  match c with
  | CFloat x => Ok (np_float32 x)
  | CInt z =>
      match np_float64 (fl_of_Z z) with
      | Fin q => Ok (np_float32 (Fin q))
      | _ => Raise OverflowError
      end
  | CBool b => Ok (fl_of_bool b)
  | CStr s =>
      match python_float s with
      | Some x => Ok (np_float32 x)
      | None => Raise (ValueError "could not convert string to float")
      end
  end.

(** ** Grouping *)

Definition cells (c : column) : list cell :=
  match c with
  | FloatCol v => map CFloat v
  | IntCol v => map CInt v
  | BoolCol v => map CBool v
  | StrCol v => map CStr v
  | ObjCol v => v
  end.

Definition cell_eqb (a b : cell) : bool :=
  match a, b with
  | CFloat x, CFloat y => fl_eqb x y
  | CInt x, CInt y => Z.eqb x y
  | CBool x, CBool y => Bool.eqb x y
  | CStr x, CStr y => String.eqb x y
  | _, _ => false
  end.

(** The order of group keys; the cells of one column are of one kind. *)
Definition cell_leb (a b : cell) : bool :=
  match a, b with
  | CFloat x, CFloat y => fl_leb x y
  | CInt x, CInt y => Z.leb x y
  | CBool x, CBool y => implb x y
  | CStr x, CStr y => String.leb x y
  | _, _ => false
  end.

Definition cell_is_nan (a : cell) : bool :=
  match a with CFloat x => fl_is_nan x | _ => false end.

Section SortedKeys.
Context {A : Type} (le eq : A -> A -> bool).

Fixpoint insert_key (x : A) (l : list A) : list A :=
  match l with
  | [] => [x]
  | y :: l' =>
      if eq x y then l
      else if le x y then x :: l
      else y :: insert_key x l'
  end.

(** The distinct keys of a groupby, in increasing order. *)
Definition group_keys (l : list A) : list A := fold_right insert_key [] l.
End SortedKeys.

(** pandas means skip nan. *)
Definition nanmean (l : list fl) : fl :=
  np_mean (filter (fun x => negb (fl_is_nan x)) l).

(** [df.groupby(["bin"]).mean()] *)
Definition int_column (name : string) (df : DataFrame) : result (list Z) :=
  c <- get_column name df ;;
  match c with
  | IntCol v => Ok v
  | _ => Raise TypeError
  end.

Definition group_mean (keys bins : list Z) (c : column) : option column :=
  match as_floats c with
  | Ok v =>
      Some (FloatCol
              (map (fun b => nanmean (mask_select (map (Z.eqb b) bins) v)) keys))
  | Raise _ => None (* text columns are left out of the means *)
  end.

Definition groupby_bin_mean (df : DataFrame) : result DataFrame :=
  bins <- int_column "bin" df ;;
  let keys := group_keys Z.leb Z.eqb bins in
  Ok (mkDataFrame keys
        (flat_map
           (fun nc =>
              if String.eqb (fst nc) "bin" then []
              else match group_mean keys bins (snd nc) with
                   | Some c => [(fst nc, c)]
                   | None => []
                   end)
           (columns df))).

(** [[(b, df_bin.index) for b, df_bin in df.groupby(["bin"])]] *)
Definition groupby_bin_indexes (df : DataFrame) : result (list (Z * list Z)) :=
  bins <- int_column "bin" df ;;
  Ok (map (fun b => (b, mask_select (map (Z.eqb b) bins) (index df)))
          (group_keys Z.leb Z.eqb bins)).

(** [pd.unique]: the distinct values, in the order in which they first occur. *)
Fixpoint pd_unique {A : Type} (eq : A -> A -> bool) (l : list A) : list A :=
  match l with
  | [] => []
  | x :: l' => x :: filter (fun y => negb (eq x y)) (pd_unique eq l')
  end.

(** [df["bin"].value_counts(sort=False)]: the bins in the order in which
    they first occur, each with the number of its records. *)
Definition bin_counts (bins : list Z) : list (Z * nat) :=
  map (fun b => (b, List.length (filter (Z.eqb b) bins)))
      (pd_unique Z.eqb bins).

(** The table of samples per structure name (rows) and bin (columns);
    a pair that does not occur is nan, here [None]. *)
Record freq_table : Type := mkFreq {
  freq_structures : list cell;
  freq_bins : list Z;
  freq_samples : list (list (option nat))
}.

Definition pair_count (s : cell) (b : Z) (names : list cell) (bins : list Z)
  : option nat :=
  let n := List.length
             (filter (fun sb => cell_eqb s (fst sb) && Z.eqb b (snd sb))
                     (combine names bins)) in
  match n with O => None | _ => Some n end.

(** [df[["structure_name", "bin"]].groupby(["structure_name", "bin"]).size()],
    renamed and unstacked on the bin. *)
Definition freqs_per_structs (df : DataFrame) : result freq_table :=
  names <- get_column "structure_name" df ;;
  bins <- int_column "bin" df ;;
  let rows := filter (fun sb => negb (cell_is_nan (fst sb)))
                     (combine (cells names) bins) in
  let structures := group_keys cell_leb cell_eqb (map fst rows) in
  let bs := group_keys Z.leb Z.eqb (map snd rows) in
  Ok (mkFreq structures bs
        (map (fun s => map (fun b => pair_count s b (map fst rows) (map snd rows)) bs)
             structures)).

(** ** [digitize_shape_mode] *)

(** What a call returns: the three values, and the fourth one when
    [return_freqs_per_structs] is set. *)
Record digitized : Type := mkDigitized {
  ret_df : DataFrame;                 (* first returned value *)
  ret_bin_indexes : list (Z * list Z);
  ret_bin_centers : list fl;
  ret_pc_std : fl;
  ret_df_freq : option freq_table
}.

(** What a call leaves behind: the frame the caller passed in, and the text
    file written when [save] is given. *)
Record outcome (A : Type) : Type := mkOutcome {
  caller_frame : DataFrame;
  flog : option (string * list (Z * nat));
  returned : result A
}.
Arguments mkOutcome {A}.
Arguments caller_frame {A}.
Arguments flog {A}.
Arguments returned {A}.

(** Lines 132-140: center and z-score the feature. *)
Definition zscore (values : list fl) : list fl * fl :=
  let m := np_mean values in
  let values := map (fun v => fl_sub v m) values in
  let pc_std := np_std values in
  (map (fun v => fl_div v pc_std) values, pc_std).

(** [df[feature].values.astype(np.float32)] *)
Definition feature_values (feature : string) (df : DataFrame) : result (list fl) :=
  c <- get_column feature df ;;
  match c with
  | FloatCol v => Ok (map np_float32 v)
  | IntCol v => Ok (map (fun z => np_float32 (fl_of_Z z)) v)
  | BoolCol v => Ok (map fl_of_bool v)
  | StrCol v => all_ok (map (fun s => cell_float32 (CStr s)) v)
  | ObjCol v => all_ok (map cell_float32 v)
  end.

Definition digitize_shape_mode
    (df : DataFrame) (feature : string) (nbins : Z)
    (filter_based_on : list string) (filter_extremes_pct : Q)
    (save : option string) (return_freqs_per_structs : bool)
  : outcome digitized :=
  if negb (has_column feature df) then
    mkOutcome df None (Raise (ValueError "Column not found."))
  else
    match filter_extremes_based_on_percentile df filter_based_on filter_extremes_pct with
    | (caller, Raise e) => mkOutcome caller None (Raise e)
    | (caller, Ok df) =>
        match
          (values <- feature_values feature df ;;
           let (values, pc_std) := zscore values in
           bins <- shape_mode_bins nbins ;;
           let (bin_centers, bin_edges) := bins in
           idx <- np_digitize values bin_edges ;;
           Ok (set_column "bin" (IntCol idx) df, idx, bin_centers, pc_std))
        with
        | Raise e => mkOutcome caller None (Raise e)
        | Ok (df, idx, bin_centers, pc_std) =>
            let report :=
              match save with
              | Some path => Some (String.append path ".txt", bin_counts idx)
              | None => None
              end in
            mkOutcome caller report
              (df_agg <- groupby_bin_mean df ;;
               bin_indexes <- groupby_bin_indexes df ;;
               if return_freqs_per_structs then
                 df_freq <- freqs_per_structs df ;;
                 Ok (mkDigitized df_agg bin_indexes bin_centers pc_std (Some df_freq))
               else
                 Ok (mkDigitized df bin_indexes bin_centers pc_std None))
        end
    end.

(** ** Rows *)

(** A pandas Series holding one row: the cells by column name. *)
Definition Series : Type := list (string * cell).

Definition row_at (i : nat) (df : DataFrame) : Series :=
  map (fun nc => (fst nc, nth i (cells (snd nc)) (CFloat NaN))) (columns df).

(** [df.iterrows()] *)
Definition iterrows (df : DataFrame) : list (Z * Series) :=
  combine (index df)
          (map (fun i => row_at i df) (seq 0 (List.length (index df)))).

(** [row[key]] *)
Definition row_get (key : string) (row : Series) : result cell :=
  match lookup key row with
  | Some c => Ok c
  | None => Raise (KeyError key)
  end.

(** ** [get_shcoeff_matrix_from_dataframe] *)

(** [pat in s] *)
Fixpoint contains (pat s : string) : bool :=
  String.prefix pat s
  || match s with
     | EmptyString => false
     | String _ s' => contains pat s'
     end.

Definition str_of_nat (n : nat) : string :=
  NilEmpty.string_of_uint (Nat.to_uint n).

(** [f"{prefix}{l}M{m}C"] and [f"{prefix}{l}M{m}S"] *)
Definition coeff_key (prefix : string) (l m : nat) (cs : string) : string :=
  String.append prefix
    (String.append (str_of_nat l)
       (String.append "M" (String.append (str_of_nat m) cs))).

(** [row[[f for f in row.keys() if pat in f]]] *)
Definition select_keys (pat : string) (row : Series) : list cell :=
  map snd (filter (fun kv => contains pat (fst kv)) row).

(** Storing a selection in one slot of the float32 array works when the
    selection has exactly one cell and that cell is a number, or text that
    reads as one. *)
Definition as_scalar (sel : list cell) : result fl :=
  match sel with
  | [c] => cell_float32 c
  | _ => Raise (ValueError "setting an array element with a sequence.")
  end.

(** The coefficient array, [coeffs[c][l][m]]. *)
Definition matrix : Type := list (list (list fl)).

(** [np.zeros((a, b, c), dtype=np.float32)] *)
Definition np_zeros3 (a b c : nat) : matrix :=
  repeat (repeat (repeat (Fin 0) c) b) a.

Fixpoint update {A : Type} (n : nat) (f : A -> A) (l : list A) : list A :=
  match l, n with
  | [], _ => []
  | x :: l', O => f x :: l'
  | x :: l', S n' => x :: update n' f l'
  end.

(** [coeffs[c, l, m] = v], with indices in range. *)
Definition set3 (c l m : nat) (v : fl) (coeffs : matrix) : matrix :=
  update c (update l (update m (fun _ => v))) coeffs.

(** [coeffs[c, l, m]] *)
Definition get3 (c l m : nat) (coeffs : matrix) : option fl :=
  match nth_error coeffs c with
  | Some plane =>
      match nth_error plane l with
      | Some line => nth_error line m
      | None => None
      end
  | None => None
  end.

(** The body of the two loops: both stores sit in one [try], whose handler
    does nothing. *)
Definition store_pair (row : Series) (prefix : string) (l m : nat)
    (coeffs : matrix) : matrix :=
  match as_scalar (select_keys (coeff_key prefix l m "C") row) with
  | Raise _ => coeffs
  | Ok c =>
      let coeffs := set3 0 l m c coeffs in
      match as_scalar (select_keys (coeff_key prefix l m "S") row) with
      | Raise _ => coeffs
      | Ok s => set3 1 l m s coeffs
      end
  end.

Definition fill_coeffs (row : Series) (prefix : string) (lmax : nat)
    (coeffs : matrix) : matrix :=
  fold_left
    (fun coeffs l =>
       fold_left (fun coeffs m => store_pair row prefix l m coeffs)
                 (seq 0 (l + 1)) coeffs)
    (seq 0 lmax) coeffs.

(** [np.abs(coeffs).sum()] *)
Definition abs_sum (coeffs : matrix) : fl :=
  np_sum (map fl_abs (List.concat (List.concat coeffs))).

Definition get_shcoeff_matrix_from_dataframe
    (row : Series) (prefix : string) (lmax : nat) : result matrix :=
  let coeffs := fill_coeffs row prefix lmax (np_zeros3 2 lmax lmax) in
  if fl_is_zero (abs_sum coeffs) then Raise (NoCoefficientsFound prefix)
  else Ok coeffs.

(** ** Meshes *)

Definition point : Type := (fl * fl * fl)%type.

(** [p[a]] for an axis [a] in 0, 1, 2. *)
Definition coord (a : nat) (p : point) : fl :=
  match p, a with
  | (x, _, _), O => x
  | (_, y, _), S O => y
  | (_, _, z), _ => z
  end.

Definition set_coord (a : nat) (v : fl) (p : point) : point :=
  match p, a with
  | (_, y, z), O => (v, y, z)
  | (x, _, z), S O => (x, v, z)
  | (x, y, _), _ => (x, y, v)
  end.

(** A vtkPolyData: its points and its triangles. *)
Record Mesh : Type := mkMesh {
  mesh_points : list point;
  mesh_triangles : list (nat * nat * nat)
}.

(** A vtkPlaneSource as the code sets it up. *)
Record Plane : Type := mkPlane {
  plane_x_resolution : Z;
  plane_y_resolution : Z;
  plane_origin : point;
  plane_point1 : point;
  plane_point2 : point
}.

(** The routines of vtk, aicsshparam and math that the code calls and that
    are not part of it. *)
Class Geometry : Type := {
  (* shtools.get_reconstruction_from_coeffs(coeffs)[0] *)
  get_reconstruction_from_coeffs : matrix -> Mesh;
  (* the points of vtkIntersectionPolyDataFilter on the mesh and the
     triangulated plane *)
  intersection_points : Mesh -> Plane -> list point;
  (* math.degrees(math.atan2(y, x)) *)
  degrees_atan2 : fl -> fl -> fl
}.

(** The vtk filters a call has run. *)
Inductive vtk_call : Type :=
| PlaneSource (p : Plane)
| TriangleFilter
| IntersectionPolyDataFilter.

(** [mesh.GetBounds()]: (xmin, xmax, ymin, ymax, zmin, zmax). *)
Definition get_bounds (mesh : Mesh) : list fl :=
  flat_map
    (fun a =>
       let v := map (coord a) (mesh_points mesh) in
       match np_min v, np_max v with
       | Ok lo, Ok hi => [lo; hi]
       | _, _ => [Fin 1; Fin (-1)] (* the bounds of a mesh without points *)
       end)
    [0%nat; 1%nat; 2%nat].

(** ** [find_plane_mesh_intersection] *)

(** [[a for a in [0, 1, 2] if a not in proj][0]] *)
Definition orthogonal_axis (proj : nat * nat) : result nat :=
  match filter (fun a => negb (Nat.eqb a (fst proj) || Nat.eqb a (snd proj)))
               [0%nat; 1%nat; 2%nat] with
  | a :: _ => Ok a
  | [] => Raise IndexError
  end.

(** [points[:, a]] *)
Definition points_column (a : nat) (points : list point) : result (list fl) :=
  if (a <? 3)%nat then Ok (map (coord a) points) else Raise IndexError.

(** Python's [x % 360] on floats: the remainder of the division that
    truncates (C's [fmod], which is exact), to which 360 is added, in
    binary64, when it is negative. *)
Definition mod360 (x : fl) : fl :=
  match x with
  | Fin q =>
      let quotient := if Qle_bool 0 q then Qfloor (q / 360)
                      else Qceiling (q / 360) in
      let r := q - 360 * inject_Z quotient in
      if Qltb r 0 then add64 (Fin r) (Fin 360) else Fin r
  | _ => NaN
  end.

Section Intersection.
Context {geometry : Geometry}.

(** The sort key of one projected point. *)
Definition clockwise_key (center coord2 : fl * fl) : fl :=
  let dx := fl_sub (fst coord2) (fst center) in
  let dy := fl_sub (snd coord2) (snd center) in
  mod360 (fl_sub (Fin (-135)) (degrees_atan2 dy dx)).

(** Python's [sorted]: stable, by [<] on the keys. *)
Fixpoint insert_by_key (key : fl * fl -> fl) (x : fl * fl)
    (l : list (fl * fl)) : list (fl * fl) :=
  match l with
  | [] => [x]
  | y :: l' =>
      if fl_ltb (key y) (key x) then y :: insert_by_key key x l'
      else x :: l
  end.

Definition sorted_by_key (key : fl * fl -> fl) (l : list (fl * fl))
  : list (fl * fl) :=
  fold_right (insert_by_key key) [] l.

(** The mean of the projected points, by [reduce] over them. *)
Definition coords_center (coords : list (fl * fl)) : result (fl * fl) :=
  match coords with
  | [] => Raise TypeError (* reduce() of empty sequence *)
  | c :: rest =>
      let s := fold_left
                 (fun x y => (fl_add (fst x) (fst y), fl_add (snd x) (snd y)))
                 rest c in
      let n := fl_of_Z (Z.of_nat (List.length coords)) in
      Ok (fl_div (fst s) n, fl_div (snd s) n)
  end.

(** [points[:, proj] = coords] *)
Definition store_coords (proj : nat * nat) (points : list point)
    (coords : list (fl * fl)) : list point :=
  map (fun pc => set_coord (snd proj) (snd (snd pc))
                   (set_coord (fst proj) (fst (snd pc)) (fst pc)))
      (combine points coords).

(** Lines 256-283: order the intersection points clockwise. *)
Definition sort_clockwise (proj : nat * nat) (points : list point)
  : result (list point) :=
  xs <- points_column (fst proj) points ;;
  ys <- points_column (snd proj) points ;;
  let coords := combine xs ys in
  center <- coords_center coords ;;
  let coords := sorted_by_key (clockwise_key center) coords in
  Ok (store_coords proj points coords).

(** Lines 215-240: the plane through the shifted middle of the mesh. *)
Definition cutting_plane (ax : nat) (points : list point) : result Plane :=
  let col := fun a => map (coord a) points in
  let mid := fl_add (np_mean (col ax)) (Fin (75 # 100)) in
  lo0 <- np_min (col 0%nat) ;; hi0 <- np_max (col 0%nat) ;;
  lo1 <- np_min (col 1%nat) ;; hi1 <- np_max (col 1%nat) ;;
  lo2 <- np_min (col 2%nat) ;; hi2 <- np_max (col 2%nat) ;;
  let ptp := [fl_sub hi0 lo0; fl_sub hi1 lo1; fl_sub hi2 lo2] in
  widest <- np_max ptp ;;
  let offset := fl_mul (Fin (1 # 10)) widest in
  let lo := fun v => fl_sub v offset in
  let hi := fun v => fl_add v offset in
  Ok (match ax with
      | O => mkPlane 4 4 (mid, lo lo1, lo lo2) (mid, lo lo1, hi hi2)
                         (mid, hi hi1, lo lo2)
      | S O => mkPlane 4 4 (lo lo0, mid, lo lo2) (lo lo0, mid, hi hi2)
                           (hi hi0, mid, lo lo2)
      | _ => mkPlane 4 4 (lo lo0, lo lo1, mid) (lo lo0, hi hi1, mid)
                         (hi hi0, lo lo1, mid)
      end).

(** The vtk filters run by the call, and what it returns or raises. *)
Definition find_plane_mesh_intersection (proj : nat * nat) (mesh : Mesh)
  : list vtk_call * result (list point) :=
  match orthogonal_axis proj with
  | Raise e => ([], Raise e)
  | Ok ax =>
      let points := mesh_points mesh in
      if fl_is_zero (np_sum (map fl_abs (map (coord ax) points))) then
        ([], Raise OnlyZerosInPlaneAxis)
      else
        match cutting_plane ax points with
        | Raise e => ([], Raise e)
        | Ok plane =>
            ([PlaneSource plane; TriangleFilter; IntersectionPolyDataFilter],
             sort_clockwise proj (intersection_points mesh plane))
        end
  end.

(** ** [get_mesh_from_dataframe] and the per-bin driver *)

Definition get_mesh_from_dataframe (row : Series) (prefix : string)
    (lmax : nat) : result Mesh :=
  coeffs <- get_shcoeff_matrix_from_dataframe row prefix lmax ;;
  Ok (get_reconstruction_from_coeffs coeffs).

(** What the driver has collected: contours, meshes, limits. *)
Definition reconstructions : Type :=
  (list (list point) * list Mesh * list (list fl))%type.

(** One turn of the loop over the rows. *)
Definition reconstruct_row (prefix : string) (proj : nat * nat) (lmax : nat)
    (row : Series) : result (list point * Mesh * list fl) :=
  mesh <- get_mesh_from_dataframe row prefix lmax ;;
  proj_points <- snd (find_plane_mesh_intersection proj mesh) ;;
  Ok (proj_points, mesh, get_bounds mesh).

Fixpoint reconstruct_rows (prefix : string) (proj : nat * nat) (lmax : nat)
    (rows : list Series) (acc : reconstructions) : result reconstructions :=
  match rows with
  | [] => Ok acc
  | row :: rest =>
      r <- reconstruct_row prefix proj lmax row ;;
      let '(proj_points, mesh, limit) := r in
      let '(contours, meshes, limits) := acc in
      reconstruct_rows prefix proj lmax rest
        (contours ++ [proj_points], meshes ++ [mesh], limits ++ [limit])
  end.

(** [df.set_index("bin")] as far as the loop sees it: the bin is no longer
    one of the cells of a row (the loop does not use the row labels). *)
Definition rows_without_bin (df : DataFrame) : list Series :=
  map snd (iterrows (if has_column "bin" df then drop_column "bin" df else df)).

Definition get_contours_of_consecutive_reconstructions
    (df : DataFrame) (prefix : string) (proj : nat * nat) (lmax : nat)
  : result reconstructions :=
  reconstruct_rows prefix proj lmax (rows_without_bin df) ([], [], []).

End Intersection.

(** ** [transform_coords_to_mem_space] *)

(** numpy's trigonometry, which has no rational values to compute. *)
Class Trig : Type := {
  np_pi : fl;
  np_cos : fl -> fl;
  np_sin : fl -> fl
}.

(** One entry of [np.matmul(rot_mx, v)]. *)
Definition dot3 (r v : fl * fl * fl) : fl :=
  let '(r0, r1, r2) := r in
  let '(v0, v1, v2) := v in
  fl_add (fl_add (fl_mul r0 v0) (fl_mul r1 v1)) (fl_mul r2 v2).

Definition list_get {A : Type} (l : list A) (i : nat) : result A :=
  match nth_error l i with
  | Some a => Ok a
  | None => Raise IndexError
  end.

Section Offsets.
Context {trig : Trig}.

Definition transform_coords_to_mem_space
    (xo yo zo angle : fl) (cm : list fl) : result (fl * fl * fl) :=
  let angle := fl_div (fl_mul np_pi angle) (Fin 180) in
  let rot_mx :=
    ((np_cos angle, np_sin angle, Fin 0),
     (fl_neg (np_sin angle), np_cos angle, Fin 0),
     (Fin 0, Fin 0, Fin 1)) in
  cm0 <- list_get cm 0 ;;
  cm1 <- list_get cm 1 ;;
  cm2 <- list_get cm 2 ;;
  let v := (fl_sub xo cm0, fl_sub yo cm1, fl_sub zo cm2) in
  let '(r0, r1, r2) := rot_mx in
  Ok (dot3 r0 v, dot3 r1 v, dot3 r2 v).

(** A numeric cell of a row. *)
Definition row_float (key : string) (row : Series) : result fl :=
  c <- row_get key row ;; as_float c.

(** Change the coordinate system of the nuclear centroid from nuclear to
    the aligned cell. *)
Definition process_this_index (index_row : Z * Series)
  : result (fl * fl * fl) :=
  let row := snd index_row in
  xo <- row_float "dna_position_x_centroid_lcc" row ;;
  yo <- row_float "dna_position_y_centroid_lcc" row ;;
  zo <- row_float "dna_position_z_centroid_lcc" row ;;
  angle <- row_float "mem_shcoeffs_transform_angle_lcc" row ;;
  cmx <- row_float "mem_position_x_centroid_lcc" row ;;
  cmy <- row_float "mem_position_y_centroid_lcc" row ;;
  cmz <- row_float "mem_position_z_centroid_lcc" row ;;
  transform_coords_to_mem_space xo yo zo angle [cmx; cmy; cmz].

(** [df.loc[df.index.isin(indexes)]] *)
Definition rows_in (indexes : list Z) (df : DataFrame) : DataFrame :=
  select_rows (map (fun i => existsb (Z.eqb i) indexes) (index df)) df.

(** [np.array(triples).mean(axis=0)], then its entries 0, 1, 2. *)
Definition mean_axis0 (l : list (fl * fl * fl)) : result (fl * fl * fl) :=
  match l with
  | [] => Raise IndexError (* the mean of nothing is one nan, not a triple *)
  | _ => Ok (np_mean (map (fun t => fst (fst t)) l),
             np_mean (map (fun t => snd (fst t)) l),
             np_mean (map snd l))
  end.

(** The missing cell that pandas puts in a new row or column. *)
Definition append_missing (c : column) : column :=
  match c with
  | FloatCol v => FloatCol (v ++ [NaN])
  | IntCol v => FloatCol (map fl_of_Z v ++ [NaN])
  | BoolCol v => ObjCol (map CBool v ++ [CFloat NaN])
  | StrCol v => ObjCol (map CStr v ++ [CFloat NaN])
  | ObjCol v => ObjCol (v ++ [CFloat NaN])
  end.

Definition where_label {A : Type} (b : Z) (labels : list Z) (v : A)
    (l : list A) : list A :=
  map (fun ia => if Z.eqb b (fst ia) then v else snd ia) (combine labels l).

Definition store_float (b : Z) (labels : list Z) (x : fl) (c : column)
  : column :=
  match c with
  | FloatCol v => FloatCol (where_label b labels x v)
  | IntCol v => FloatCol (where_label b labels x (map fl_of_Z v))
  | BoolCol v => ObjCol (where_label b labels (CFloat x) (map CBool v))
  | StrCol v => ObjCol (where_label b labels (CFloat x) (map CStr v))
  | ObjCol v => ObjCol (where_label b labels (CFloat x) v)
  end.

(** [df.loc[b, name] = x]: the row and the column are added when the frame
    does not have them yet. *)
Definition loc_set (b : Z) (name : string) (x : fl) (df : DataFrame)
  : DataFrame :=
  let df :=
    if existsb (Z.eqb b) (index df) then df
    else mkDataFrame (index df ++ [b])
           (map (fun nc => (fst nc, append_missing (snd nc))) (columns df)) in
  let c :=
    match lookup name (columns df) with
    | Some c => c
    | None => FloatCol (repeat NaN (List.length (index df)))
    end in
  set_column name (store_float b (index df) x c) df.

(** [df.loc[b, name]] of a frame with distinct row labels. *)
Definition loc_get (b : Z) (name : string) (df : DataFrame) : result fl :=
  c <- get_column name df ;;
  match find (fun ic => Z.eqb b (fst ic)) (combine (index df) (cells c)) with
  | Some ic => as_float (snd ic)
  | None => Raise (KeyError "bin")
  end.

Definition store_offset (b : Z) (d : fl * fl * fl) (df_agg : DataFrame)
  : DataFrame :=
  let '(dx, dy, dz) := d in
  loc_set b "dna_dzc" dz (loc_set b "dna_dyc" dy (loc_set b "dna_dxc" dx df_agg)).

(** One turn of the loop over the bins when the nuclear position is fixed. *)
Definition bin_offset (df : DataFrame) (indexes : list Z)
  : result (fl * fl * fl) :=
  let df_tmp := rows_in indexes df in
  nuclei_cm_fix <- all_ok (map process_this_index (iterrows df_tmp)) ;;
  mean_axis0 nuclei_cm_fix.

(** Lines 587-636.  [df_agg] is changed in place: the result is that frame
    as the loop leaves it, and whether it raised.  (The source tests the
    option once and has one loop per branch; here the one loop tests it in
    every turn.) *)
Fixpoint nuclear_offsets (fix_nuclear_position : bool) (df : DataFrame)
    (bin_indexes : list (Z * list Z)) (df_agg : DataFrame)
  : DataFrame * result unit :=
  match bin_indexes with
  | [] => (df_agg, Ok tt)
  | (b, indexes) :: rest =>
      if fix_nuclear_position then
        match bin_offset df indexes with
        | Raise e => (df_agg, Raise e)
        | Ok d =>
            nuclear_offsets fix_nuclear_position df rest (store_offset b d df_agg)
        end
      else
        nuclear_offsets fix_nuclear_position df rest
          (store_offset b (Fin 0, Fin 0, Fin 0) df_agg)
  end.

End Offsets.

(** ** [animate_shape_modes_and_save_meshes], up to the plots *)

Section Animation.
Context {geometry : Geometry} {trig : Trig}.

(** Move the points of a nuclear mesh by the offset of its bin. *)
Definition shift_mesh (b : Z) (df_agg : DataFrame) (mesh : Mesh) : result Mesh :=
  pts <- all_ok
           (map (fun r : point =>
                   let '(x, y, z) := r in
                   dx <- loc_get b "dna_dxc" df_agg ;;
                   dy <- loc_get b "dna_dyc" df_agg ;;
                   dz <- loc_get b "dna_dzc" df_agg ;;
                   Ok (fl_add x dx, fl_add y dy, fl_add z dz))
                (mesh_points mesh)) ;;
  Ok (mkMesh pts (mesh_triangles mesh)).

(** The meshes written for the first projection, as (entity, bin, mesh). *)
Fixpoint save_meshes (df_agg : DataFrame) (bins : list (Z * list Z))
    (mem_meshes dna_meshes : list Mesh) : result (list (string * Z * Mesh)) :=
  match bins, mem_meshes, dna_meshes with
  | (b, _) :: bins', mem_mesh :: mem', dna_mesh :: dna' =>
      dna_mesh <- shift_mesh b df_agg dna_mesh ;;
      rest <- save_meshes df_agg bins' mem' dna' ;;
      Ok (("MEM", b, mem_mesh) :: ("DNA", b, dna_mesh) :: rest)
  | _, _, _ => Ok []
  end.

Definition limit_at (i : nat) (limits : list (list fl)) : result (list fl) :=
  all_ok (map (fun b => list_get b i) limits).

(** What the loop over the three projections hands to the plots. *)
Record projections : Type := mkProjections {
  saved_meshes : list (string * Z * Mesh);
  all_mem_contours : list (list (list point));
  all_dna_contours : list (list (list point));
  hlimits : list fl;
  vlimits : list fl
}.

(** One turn of the loop over the projections (lines 645-693). *)
Definition project_once (df_agg : DataFrame) (bin_indexes : list (Z * list Z))
    (proj_id : nat) (projection : nat * nat) (acc : projections)
  : result projections :=
  mem <- get_contours_of_consecutive_reconstructions
           df_agg "mem_shcoeffs_L" projection 32 ;;
  dna <- get_contours_of_consecutive_reconstructions
           df_agg "dna_shcoeffs_L" projection 32 ;;
  let '(mem_contours, mem_meshes, mem_limits) := mem in
  let '(dna_contours, dna_meshes, dna_limits) := dna in
  saved <- (if Nat.eqb proj_id 0
            then save_meshes df_agg bin_indexes mem_meshes dna_meshes
            else Ok []) ;;
  xmin <- (l <- limit_at 0 mem_limits ;; np_min l) ;;
  xmax <- (l <- limit_at 1 mem_limits ;; np_max l) ;;
  ymin <- (l <- limit_at 2 mem_limits ;; np_min l) ;;
  ymax <- (l <- limit_at 3 mem_limits ;; np_max l) ;;
  zmin <- (l <- limit_at 4 mem_limits ;; np_min l) ;;
  zmax <- (l <- limit_at 5 mem_limits ;; np_max l) ;;
  Ok (mkProjections
        (saved_meshes acc ++ saved)
        (all_mem_contours acc ++ [mem_contours])
        (all_dna_contours acc ++ [dna_contours])
        (hlimits acc ++ [xmin; xmax; ymin; ymax])
        (vlimits acc ++ [ymin; ymax; zmin; zmax])).

Fixpoint project_all (df_agg : DataFrame) (bin_indexes : list (Z * list Z))
    (todo : list (nat * (nat * nat))) (acc : projections) : result projections :=
  match todo with
  | [] => Ok acc
  | (proj_id, projection) :: rest =>
      acc <- project_once df_agg bin_indexes proj_id projection acc ;;
      project_all df_agg bin_indexes rest acc
  end.

(** The function up to its animation, the loop over the three projections
    included: [df_agg] as the call leaves it, and the contours, saved meshes
    and limits that loop has built.  The animation that follows is left
    out: it draws the contours of frame [i], the nuclear one shifted by the
    offsets of the row of [df_agg] labelled [i + 1]. *)
Definition animate_shape_modes_and_save_meshes
    (df df_agg : DataFrame) (bin_indexes : list (Z * list Z))
    (fix_nuclear_position : bool)
  : DataFrame * result projections :=
  match nuclear_offsets fix_nuclear_position df bin_indexes df_agg with
  | (df_agg, Raise e) => (df_agg, Raise e)
  | (df_agg, Ok _) =>
      (df_agg,
       project_all df_agg bin_indexes
         [(0%nat, (0%nat, 1%nat)); (1%nat, (0%nat, 2%nat)); (2%nat, (1%nat, 2%nat))]
         (mkProjections [] [] [] [] []))
  end.

End Animation.

From Stdlib Require Import Sorted.

(** * [cvapipe_analysis/tools/plotting.py]: the concordance heatmaps

    The data side of [PlotMaker] and [ConcordancePlotMaker]: the matrix of
    correlations by structure, the checks on the frame, and the matrices
    handed to the heatmaps.  The matplotlib calls are left out. *)

(** One row of the frame of correlations the class is given: its label and
    the columns the class reads. *)
Record corr_row : Type := mkCorrRow {
  row_label : Z;
  structure1 : string;
  structure2 : string;
  Pearson : fl;
  mpId : Z;
  alias : string;
  shape_mode : string
}.

Definition corr_frame : Type := list corr_row.

(** A two-dimensional float array, by rows. *)
Definition array2 : Type := list (list fl).

(** [matrix = np.empty((n, n)); matrix[:] = np.nan] *)
Definition np_full_nan (n : nat) : array2 := repeat (repeat NaN n) n.

(** [matrix[i, j] = v], with indices in range. *)
Definition set2 (i j : nat) (v : fl) (matrix : array2) : array2 :=
  update i (update j (fun _ => v)) matrix.

(** [matrix[i, j]] *)
Definition get2 (i j : nat) (matrix : array2) : option fl :=
  match nth_error matrix i with
  | Some row => nth_error row j
  | None => None
  end.

(** [df.loc[(df.structure1 == name1) & (df.structure2 == name2)].index] *)
Definition pair_labels (name1 name2 : string) (df : corr_frame) : list Z :=
  map row_label
      (filter (fun r => String.eqb (structure1 r) name1
                        && String.eqb (structure2 r) name2) df).

(** [df.at[label, "Pearson"]] of a frame with distinct row labels. *)
Definition at_Pearson (label : Z) (df : corr_frame) : result fl :=
  match find (fun r => Z.eqb (row_label r) label) df with
  | Some r => Ok (Pearson r)
  | None => Raise (KeyError "label")
  end.

(** The body of the two loops of [get_correlation_matrix]. *)
Definition correlation_cell (df : corr_frame) (names1 names2 : list string)
    (s1 s2 : nat) (name1 name2 : string) (matrix : array2) : result array2 :=
  if existsb (String.eqb name1) names1 && existsb (String.eqb name2) names2 then
    let indexes := pair_labels name1 name2 df in
    label <- list_get indexes 0 ;;
    x <- at_Pearson label df ;;
    Ok (set2 s1 s2 x matrix)
  else Ok matrix.

(** [for s2, name2 in enumerate(rank)], from position [s2] on. *)
Fixpoint correlation_row (df : corr_frame) (names1 names2 : list string)
    (s1 : nat) (name1 : string) (s2 : nat) (rank : list string)
    (matrix : array2) : result array2 :=
  match rank with
  | [] => Ok matrix
  | name2 :: rest =>
      matrix <- correlation_cell df names1 names2 s1 s2 name1 name2 matrix ;;
      correlation_row df names1 names2 s1 name1 (S s2) rest matrix
  end.

(** [for s1, name1 in enumerate(rank)], from position [s1] on. *)
Fixpoint correlation_rows (df : corr_frame) (names1 names2 : list string)
    (s1 : nat) (todo rank : list string) (matrix : array2) : result array2 :=
  match todo with
  | [] => Ok matrix
  | name1 :: rest =>
      matrix <- correlation_row df names1 names2 s1 name1 0 rank matrix ;;
      correlation_rows df names1 names2 (S s1) rest rank matrix
  end.

(** [PlotMaker.get_correlation_matrix(df, rank)] *)
Definition get_correlation_matrix (df : corr_frame) (rank : list string)
  : result array2 :=
  let n := List.length rank in
  let matrix := np_full_nan n in
  let names1 := pd_unique String.eqb (map structure1 df) in
  let names2 := pd_unique String.eqb (map structure2 df) in
  correlation_rows df names1 names2 0 rank rank matrix.

(** What [check_and_store_parameters] stores on the object. *)
Record parameters : Type := mkParameters {
  self_alias : string;
  self_shape_mode : string;
  self_mpIds : list Z;
  self_multiple_mps : bool
}.

(** [ConcordancePlotMaker.check_and_store_parameters]; the messages end
    with the values found, which are left out here. *)
Definition check_and_store_parameters (df : corr_frame) : result parameters :=
  let mpIds := pd_unique Z.eqb (map mpId df) in
  if (2 <? List.length mpIds)%nat then
    Raise (ValueError "More than 2 map points found in the dataframe")
  else
    let aliases := pd_unique String.eqb (map alias df) in
    if (1 <? List.length aliases)%nat then
      Raise (ValueError "Multiples aliases found in the dataframe")
    else
      let shape_modes := pd_unique String.eqb (map shape_mode df) in
      if (1 <? List.length shape_modes)%nat then
        Raise (ValueError "Multiples shape modes found in the dataframe")
      else
        a <- list_get aliases 0 ;;
        sm <- list_get shape_modes 0 ;;
        Ok (mkParameters a sm mpIds (1 <? List.length mpIds)%nat).

(** [np.tril(m, -1)] and [np.triu(m, 1)]: the entries strictly below and
    strictly above the diagonal, zero elsewhere. *)
Definition mapi2 (f : nat -> nat -> fl -> fl) (m : array2) : array2 :=
  map (fun ir => map (fun jx => f (fst ir) (fst jx) (snd jx))
                     (combine (seq 0 (List.length (snd ir))) (snd ir)))
      (combine (seq 0 (List.length m)) m).

Definition np_tril_below (m : array2) : array2 :=
  mapi2 (fun i j x => if (j <? i)%nat then x else Fin 0) m.

Definition np_triu_above (m : array2) : array2 :=
  mapi2 (fun i j x => if (i <? j)%nat then x else Fin 0) m.

(** Entry by entry, for two arrays of one shape. *)
Definition array2_map2 (f : fl -> fl -> fl) (a b : array2) : array2 :=
  map (fun rows => map (fun xy => f (fst xy) (snd xy))
                       (combine (fst rows) (snd rows)))
      (combine a b).

(** [self.df.loc[self.df.mpId == mpId]] *)
Definition rows_of_map_point (id : Z) (df : corr_frame) : corr_frame :=
  filter (fun r => Z.eqb (mpId r) id) df.

(** [ConcordancePlotMaker.build_correlation_matrix]: the new [self.matrix]. *)
Definition build_correlation_matrix (df : corr_frame) (genes : list string)
    (p : parameters) : result array2 :=
  matrices <- all_ok (map (fun id => get_correlation_matrix
                                       (rows_of_map_point id df) genes)
                          (self_mpIds p)) ;;
  m0 <- list_get matrices 0 ;;
  if self_multiple_mps p then
    m1 <- list_get matrices 1 ;;
    Ok (array2_map2 fl_add (np_tril_below m0) (np_triu_above m1))
  else Ok m0.

(** * [cvapipe_analysis/tools/plotting.py]: the pairwise plot of shape modes

    The data side of [ShapeSpacePlotMaker.plot_pairwise_correlations]: which
    records each panel of the grid draws.  The frame [space.shape_modes] is
    given by its float columns; the matplotlib and scipy calls are left out,
    a panel being recorded with the data handed to them. *)

Definition shape_modes : Type := list (string * list fl).

(** What a panel of the grid is given. *)
Inductive panel : Type :=
| Scatter (xs ys : list fl) (xmin xmax ymin ymax : fl) (* below the diagonal *)
| Annotation (x y : list fl)                           (* above the diagonal *)
| Histogram (xs : list fl).                            (* on the diagonal *)

(** [(y > ry[0]) & (y < ry[1]) & (x > rx[0]) & (x < rx[1])], row by row. *)
Definition valids (y x : list fl) (ry rx : fl * fl) : list bool :=
  map (fun yx => fl_ltb (fst ry) (fst yx) && fl_ltb (fst yx) (snd ry)
                 && fl_ltb (fst rx) (snd yx) && fl_ltb (snd yx) (snd rx))
      (combine y x).

(** One turn of the inner loop, for the panel in row [f1id] and column
    [f2id] of the grid. *)
Definition pairwise_panel (df : shape_modes) (prange : list (fl * fl))
    (f1id f2id : nat) : result panel :=
  y <- list_get (map snd df) f1id ;;
  x <- list_get (map snd df) f2id ;;
  ry <- list_get prange f1id ;;
  rx <- list_get prange f2id ;;
  let v := valids y x ry rx in
  if (f2id <? f1id)%nat then
    xmin <- np_min (mask_select v x) ;;
    xmax <- np_max (mask_select v x) ;;
    ymin <- np_min (mask_select v y) ;;
    ymax <- np_max (mask_select v y) ;;
    Ok (Scatter (mask_select v x) (mask_select v y) xmin xmax ymin ymax)
  else if (f1id <? f2id)%nat then Ok (Annotation x y)
  else Ok (Histogram (mask_select v x)).

(** The panels in the order of the two loops. *)
Definition grid (nf : nat) : list (nat * nat) :=
  flat_map (fun f1id => map (fun f2id => (f1id, f2id)) (seq 0 nf)) (seq 0 nf).

(** [plot_pairwise_correlations(space, off)]: nothing when there are fewer
    than two shape modes, else the panels of the figure it appends. *)
Definition plot_pairwise_correlations (df : shape_modes) (off : Q)
  : result (option (list panel)) :=
  let nf := List.length df in
  if (nf <? 2)%nat then Ok None
  else
    prange <- all_ok (map (fun c => np_percentile2 (FloatCol (snd c)) off) df) ;;
    panels <- all_ok (map (fun ij => pairwise_panel df prange (fst ij) (snd ij))
                          (grid nf)) ;;
    Ok (Some panels).

(** ** Sample data *)

(** Stand-ins for the external routines, to run the code on sample rows: the
    reconstruction is an octahedron whose radius is the first cosine
    coefficient, the intersection is the four corners of the cutting plane,
    and the angle is tabulated for the eight principal directions only. *)
Definition octahedron (r : fl) : Mesh :=
  mkMesh
    [(r, Fin 0, Fin 0); (fl_neg r, Fin 0, Fin 0);
     (Fin 0, r, Fin 0); (Fin 0, fl_neg r, Fin 0);
     (Fin 0, Fin 0, r); (Fin 0, Fin 0, fl_neg r)]
    [(0, 2, 4); (2, 1, 4); (1, 3, 4); (3, 0, 4);
     (2, 0, 5); (1, 2, 5); (3, 1, 5); (0, 3, 5)]%nat.

Definition plane_corners (p : Plane) : list point :=
  let '(ox, oy, oz) := plane_origin p in
  let '(ax, ay, az) := plane_point1 p in
  let '(bx, by_, bz) := plane_point2 p in
  [plane_origin p; plane_point1 p;
   (fl_sub (fl_add ax bx) ox, fl_sub (fl_add ay by_) oy, fl_sub (fl_add az bz) oz);
   plane_point2 p].

Definition principal_degrees (y x : fl) : fl :=
  match y, x with
  | Fin y, Fin x =>
      if Qeq_bool y 0 then
        if Qltb 0 x then Fin 0 else if Qltb x 0 then Fin 180 else Fin 0
      else if Qeq_bool x 0 then
        if Qltb 0 y then Fin 90 else Fin (-90)
      else if Qeq_bool y x then
        if Qltb 0 x then Fin 45 else Fin (-135)
      else if Qeq_bool y (- x) then
        if Qltb 0 x then Fin (-45) else Fin 135
      else NaN
  | _, _ => NaN
  end.

Definition sample_geometry : Geometry := {|
  get_reconstruction_from_coeffs :=
    fun coeffs =>
      octahedron (match get3 0 0 0 coeffs with Some r => r | None => NaN end);
  intersection_points := fun _ plane => plane_corners plane;
  degrees_atan2 := principal_degrees
|}.

(** A frame with one numeric feature. *)
Definition sample_frame : DataFrame :=
  mkDataFrame [10; 11; 12; 13; 14]%Z
    [("a", FloatCol [Fin 1; Fin 2; Fin 3; Fin 4; Fin 100]);
     ("structure_name", StrCol ["x"; "y"; "x"; "y"; "x"])].


(** The numbers 0, 1, ..., 100, each in the record of that label. *)
Definition hundred : DataFrame :=
  mkDataFrame (map Z.of_nat (seq 0 101))
    [("a", FloatCol (map (fun i => fl_of_Z (Z.of_nat i)) (seq 0 101)))].

(** Five cells, one of them two standard deviations above the mean. *)
Definition frame_with_outlier : DataFrame :=
  mkDataFrame [10; 11; 12; 13; 14]%Z
    [("pc", FloatCol [Fin 4; Fin (-1); Fin (-1); Fin (-1); Fin (-1)]);
     ("structure_name", StrCol ["x"; "y"; "x"; "y"; "x"])].

(** Four raw intersection points with four different third coordinates. *)
Definition sample_raw : list point :=
  [(Fin 1, Fin 0, Fin 5); (Fin 0, Fin 1, Fin 7);
   (Fin (-1), Fin 0, Fin 9); (Fin 0, Fin (-1), Fin 11)].

(** The z-scores of the feature of [frame_with_outlier], which are binary
    floats: the mean is 0 and the standard deviation is 2. *)
Definition outlier_zscores : list PrimFloat.float :=
  [2%float; (-0.5)%float; (-0.5)%float; (-0.5)%float; (-0.5)%float].

Definition outlier_zscores_exact : list fl :=
  [Fin 2; Fin (-1 # 2); Fin (-1 # 2); Fin (-1 # 2); Fin (-1 # 2)].

(** A row with the coefficients of degrees 0 and 1, named as in the
    manifests. *)
Definition sample_row : Series :=
  [("mem_shcoeffs_L0M0C_lcc", CFloat (Fin 3));
   ("mem_shcoeffs_L0M0S_lcc", CFloat (Fin 0));
   ("mem_shcoeffs_L1M1C_lcc", CFloat (Fin (1 # 2)));
   ("mem_shcoeffs_L1M1S_lcc", CFloat (Fin 2));
   ("dna_shcoeffs_L0M0C_lcc", CFloat (Fin 1));
   ("dna_shcoeffs_L0M0S_lcc", CFloat (Fin 0))].


(** Per-bin coefficients of two bins.  With the stand-in reconstruction the
    mesh of bin 1 has radius 0, so every coordinate along every axis is zero;
    the mesh of bin 2 has radius 3. *)
Definition two_bins : DataFrame :=
  mkDataFrame [1; 2]%Z
    [("mem_shcoeffs_L0M0C_lcc", FloatCol [Fin 0; Fin 3]);
     ("mem_shcoeffs_L0M0S_lcc", FloatCol [Fin 0; Fin 0]);
     ("mem_shcoeffs_L1M1C_lcc", FloatCol [Fin (1 # 2); Fin (1 # 2)]);
     ("mem_shcoeffs_L1M1S_lcc", FloatCol [Fin 0; Fin 0]);
     ("dna_shcoeffs_L0M0C_lcc", FloatCol [Fin 1; Fin 1]);
     ("dna_shcoeffs_L0M0S_lcc", FloatCol [Fin 0; Fin 0])].

(** The same frame without bin 1. *)
Definition second_bin_only : DataFrame :=
  select_rows [false; true] two_bins.

(** Per-bin coefficients of two bins whose meshes have radius 2 and 3. *)
Definition round_bins : DataFrame :=
  mkDataFrame [1; 2]%Z
    [("mem_shcoeffs_L0M0C_lcc", FloatCol [Fin 2; Fin 3]);
     ("mem_shcoeffs_L0M0S_lcc", FloatCol [Fin 0; Fin 0]);
     ("dna_shcoeffs_L0M0C_lcc", FloatCol [Fin 1; Fin 1]);
     ("dna_shcoeffs_L0M0S_lcc", FloatCol [Fin 0; Fin 0])].

Definition sample_trig : Trig := {|
  np_pi := Fin (355 # 113);
  np_cos := fun a => if fl_is_zero a then Fin 1 else NaN;
  np_sin := fun a => if fl_is_zero a then Fin 0 else NaN
|}.

(** Three cells with their nuclear and cell centroids; the alignment angle
    is 0, where the stand-in trigonometry is exact. *)
Definition sample_cells : DataFrame :=
  mkDataFrame [10; 11; 12]%Z
    [("dna_position_x_centroid_lcc", FloatCol [Fin 5; Fin 7; Fin 1]);
     ("dna_position_y_centroid_lcc", FloatCol [Fin 3; Fin 3; Fin 1]);
     ("dna_position_z_centroid_lcc", FloatCol [Fin 2; Fin 4; Fin 1]);
     ("mem_shcoeffs_transform_angle_lcc", FloatCol [Fin 0; Fin 0; Fin 0]);
     ("mem_position_x_centroid_lcc", FloatCol [Fin 4; Fin 4; Fin 0]);
     ("mem_position_y_centroid_lcc", FloatCol [Fin 1; Fin 1; Fin 0]);
     ("mem_position_z_centroid_lcc", FloatCol [Fin 1; Fin 1; Fin 0])].

(** The correlations of two structures at one map point, and the same frame
    without the row of the pair (B, A). *)
Definition sample_correlations : corr_frame :=
  [mkCorrRow 0 "A" "A" (Fin 1) 1 "NUC" "PC1";
   mkCorrRow 1 "A" "B" (Fin (1 # 2)) 1 "NUC" "PC1";
   mkCorrRow 2 "B" "A" (Fin (1 # 4)) 1 "NUC" "PC1";
   mkCorrRow 3 "B" "B" (Fin 1) 1 "NUC" "PC1"].

Definition incomplete_correlations : corr_frame :=
  [mkCorrRow 0 "A" "A" (Fin 1) 1 "NUC" "PC1";
   mkCorrRow 1 "A" "B" (Fin (1 # 2)) 1 "NUC" "PC1";
   mkCorrRow 3 "B" "B" (Fin 1) 1 "NUC" "PC1"].

(** The correlations of the two structures at two map points. *)
Definition two_map_points : corr_frame :=
  sample_correlations
  ++ [mkCorrRow 4 "A" "A" (Fin 1) 2 "NUC" "PC1";
      mkCorrRow 5 "A" "B" (Fin (3 # 4)) 2 "NUC" "PC1";
      mkCorrRow 6 "B" "A" (Fin (1 # 8)) 2 "NUC" "PC1";
      mkCorrRow 7 "B" "B" (Fin 1) 2 "NUC" "PC1"].


(** Four records with two shape modes, and three records whose second shape
    mode does not vary. *)
Definition sample_shape_modes : shape_modes :=
  [("PC1", [Fin 1; Fin 2; Fin 3; Fin 4]);
   ("PC2", [Fin 4; Fin 1; Fin 3; Fin 2])].

Definition flat_shape_mode : shape_modes :=
  [("PC1", [Fin 1; Fin 2; Fin 3]);
   ("PC2", [Fin 5; Fin 5; Fin 5])].

(** ** Notions used in the statements *)


(** The filter's temporary column, holding [flags], on the frame [df]. *)
Definition scratch (flags : list bool) (df : DataFrame) : DataFrame :=
  set_column extreme (BoolCol flags) df.

(** A column of numbers: float64 or int64. *)
Definition numeric (c : column) : Prop :=
  match c with
  | FloatCol _ | IntCol _ => True
  | _ => False
  end.

(** A feature the filter can read: a column of numbers of the frame. *)
Definition readable (f : string) (df : DataFrame) : Prop :=
  exists c, lookup f (columns df) = Some c /\ numeric c.


(** numpy accepts [pct] and [100 - pct] as percentages: divided by 100, in
    binary64, both lie in [0, 1]. *)
Definition accepted (pct : Q) : Prop :=
  valid_quantile (div64 (Fin pct) (Fin 100)) = true
  /\ valid_quantile (div64 (sub64 (Fin 100) (Fin pct)) (Fin 100)) = true.

(** A binary64 number, or one of the special values. *)
Definition binary64 (a : fl) : Prop :=
  match a with
  | Fin q => exists q', round64 q = Fin q' /\ q' == q
  | _ => True
  end.

(** *** The percentile filter, in the words of its contract *)

(** The lower and upper percentile cutoffs of a feature, over the frame as
    it is given. *)
Definition cutoffs (df : DataFrame) (f : string) (pct : Q) : result (fl * fl) :=
  c <- get_column f df ;; np_percentile2 c pct.

(** A value strictly below the lower or strictly above the upper cutoff. *)
Definition outside (lo hi x : fl) : bool := fl_ltb x lo || fl_ltb hi x.

(** Row [i] is extreme on feature [f]. *)
Definition extreme_on (df : DataFrame) (pct : Q) (i : nat) (f : string) : bool :=
  match cutoffs df f pct, (c <- get_column f df ;; as_float64s c) with
  | Ok (lo, hi), Ok v => outside lo hi (nth i v NaN)
  | _, _ => false
  end.



(** Two exact floats that are the same number. *)
Definition fl_same (a b : fl) : Prop :=
  match a, b with
  | NaN, NaN | NInf, NInf | PInf, PInf => True
  | Fin x, Fin y => x == y
  | _, _ => False
  end.

(** *** The coefficient matrix, in the words of its contract *)

(** [pat in key] *)
Definition occurs_in (pat key : string) : Prop :=
  exists before after, key = String.append before (String.append pat after).

(** The number a cell stands for once numpy has stored it in a float32
    array; text stands for the number that Python's [float] reads in it. *)
Inductive stands_for : cell -> fl -> Prop :=
| float_cell (x : fl) : stands_for (CFloat x) (np_float32 x)
| int_cell (z : Z) (q : Q) :
    np_float64 (fl_of_Z z) = Fin q -> stands_for (CInt z) (np_float32 (Fin q))
| bool_cell (b : bool) : stands_for (CBool b) (if b then Fin 1 else Fin 0)
| text_cell (s : string) (x : fl) :
    python_float s = Some x -> stands_for (CStr s) (np_float32 x).

(** The pattern selects the coefficient [x] of the row: exactly one key of
    the row contains the pattern, and its cell stands for [x]. *)
Definition selects (row : Series) (pat : string) (x : fl) : Prop :=
  exists before key c after,
    row = before ++ (key, c) :: after
    /\ occurs_in pat key
    /\ (forall kv, In kv (before ++ after) -> ~ occurs_in pat (fst kv))
    /\ stands_for c x.


(** The results of the rows, in the three lists the driver returns. *)
Definition collect (acc : reconstructions)
    (outs : list (list point * Mesh * list fl)) : reconstructions :=
  let '(contours, meshes, limits) := acc in
  (contours ++ map (fun o => fst (fst o)) outs,
   meshes ++ map (fun o => snd (fst o)) outs,
   limits ++ map snd outs).


(** *** The cells of a bin *)


(** *** Cells by row label *)






(** *** The bins in exact arithmetic *)

(** The step between the centers, the half width of a bin and the centers,
    as the exact floats come out of the code. *)
Definition bin_step (nbins : Z) : Q :=
  (inject_Z 2 + - inject_Z (-2)) / inject_Z (nbins - 1).

Definition bin_width (nbins : Z) : Q :=
  (inject_Z 2 + - inject_Z (-2)) / inject_Z (2 * (nbins - 1)).

Definition center_value (nbins : Z) (i : nat) : Q :=
  inject_Z (Z.of_nat i) * bin_step nbins + inject_Z (-2).

(** [[(b - binw, b + binw) for b in bin_centers]], flattened. *)
Definition edge_pairs (w : Q) (qs : list Q) : list fl :=
  flat_map (fun q => [Fin (q + - w); Fin (q + w)]) qs.

(** Neighbouring centers share an edge: the upper edge of one is the lower
    edge of the next. *)
Fixpoint chain (w : Q) (qs : list Q) : Prop :=
  match qs with
  | q :: ((q' :: _) as tl) => q + w == q' + - w /\ chain w tl
  | _ => True
  end.

(** A list in the order numpy sorts by. *)
Fixpoint ascending (l : list fl) : Prop :=
  match l with
  | x :: ((y :: _) as tl) => sort_leb x y = true /\ ascending tl
  | _ => True
  end.

(** *** Lists of numbers in order *)

(** A list without nan. *)
Definition no_nan (l : list fl) : Prop := Forall (fun x => fl_is_nan x = false) l.

(** The first element is not after any other, each next one likewise. *)
Fixpoint in_order (l : list fl) : Prop :=
  match l with
  | [] => True
  | x :: l' => Forall (fun y => fl_leb x y = true) l' /\ in_order l'
  end.

(** *** The matrix of correlations, in the words of its contract *)

(** The first row of the frame for a pair of structures. *)
Definition first_pair (name1 name2 : string) (df : corr_frame) : option corr_row :=
  find (fun r => String.eqb (structure1 r) name1 && String.eqb (structure2 r) name2)
       df.

(** The pair is looked up: both names occur in the frame, the one as a
    first and the other as a second structure. *)
Definition looked_up (df : corr_frame) (name1 name2 : string) : Prop :=
  In name1 (map structure1 df) /\ In name2 (map structure2 df).

(** What one turn of the loops finds for a pair: nothing to store, a
    correlation, or no row to take it from. *)
Definition pair_value (df : corr_frame) (name1 name2 : string)
  : result (option fl) :=
  if existsb (String.eqb name1) (map structure1 df)
     && existsb (String.eqb name2) (map structure2 df) then
    match first_pair name1 name2 df with
    | Some r => Ok (Some (Pearson r))
    | None => Raise IndexError
    end
  else Ok None.

(** The slot that held [old], after the turn for the pair. *)
Definition stored (v : result (option fl)) (old : option fl) : option fl :=
  match old, v with
  | Some _, Ok (Some x) => Some x
  | _, _ => old
  end.

(** *** Columns of binary64 numbers *)

(** A column whose numbers are binary64 numbers, as those of a float64
    column are, or integers that binary64 holds exactly, as those of an
    int64 column are up to 2^53. *)
Definition binary64_column (c : column) : Prop :=
  match c with
  | FloatCol v => Forall binary64 v
  | IntCol v => Forall (fun z => binary64 (fl_of_Z z)) v
  | _ => True
  end.

Definition holds_binary64 (f : string) (df : DataFrame) : Prop :=
  forall c, lookup f (columns df) = Some c -> binary64_column c.

(** *** Columns that numpy stores as float32 *)

(** A cell of an object column that [float] accepts: any number that
    binary64 can hold, and text that reads as a number. *)
Definition reads_as_number (c : cell) : Prop :=
  match c with
  | CFloat _ | CBool _ => True
  | CInt z => exists q, np_float64 (fl_of_Z z) = Fin q
  | CStr s => python_float s <> None
  end.

(** A column of numbers or of booleans, or one of text or objects whose
    every cell reads as a number. *)
Definition converts (c : column) : Prop :=
  match c with
  | FloatCol _ | IntCol _ | BoolCol _ => True
  | StrCol v => Forall (fun s => python_float s <> None) v
  | ObjCol v => Forall reads_as_number v
  end.

(** The feature is a column of the frame that converts. *)
Definition feature_converts (f : string) (df : DataFrame) : Prop :=
  exists c, lookup f (columns df) = Some c /\ converts c.

(** *** Order of first appearance *)

(** [keys] are the values of [l], each once, and a key listed before
    another occurs in [l] before the other does. *)
Definition in_order_of_appearance {A : Type} (keys l : list A) : Prop :=
  NoDup keys
  /\ (forall b, In b keys <-> In b l)
  /\ forall k1 b1 k2 b2 k3,
       keys = k1 ++ b1 :: k2 ++ b2 :: k3 ->
       exists before after, l = before ++ b1 :: after /\ ~ In b2 before.

(** *** Features with missing values *)


(** *** The frame of per-bin means, with the offsets *)

(** A frame with the same rows whose columns other than the three offsets
    are as before. *)
Definition same_but_offsets (df df' : DataFrame) : Prop :=
  index df' = index df
  /\ (forall name,
        ~ In name ["dna_dxc"; "dna_dyc"; "dna_dzc"] ->
        lookup name (columns df') = lookup name (columns df))
  /\ forall p : string -> bool,
       p "dna_dxc" = false -> p "dna_dyc" = false -> p "dna_dzc" = false ->
       filter (fun nc => p (fst nc)) (columns df')
       = filter (fun nc => p (fst nc)) (columns df).

(** Two results of the loop over the projections that differ in the saved
    meshes of the nucleus at most. *)
Definition same_plots (p q : projections) : Prop :=
  all_mem_contours p = all_mem_contours q
  /\ all_dna_contours p = all_dna_contours q
  /\ hlimits p = hlimits q
  /\ vlimits p = vlimits q
  /\ Forall2 (fun s t => fst s = fst t
                         /\ (fst (fst s) = "MEM" -> snd s = snd t))
             (saved_meshes p) (saved_meshes q).

(** *** The pairwise plot *)

(** A value strictly between two values of a column. *)
Definition strictly_inside (col : list fl) (a : fl) : Prop :=
  exists lo hi, In lo col /\ In hi col /\ fl_ltb lo a = true /\ fl_ltb a hi = true.

(** The panel at the position [(f1id, f2id)] of the grid is of the kind
    of that position, and the values it draws lie strictly inside the
    shape modes they are taken from: the horizontal ones inside the shape
    mode of the column, the vertical ones inside that of the row. *)
Definition leaves_out_extremes (df : shape_modes) (position : nat * nat)
    (p : panel) : Prop :=
  exists namey y namex x,
    nth_error df (fst position) = Some (namey, y)
    /\ nth_error df (snd position) = Some (namex, x)
    /\ match p with
       | Scatter xs ys _ _ _ _ =>
           (snd position < fst position)%nat
           /\ Forall (strictly_inside x) xs /\ Forall (strictly_inside y) ys
       | Annotation _ _ => (fst position < snd position)%nat
       | Histogram xs =>
           fst position = snd position /\ Forall (strictly_inside x) xs
       end.

(** * Properties *)

(** ** Exact floats *)

(** *** Rounding *)

Lemma round_to_Qeq prec emin emax (x y : Q) :
  x == y -> round_to prec emin emax x = round_to prec emin emax y.
Proof.
  intros E. unfold round_to. rewrite (Qred_complete _ _ E). reflexivity.
Qed.

Lemma round_half_even_le (n d k : Z) :
  (0 < d)%Z -> (n <= k * d)%Z -> (round_half_even n d <= k)%Z.
Proof.
  intros Hd Hn. unfold round_half_even.
  pose proof (Z.div_mod n d ltac:(lia)) as E.
  pose proof (Z.mod_pos_bound n d Hd) as B.
  assert (Hq : (n / d <= k)%Z) by (apply Z.div_le_upper_bound; lia).
  destruct (Z.eq_dec (n / d) k) as [Ek | Nk].
  - assert (R : (n mod d = 0)%Z) by nia.
    assert (C : (2 * (n mod d) ?= d)%Z = Lt) by (apply Z.compare_lt_iff; lia).
    rewrite C. lia.
  - destruct (2 * (n mod d) ?= d)%Z; [destruct (Z.even (n / d))| |]; lia.
Qed.

Lemma round_half_even_nonneg (n d : Z) :
  (0 <= n)%Z -> (0 < d)%Z -> (0 <= round_half_even n d)%Z.
Proof.
  intros Hn Hd. unfold round_half_even.
  assert (0 <= n / d)%Z by (apply Z.div_pos; lia).
  destruct (2 * (n mod d) ?= d)%Z; [destruct (Z.even (n / d))| |]; lia.
Qed.

Lemma round_half_even_exact (k d : Z) :
  (0 < d)%Z -> round_half_even (k * d) d = k.
Proof.
  intros Hd. unfold round_half_even.
  rewrite Z.div_mul by lia. rewrite Z.mod_mul by lia.
  assert (C : (2 * 0 ?= d)%Z = Lt) by (apply Z.compare_lt_iff; lia).
  rewrite C. reflexivity.
Qed.

Lemma down_pos (e : Z) : (0 < down e)%Z.
Proof. unfold down. apply Z.pow_pos_nonneg; lia. Qed.

Lemma up_nonpos (e : Z) : (e <= 0)%Z -> up e = 1%Z.
Proof. intros H. unfold up. rewrite Z.max_r by lia. reflexivity. Qed.

Lemma down_nonneg (e : Z) : (0 <= e)%Z -> down e = 1%Z.
Proof. intros H. unfold down. rewrite Z.max_r by lia. reflexivity. Qed.

Lemma floor_log2_le (n d : Z) :
  (floor_log2 n d <= Z.log2 n - Z.log2 d)%Z.
Proof. unfold floor_log2. destruct (_ <=? _)%Z; lia. Qed.

(** A positive fraction up to a small integer [k] is rounded to a number up
    to [k]. *)
Lemma round_positive_le prec emin emax (n d k : Z) :
  (0 < n)%Z -> (0 < d)%Z -> (n <= k * d)%Z ->
  (Z.log2 k + 2 <= prec)%Z -> (emin <= 0)%Z -> (k < 2 ^ emax)%Z ->
  exists v, round_positive prec emin emax n d = Fin v /\ 0 <= v /\ v <= inject_Z k.
Proof.
  intros Hn Hd Hk Hprec Hemin Hemax.
  assert (Hkpos : (0 < k)%Z) by nia.
  unfold round_positive.
  set (p := Z.max (floor_log2 n d - prec + 1) emin).
  assert (Hp : (p <= 0)%Z).
  { unfold p. apply Z.max_lub; [|exact Hemin].
    pose proof (floor_log2_le n d).
    assert (Z.log2 n <= Z.log2 (k * d))%Z by (apply Z.log2_le_mono; lia).
    pose proof (Z.log2_mul_above k d ltac:(lia) ltac:(lia)).
    lia. }
  rewrite (up_nonpos p Hp), !Z.mul_1_r.
  pose proof (down_pos p) as Hdn.
  set (m := round_half_even (n * down p) d).
  assert (Hm : (m <= k * down p)%Z).
  { apply round_half_even_le; [exact Hd|]. nia. }
  assert (Hm0 : (0 <= m)%Z) by (apply round_half_even_nonneg; nia).
  assert (Hov : (2 ^ emax * down p <=? m)%Z = false).
  { apply Z.leb_gt. nia. }
  rewrite Hov. eexists. split; [reflexivity|].
  rewrite Qred_correct. unfold Qle, inject_Z. cbn [Qnum Qden].
  rewrite Z2Pos.id by exact Hdn. split; nia.
Qed.

Lemma round_to_between prec emin emax (x : Q) (k : Z) :
  0 <= x -> x <= inject_Z k ->
  (Z.log2 k + 2 <= prec)%Z -> (emin <= 0)%Z -> (k < 2 ^ emax)%Z ->
  exists v, round_to prec emin emax x = Fin v /\ 0 <= v /\ v <= inject_Z k.
Proof.
  intros H0 Hk Hprec Hemin Hemax.
  pose proof (Qred_correct x) as E. unfold round_to.
  destruct (Qred x) as [n d]. destruct n as [|n|n].
  - exists 0. split; [reflexivity|]. split; [apply Qle_refl|].
    apply Qle_trans with x; assumption.
  - assert (Hn : (Zpos n <= k * Zpos d)%Z).
    { rewrite <- E in Hk. unfold Qle, inject_Z in Hk. simpl in Hk. lia. }
    apply round_positive_le; try assumption; reflexivity.
  - exfalso. rewrite <- E in H0. unfold Qle in H0. simpl in H0. lia.
Qed.

Lemma Qred_inject_Z (k : Z) : Qred (inject_Z k) = inject_Z k.
Proof.
  unfold Qred, inject_Z.
  pose proof (Z.ggcd_gcd k 1) as G. pose proof (Z.ggcd_correct_divisors k 1) as D.
  destruct (Z.ggcd k 1) as [g [a b]]. simpl in G, D.
  rewrite Z.gcd_1_r in G. subst g. destruct D as [Da Db].
  rewrite !Z.mul_1_l in *. subst a b. reflexivity.
Qed.

(** A small integer is a number of the format. *)
Lemma round_to_integer prec emin emax (k : Z) :
  (0 <= k < 2 ^ prec)%Z -> (0 < prec)%Z -> (emin <= 0)%Z -> (prec <= emax)%Z ->
  exists v, round_to prec emin emax (inject_Z k) = Fin v /\ v == inject_Z k.
Proof.
  intros Hk Hprec Hemin Hemax. unfold round_to.
  rewrite Qred_inject_Z.
  unfold inject_Z. destruct k as [|k|k]; [| |lia].
  - exists 0. split; [reflexivity|reflexivity].
  - unfold round_positive.
    assert (Hlog : (0 <= Z.log2 (Zpos k) < prec)%Z).
    { split; [apply Z.log2_nonneg|]. apply Z.log2_lt_pow2; lia. }
    assert (Hfl : floor_log2 (Zpos k) 1 = Z.log2 (Zpos k)).
    { unfold floor_log2. change (Z.log2 1) with 0%Z. rewrite Z.sub_0_r.
      rewrite (down_nonneg _ (proj1 Hlog)). unfold up.
      rewrite Z.max_l by lia.
      pose proof (Z.log2_spec (Zpos k) ltac:(lia)) as S.
      replace (1 * 2 ^ Z.log2 (Zpos k) <=? Zpos k * 1)%Z with true; [reflexivity|].
      symmetry. apply Z.leb_le. lia. }
    rewrite Hfl.
    set (p := Z.max (Z.log2 (Zpos k) - prec + 1) emin).
    assert (Hp : (p <= 0)%Z) by (unfold p; lia).
    rewrite (up_nonpos p Hp), !Z.mul_1_r.
    pose proof (down_pos p) as Hdn.
    replace (round_half_even (Zpos k * down p) 1) with (Zpos k * down p)%Z
      by (rewrite <- (Z.mul_1_r (Zpos k * down p)) at 2;
          rewrite round_half_even_exact by lia; reflexivity).
    assert (Hov : (2 ^ emax * down p <=? Zpos k * down p)%Z = false).
    { apply Z.leb_gt. apply Z.mul_lt_mono_pos_r; [exact Hdn|].
      apply Z.lt_le_trans with (2 ^ prec)%Z; [lia|].
      apply Z.pow_le_mono_r; lia. }
    rewrite Hov. eexists. split; [reflexivity|].
    rewrite Qred_correct. unfold Qeq. cbn [Qnum Qden].
    rewrite Z2Pos.id by exact Hdn. ring.
Qed.

(** *** Exact floats *)

Lemma Qltb_lt (x y : Q) : Qltb x y = true <-> x < y.
Proof.
  unfold Qltb. rewrite negb_true_iff.
  split; intro H.
  - apply Qnot_le_lt. intro Hle. apply Qle_bool_iff in Hle. congruence.
  - destruct (Qle_bool y x) eqn:E; [|reflexivity].
    apply Qle_bool_iff in E. apply Qle_not_lt in E. contradiction.
Qed.

Lemma fl_is_zero_Fin (q : Q) : fl_is_zero (Fin q) = true <-> q == 0.
Proof. unfold fl_is_zero; simpl. apply Qeq_bool_iff. Qed.






(** ** The plane/mesh intersector *)






Section Sorting.
Context {geometry : Geometry}.

Lemma insert_by_key_perm (key : fl * fl -> fl) (x : fl * fl) (l : list (fl * fl)) :
  Permutation (insert_by_key key x l) (x :: l).
Proof.
  induction l as [|y l IH]; simpl; [reflexivity|].
  destruct (fl_ltb (key y) (key x)); [|reflexivity].
  rewrite IH. apply perm_swap.
Qed.

Lemma sorted_by_key_perm (key : fl * fl -> fl) (l : list (fl * fl)) :
  Permutation (sorted_by_key key l) l.
Proof.
  induction l as [|x l IH]; simpl; [reflexivity|].
  rewrite insert_by_key_perm. constructor. exact IH.
Qed.

Lemma store_coords_columns (proj : nat * nat) (ax : nat) :
  In proj [(0, 1); (0, 2); (1, 2)]%nat ->
  orthogonal_axis proj = Ok ax ->
  forall (points : list point) (coords : list (fl * fl)),
    List.length coords = List.length points ->
    map (fun p => (coord (fst proj) p, coord (snd proj) p))
        (store_coords proj points coords) = coords
    /\ map (coord ax) (store_coords proj points coords) = map (coord ax) points.
Proof.
  intros Hproj Hax.
  assert (Hpt : forall (p : point) (c : fl * fl),
             (coord (fst proj) (set_coord (snd proj) (snd c) (set_coord (fst proj) (fst c) p)),
              coord (snd proj) (set_coord (snd proj) (snd c) (set_coord (fst proj) (fst c) p))) = c
             /\ coord ax (set_coord (snd proj) (snd c) (set_coord (fst proj) (fst c) p)) = coord ax p).
  { intros [[x y] z] [a b].
    simpl in Hproj.
    destruct Hproj as [<-|[<-|[<-|[]]]]; inversion Hax; subst; simpl; auto. }
  unfold store_coords.
  induction points as [|p points IH]; intros [|c coords] Hlen; simpl in *;
    try discriminate; auto.
  injection Hlen as Hlen. destruct (IH coords Hlen) as [IH1 IH2].
  destruct (Hpt p c) as [H1 H2].
  split; f_equal; auto.
Qed.
End Sorting.


Lemma combine_columns (a b : nat) (points : list point) :
  combine (map (coord a) points) (map (coord b) points)
  = map (fun p => (coord a p, coord b p)) points.
Proof. induction points as [|p l IH]; simpl; [|rewrite IH]; reflexivity. Qed.

Lemma sort_clockwise_columns `{Geometry} (proj : nat * nat) (ax : nat)
    (raw pts : list point) :
  In proj [(0, 1); (0, 2); (1, 2)]%nat ->
  orthogonal_axis proj = Ok ax ->
  sort_clockwise proj raw = Ok pts ->
  map (coord ax) pts = map (coord ax) raw
  /\ Permutation (map (fun p => (coord (fst proj) p, coord (snd proj) p)) pts)
                 (map (fun p => (coord (fst proj) p, coord (snd proj) p)) raw).
Proof.
  intros Hproj Hax. unfold sort_clockwise, points_column.
  assert (Hlt : (fst proj <? 3)%nat = true /\ (snd proj <? 3)%nat = true).
  { simpl in Hproj. destruct Hproj as [<-|[<-|[<-|[]]]]; split; reflexivity. }
  destruct Hlt as [-> ->]. simpl. rewrite combine_columns.
  destruct (coords_center _) as [center|e]; simpl; [|discriminate].
  intro Hok. injection Hok as <-.
  set (coords := map (fun p => (coord (fst proj) p, coord (snd proj) p)) raw).
  set (sorted := sorted_by_key (clockwise_key center) coords).
  assert (Hperm : Permutation sorted coords) by apply sorted_by_key_perm.
  assert (Hlen : List.length sorted = List.length raw).
  { rewrite (Permutation_length Hperm). unfold coords. apply length_map. }
  destruct (store_coords_columns proj ax Hproj Hax raw sorted Hlen) as [H1 H2].
  split; [exact H2 | rewrite H1; exact Hperm].
Qed.

(** C10.  Whenever [find_plane_mesh_intersection] returns, the column of the
    axis orthogonal to the projection is that of the raw intersection points,
    row for row, and the projected 2D points are a permutation of the raw
    ones: the clockwise sort moves the two projected columns only.  A row of
    the result can therefore pair the in-plane coordinates of one raw point
    with the orthogonal coordinate of another, as on [sample_raw], whose first
    output row is none of the raw points. *)
Theorem clockwise_sort_moves_only_projected_columns `{Geometry}
    (proj : nat * nat) (mesh : Mesh) (pts : list point) :
  In proj [(0, 1); (0, 2); (1, 2)]%nat ->
  snd (find_plane_mesh_intersection proj mesh) = Ok pts ->
  (exists (ax : nat) (plane : Plane),
      orthogonal_axis proj = Ok ax
      /\ fst (find_plane_mesh_intersection proj mesh)
         = [PlaneSource plane; TriangleFilter; IntersectionPolyDataFilter]
      /\ let raw := intersection_points mesh plane in
         map (coord ax) pts = map (coord ax) raw
         /\ Permutation
              (map (fun p => (coord (fst proj) p, coord (snd proj) p)) pts)
              (map (fun p => (coord (fst proj) p, coord (snd proj) p)) raw))
  /\ (exists out : list point,
        sort_clockwise (geometry := sample_geometry) (0, 1)%nat sample_raw = Ok out
        /\ map (coord 2) out = map (coord 2) sample_raw
        /\ exists p, nth_error out 0 = Some p /\ ~ In p sample_raw).
Proof.
  intros Hproj Hres. split.
  - unfold find_plane_mesh_intersection in *.
    destruct (orthogonal_axis proj) as [ax|e] eqn:Hax; [|discriminate].
    destruct (fl_is_zero _); [discriminate|].
    destruct (cutting_plane ax (mesh_points mesh)) as [plane|e]; [|discriminate].
    simpl in *. exists ax, plane. split; [reflexivity|]. split; [reflexivity|].
    apply (sort_clockwise_columns proj ax _ pts Hproj Hax Hres).
  - eexists. split; [vm_compute; reflexivity|]. split; [reflexivity|].
    eexists. split; [reflexivity|].
    simpl. intros [E|[E|[E|[E|[]]]]]; discriminate.
Qed.

Lemma clockwise_sort_witness :
  exists pts,
    snd (find_plane_mesh_intersection (geometry := sample_geometry)
           (0, 1)%nat (octahedron (Fin 1))) = Ok pts
    /\ exists (ax : nat) (plane : Plane),
         orthogonal_axis (0, 1)%nat = Ok ax
         /\ fst (find_plane_mesh_intersection (geometry := sample_geometry)
                   (0, 1)%nat (octahedron (Fin 1)))
            = [PlaneSource plane; TriangleFilter; IntersectionPolyDataFilter]
         /\ map (coord ax) pts
            = map (coord ax)
                  (@intersection_points sample_geometry (octahedron (Fin 1)) plane).
Proof.
  eexists. split; [vm_compute; reflexivity|].
  destruct (clockwise_sort_moves_only_projected_columns
              (H := sample_geometry) (0, 1)%nat (octahedron (Fin 1)) _
              (or_introl eq_refl) eq_refl)
    as [(ax & plane & Hax & Htrace & Hcol & _) _].
  exists ax, plane. split; [exact Hax|]. split; [exact Htrace | exact Hcol].
Defined.

(** ** The percentile filter *)

Lemma lookup_assign_same {A : Type} (n : string) (a : A) (l : list (string * A)) :
  lookup n (assign n a l) = Some a.
Proof.
  induction l as [|[m b] l IH]; simpl.
  - rewrite String.eqb_refl. reflexivity.
  - destruct (String.eqb n m) eqn:E; simpl; rewrite E; [reflexivity | exact IH].
Qed.

Lemma lookup_assign_other {A : Type} (n m : string) (a : A) (l : list (string * A)) :
  n <> m -> lookup m (assign n a l) = lookup m l.
Proof.
  intro Hne. induction l as [|[k b] l IH]; simpl.
  - apply String.eqb_neq in Hne. rewrite String.eqb_sym, Hne. reflexivity.
  - destruct (String.eqb n k) eqn:E; simpl.
    + apply String.eqb_eq in E. subst k.
      assert (String.eqb m n = false) as -> by (apply String.eqb_neq; congruence).
      reflexivity.
    + rewrite IH. reflexivity.
Qed.

Lemma assign_assign {A : Type} (n : string) (a b : A) (l : list (string * A)) :
  assign n a (assign n b l) = assign n a l.
Proof.
  induction l as [|[k c] l IH]; simpl.
  - rewrite String.eqb_refl. reflexivity.
  - destruct (String.eqb n k) eqn:E; simpl; rewrite E; [reflexivity|].
    rewrite IH. reflexivity.
Qed.

Lemma index_scratch flags df : index (scratch flags df) = index df.
Proof. reflexivity. Qed.

Lemma scratch_scratch flags flags' df :
  scratch flags (scratch flags' df) = scratch flags df.
Proof. unfold scratch, set_column; simpl. rewrite assign_assign. reflexivity. Qed.

Lemma lookup_scratch_extreme flags df :
  lookup extreme (columns (scratch flags df)) = Some (BoolCol flags).
Proof. apply lookup_assign_same. Qed.

Lemma lookup_scratch_other f flags df :
  f <> extreme -> lookup f (columns (scratch flags df)) = lookup f (columns df).
Proof. intro H. apply lookup_assign_other. congruence. Qed.

Lemma flag_where_scratch mask flags df :
  flag_where mask (scratch flags df) = scratch (set_true_where mask flags) df.
Proof.
  unfold flag_where. rewrite lookup_scratch_extreme.
  fold (scratch (set_true_where mask flags) (scratch flags df)).
  apply scratch_scratch.
Qed.

Lemma set_true_where_length mask flags :
  List.length (set_true_where mask flags) = List.length flags.
Proof.
  revert flags. induction mask as [|m mask IH]; intros [|b flags]; simpl; auto.
Qed.

(** The loop over the features works on the temporary column only. *)
Lemma flag_feature_scratch f pct flags df :
  exists flags',
    fst (flag_feature f pct (scratch flags df)) = scratch flags' df
    /\ List.length flags' = List.length flags.
Proof.
  unfold flag_feature.
  destruct (c <- get_column f (scratch flags df);; np_percentile2 c pct)
    as [[finf fsup]|e]; [|exists flags; auto].
  destruct (lt_mask f finf (scratch flags df)) as [below|e]; [|exists flags; auto].
  rewrite flag_where_scratch.
  destruct (gt_mask f fsup _) as [above|e].
  - rewrite flag_where_scratch. simpl. eexists. split; [reflexivity|].
    rewrite !set_true_where_length. reflexivity.
  - simpl. eexists. split; [reflexivity|]. apply set_true_where_length.
Qed.

Lemma flag_extremes_scratch features pct : forall flags df,
  exists flags',
    fst (flag_extremes features pct (scratch flags df)) = scratch flags' df
    /\ List.length flags' = List.length flags.
Proof.
  induction features as [|f rest IH]; intros flags df; simpl.
  - exists flags. auto.
  - destruct (flag_feature_scratch f pct flags df) as (flags1 & H1 & L1).
    destruct (flag_feature f pct (scratch flags df)) as [df1 [[]|e]]; simpl in H1; subst df1.
    + destruct (IH flags1 df) as (flags2 & H2 & L2).
      exists flags2. split; [exact H2 | congruence].
    + exists flags1. auto.
Qed.

(** Whatever the features and the percentage, and whether the call returns
    or raises, the frame the caller passed in comes back with the temporary
    column on it. *)
Lemma caller_frame_after_filter
    (df : DataFrame) (features : list string) (pct : Q) :
  exists flags,
    fst (filter_extremes_based_on_percentile df features pct) = scratch flags df
    /\ List.length flags = List.length (index df)
    /\ has_column extreme (fst (filter_extremes_based_on_percentile df features pct)) = true.
Proof.
  unfold filter_extremes_based_on_percentile.
  fold (scratch (repeat false (List.length (index df))) df).
  destruct (flag_extremes_scratch features pct (repeat false (List.length (index df))) df)
    as (flags & H & L).
  rewrite repeat_length in L.
  exists flags.
  destruct (flag_extremes features pct _) as [df1 [[]|e]]; simpl in *; subst df1;
    (split; [reflexivity|]; split; [exact L|]);
    unfold has_column; rewrite lookup_scratch_extreme; reflexivity.
Qed.

Lemma all_ok_length {A : Type} (l : list (result A)) (v : list A) :
  all_ok l = Ok v -> List.length v = List.length l.
Proof.
  revert v. induction l as [|r l IH]; simpl; intros v H.
  - injection H as <-. reflexivity.
  - destruct r as [a|e]; simpl in H; [|discriminate].
    destruct (all_ok l) as [rest|e]; simpl in H; [|discriminate].
    injection H as <-. simpl. rewrite (IH rest eq_refl). reflexivity.
Qed.

Lemma as_floats_length (c : column) (v : list fl) :
  as_floats c = Ok v -> List.length v = column_length c.
Proof.
  destruct c; simpl; intro H; try discriminate;
    try (injection H as <-; rewrite ?length_map; reflexivity).
  apply all_ok_length in H. rewrite length_map in H. exact H.
Qed.

Lemma lookup_In {A : Type} (n : string) (a : A) (l : list (string * A)) :
  lookup n l = Some a -> In (n, a) l.
Proof.
  induction l as [|[m b] l IH]; simpl; [discriminate|].
  destruct (String.eqb n m) eqn:E.
  - apply String.eqb_eq in E. subst m. intro H. injection H as <-. auto.
  - auto.
Qed.

Lemma as_float64s_length (c : column) (v : list fl) :
  as_float64s c = Ok v -> List.length v = column_length c.
Proof.
  destruct c; try apply as_floats_length.
  simpl. intro H. injection H as <-. apply length_map.
Qed.

Lemma numeric_float64s (c : column) :
  numeric c -> exists v, as_float64s c = Ok v.
Proof. destruct c; simpl; intros H; try contradiction; eauto. Qed.

Lemma column_length_frame (f : string) (df : DataFrame) (c : column) :
  well_formed df -> lookup f (columns df) = Some c ->
  column_length c = List.length (index df).
Proof.
  intros Hwf Hc. unfold well_formed in Hwf. rewrite Forall_forall in Hwf.
  apply (Hwf (f, c)). apply lookup_In. exact Hc.
Qed.

Lemma readable_length (f : string) (df : DataFrame) (c : column) (v : list fl) :
  well_formed df -> lookup f (columns df) = Some c -> as_float64s c = Ok v ->
  List.length v = List.length (index df).
Proof.
  intros Hwf Hc Hv. rewrite (as_float64s_length c v Hv).
  apply (column_length_frame f df c Hwf Hc).
Qed.

(** *** The percentages numpy accepts *)

Lemma round64_between (x : Q) (k : Z) :
  0 <= x -> x <= inject_Z k -> (0 < k <= 1000)%Z ->
  exists v, round64 x = Fin v /\ 0 <= v /\ v <= inject_Z k.
Proof.
  intros H0 Hk Hsmall. apply round_to_between; try assumption.
  - assert (Z.log2 k <= Z.log2 1000)%Z by (apply Z.log2_le_mono; lia).
    change (Z.log2 1000) with 9%Z in H. lia.
  - lia.
  - apply Z.le_lt_trans with 1000%Z; [lia | reflexivity].
Qed.

Lemma valid_quantile_between (q : Q) :
  0 <= q -> q <= 100 -> valid_quantile (div64 (Fin q) (Fin 100)) = true.
Proof.
  intros H0 H100.
  destruct (round64_between (q / 100) 1) as (v & Hv & Hv0 & Hv1).
  - apply Qle_shift_div_l; [reflexivity | lra].
  - apply Qle_shift_div_r; [reflexivity | change (inject_Z 1) with 1; lra].
  - lia.
  - unfold div64. change (fl_div (Fin q) (Fin 100)) with (Fin (q / 100)).
    unfold np_float64. rewrite Hv. unfold valid_quantile, fl_leb.
    apply andb_true_iff. split; apply Qle_bool_iff; assumption.
Qed.

(** Every percentage in [0, 100] is accepted. *)
Lemma accepted_in_range (pct : Q) : 0 <= pct /\ pct <= 100 -> accepted pct.
Proof.
  intros [H0 H100]. split; [apply valid_quantile_between; assumption|].
  destruct (round64_between (100 + - pct) 100) as (v & Hv & Hv0 & Hv1).
  - lra.
  - change (inject_Z 100) with 100. lra.
  - lia.
  - unfold sub64. change (fl_sub (Fin 100) (Fin pct)) with (Fin (100 + - pct)).
    unfold np_float64 at 1. rewrite Hv.
    apply valid_quantile_between; assumption.
Qed.


Lemma np_percentile2_accepts (c : column) (pct : Q) :
  accepted pct ->
  np_percentile2 c pct
  = if (column_length c =? 0)%nat then Raise IndexError
    else
      let floats v :=
        if existsb fl_is_nan v then (NaN, NaN)
        else
          let s := np_sort v in
          (quantile_of_sorted false s (div64 (Fin pct) (Fin 100)),
           quantile_of_sorted false s
             (div64 (sub64 (Fin 100) (Fin pct)) (Fin 100))) in
      match c with
      | FloatCol v => Ok (floats v)
      | IntCol v =>
          let s := np_sort (map fl_of_Z v) in
          Ok (quantile_of_sorted true s (div64 (Fin pct) (Fin 100)),
              quantile_of_sorted true s
                (div64 (sub64 (Fin 100) (Fin pct)) (Fin 100)))
      | BoolCol _ | StrCol _ => Raise TypeError
      | ObjCol v => v <- all_ok (map as_float v) ;; Ok (floats v)
      end.
Proof.
  intros [E1 E2]. unfold np_percentile2. rewrite E1, E2. reflexivity.
Qed.


Lemma np_percentile2_numeric (c : column) (pct : Q) :
  numeric c -> column_length c <> 0%nat -> accepted pct ->
  exists lo hi, np_percentile2 c pct = Ok (lo, hi).
Proof.
  intros Hnum Hlen Hacc. rewrite (np_percentile2_accepts c pct Hacc).
  apply Nat.eqb_neq in Hlen. rewrite Hlen.
  destruct c as [v|v|v|v|v]; simpl in *; try contradiction.
  - destruct (existsb fl_is_nan v); eauto.
  - eauto.
Qed.

Lemma flag_feature_ok f pct flags df c v lo hi :
  f <> extreme ->
  lookup f (columns df) = Some c ->
  as_float64s c = Ok v ->
  np_percentile2 c pct = Ok (lo, hi) ->
  flag_feature f pct (scratch flags df)
  = (scratch (set_true_where (map (fun y => fl_ltb hi y) v)
                (set_true_where (map (fun y => fl_ltb y lo) v) flags)) df,
     Ok tt).
Proof.
  intros Hf Hc Hv Hp.
  unfold flag_feature, lt_mask, gt_mask, get_column.
  rewrite lookup_scratch_other, Hc by exact Hf. simpl.
  rewrite Hp.
  rewrite Hv. simpl.
  rewrite flag_where_scratch, lookup_scratch_other, Hc by exact Hf. simpl.
  rewrite Hv. simpl. rewrite flag_where_scratch. reflexivity.
Qed.



Lemma not_extreme_scratch flags df :
  not_extreme (scratch flags df) = Ok (map negb flags).
Proof.
  unfold not_extreme, get_column. rewrite lookup_scratch_extreme. reflexivity.
Qed.




Lemma nth_map_default {A B : Type} (f : A -> B) (l : list A) (d : A) (d' : B) (i : nat) :
  f d = d' -> nth i (map f l) d' = f (nth i l d).
Proof. intros <-. apply map_nth. Qed.

Lemma nth_set_true_where (mask flags : list bool) :
  List.length mask = List.length flags ->
  forall i, nth i (set_true_where mask flags) false
            = nth i mask false || nth i flags false.
Proof.
  revert flags. induction mask as [|m mask IH]; intros [|b flags] Hlen i;
    simpl in *; try discriminate.
  - destruct i; reflexivity.
  - destruct i as [|i]; simpl; [reflexivity|]. apply IH. congruence.
Qed.

Lemma fl_ltb_nan_l (x : fl) : fl_ltb NaN x = false.
Proof. reflexivity. Qed.

Lemma fl_ltb_nan_r (x : fl) : fl_ltb x NaN = false.
Proof. destruct x; reflexivity. Qed.

Lemma extreme_on_eq df pct i f c v lo hi :
  lookup f (columns df) = Some c ->
  as_float64s c = Ok v ->
  np_percentile2 c pct = Ok (lo, hi) ->
  extreme_on df pct i f = outside lo hi (nth i v NaN).
Proof.
  intros Hc Hv Hp. unfold extreme_on, cutoffs, get_column.
  rewrite Hc. simpl. rewrite Hv. simpl. rewrite Hp. reflexivity.
Qed.

(** The flags after the loop: a row is flagged when it was flagged before or
    is extreme on one of the features. *)
Lemma flag_extremes_flags df pct :
  well_formed df -> index df <> [] -> 0 <= pct /\ pct <= 100 ->
  forall features flags,
    ~ In extreme features ->
    Forall (fun f => readable f df) features ->
    List.length flags = List.length (index df) ->
    exists flags',
      flag_extremes features pct (scratch flags df) = (scratch flags' df, Ok tt)
      /\ List.length flags' = List.length (index df)
      /\ forall i, nth i flags' false
                   = existsb (extreme_on df pct i) features || nth i flags false.
Proof.
  intros Hwf Hne Hpct.
  induction features as [|f rest IH]; intros flags Hnin Hread Hlen; simpl.
  - exists flags. auto.
  - assert (Hf : f <> extreme) by (intro E; apply Hnin; left; congruence).
    inversion Hread as [|? ? Hrf Hrrest]; subst.
    destruct Hrf as (c & Hc & Hnum).
    destruct (numeric_float64s c Hnum) as (v & Hv).
    pose proof (readable_length f df c v Hwf Hc Hv) as Hl.
    assert (Hcl : column_length c <> 0%nat).
    { rewrite (column_length_frame f df c Hwf Hc).
      destruct (index df); [contradiction | discriminate]. }
    destruct (np_percentile2_numeric c pct Hnum Hcl (accepted_in_range pct Hpct))
      as (lo & hi & Hp).
    rewrite (flag_feature_ok f pct flags df c v lo hi Hf Hc Hv Hp).
    set (flags1 := set_true_where _ (set_true_where _ flags)).
    assert (L1 : List.length flags1 = List.length (index df)).
    { unfold flags1. rewrite !set_true_where_length. exact Hlen. }
    destruct (IH flags1 (fun H => Hnin (or_intror H)) Hrrest L1)
      as (flags' & Hrun & L' & Hnth).
    exists flags'. split; [exact Hrun|]. split; [exact L'|].
    intro i. rewrite Hnth. unfold flags1.
    rewrite !nth_set_true_where
      by (rewrite ?set_true_where_length, length_map; congruence).
    rewrite (nth_map_default (fun y => fl_ltb hi y) v NaN false i (fl_ltb_nan_r hi)).
    rewrite (nth_map_default (fun y => fl_ltb y lo) v NaN false i (fl_ltb_nan_l lo)).
    rewrite (extreme_on_eq df pct i f c v lo hi Hc Hv Hp). unfold outside.
    destruct (fl_ltb (nth i v NaN) lo), (fl_ltb hi (nth i v NaN)),
      (existsb (extreme_on df pct i) rest), (nth i flags false); reflexivity.
Qed.

Lemma drop_after_assign {A B : Type} (n : string) (a : A) (g : A -> B)
    (l : list (string * A)) :
  filter (fun nc => negb (String.eqb n (fst nc)))
         (map (fun nc => (fst nc, g (snd nc))) (assign n a l))
  = filter (fun nc => negb (String.eqb n (fst nc)))
           (map (fun nc => (fst nc, g (snd nc))) l).
Proof.
  induction l as [|[m b] l IH]; simpl.
  - rewrite String.eqb_refl. reflexivity.
  - destruct (String.eqb n m) eqn:E; simpl; rewrite E; simpl; [reflexivity|].
    rewrite IH. reflexivity.
Qed.

Lemma drop_select_scratch mask flags df :
  drop_column extreme (select_rows mask (scratch flags df))
  = drop_column extreme (select_rows mask df).
Proof.
  unfold drop_column, select_rows, scratch, set_column. cbn [columns index].
  f_equal. apply drop_after_assign.
Qed.




(** C8, on a sample.  After the call the frame the caller passed in has a
    third column, "extreme", holding the flags; the returned frame has the
    two columns of the input. *)
Theorem filter_changes_caller_frame :
  filter_extremes_based_on_percentile sample_frame ["a"] 10
  = (mkDataFrame [10; 11; 12; 13; 14]%Z
       [("a", FloatCol [Fin 1; Fin 2; Fin 3; Fin 4; Fin 100]);
        ("structure_name", StrCol ["x"; "y"; "x"; "y"; "x"]);
        ("extreme", BoolCol [true; false; false; false; true])],
     Ok (mkDataFrame [11; 12; 13]%Z
           [("a", FloatCol [Fin 2; Fin 3; Fin 4]);
            ("structure_name", StrCol ["y"; "x"; "y"])]))
  /\ fst (filter_extremes_based_on_percentile sample_frame ["a"] 10)
     <> sample_frame.
Proof. split; [reflexivity | discriminate]. Qed.

(** ** The digitizer *)

(** Whenever both calls return, the first value returned with
    [return_freqs_per_structs] set is the frame of per-bin means of the first
    value returned without it. *)
Lemma first_value_with_freqs df feature nbins filter_based_on pct save r3 r4 :
  returned (digitize_shape_mode df feature nbins filter_based_on pct save false) = Ok r3 ->
  returned (digitize_shape_mode df feature nbins filter_based_on pct save true) = Ok r4 ->
  groupby_bin_mean (ret_df r3) = Ok (ret_df r4)
  /\ ret_df_freq r3 = None /\ ret_df_freq r4 <> None.
Proof.
  unfold digitize_shape_mode.
  destruct (negb (has_column feature df)); [discriminate|].
  destruct (filter_extremes_based_on_percentile df filter_based_on pct)
    as [caller [df1|e]]; [|discriminate].
  destruct (values <- feature_values feature df1;; _) as [[[[df2 idx] centers] sd]|e];
    [|discriminate].
  simpl.
  destruct (groupby_bin_mean df2) as [df_agg|e] eqn:Hagg; [|discriminate]. simpl.
  destruct (groupby_bin_indexes df2) as [bin_indexes|e]; [|discriminate]. simpl.
  destruct (freqs_per_structs df2) as [df_freq|e]; [|discriminate]. simpl.
  intros H3 H4. injection H3 as <-. injection H4 as <-. simpl.
  repeat split; [exact Hagg | discriminate].
Qed.

(** C7, on a sample.  Without the frequency table the first returned value
    is the filtered frame with its "bin" column, one row per cell; with the
    table requested it is [df_agg], the per-bin means: one row per bin, the
    text column and the "bin" column gone. *)
Theorem digitize_returns_bin_means_with_freqs :
  exists r3 r4,
    returned (digitize_shape_mode frame_with_outlier "pc" 5 [] 1 None false) = Ok r3
    /\ returned (digitize_shape_mode frame_with_outlier "pc" 5 [] 1 None true) = Ok r4
    /\ index (ret_df r3) = [10; 11; 12; 13; 14]%Z
    /\ map fst (columns (ret_df r3)) = ["pc"; "structure_name"; "bin"]
    /\ lookup "bin" (columns (ret_df r3)) = Some (IntCol [5; 3; 3; 3; 3]%Z)
    /\ index (ret_df r4) = [3; 5]%Z
    /\ map fst (columns (ret_df r4)) = ["pc"]
    /\ groupby_bin_mean (ret_df r3) = Ok (ret_df r4).
Proof.
  do 2 eexists.
  split; [vm_compute; reflexivity|].
  split; [vm_compute; reflexivity|].
  repeat split; reflexivity.
Qed.

(** C1, at the precision the code runs at.  With [nbins = 4] the binary64
    values [c + binw] and [c' - binw] of neighbouring centers differ in the
    last place, [np.unique] keeps both, and there are six edges instead of
    five: the cell two standard deviations above the mean gets bin 5.  In
    exact arithmetic the same lines give it bin 4. *)
Theorem binary64_bins_exceed_nbins :
  option_map (fun bins => List.length (snd bins))
    (match shape_mode_bins (F := PrimFloat.float) 4 with
     | Ok bins => Some bins
     | Raise _ => None
     end) = Some 6%nat
  /\ digitize_values (F := PrimFloat.float) outlier_zscores 4
     = Ok [5; 2; 2; 2; 2]%Z
  /\ digitize_values (F := fl) outlier_zscores_exact 4
     = Ok [4; 2; 2; 2; 2]%Z.
Proof. repeat split; vm_compute; reflexivity. Qed.

(** The number of binary64 edges for [nbins] from 2 to 10; it is
    [nbins + 1] for 2, 3, 5 and 9 only. *)
Lemma binary64_edge_counts :
  map (fun nbins =>
         match shape_mode_bins (F := PrimFloat.float) nbins with
         | Ok bins => List.length (snd bins)
         | Raise _ => O
         end)
      [2; 3; 4; 5; 6; 7; 8; 9; 10]%Z
  = [3; 4; 6; 6; 9; 12; 12; 10; 14]%nat.
Proof. vm_compute. reflexivity. Qed.

(** The z-scores of the sample are the ones fed to the binary64 run. *)
Lemma outlier_zscores_of_frame :
  exists v,
    feature_values "pc" frame_with_outlier = Ok v
    /\ Forall2 fl_same (fst (zscore v)) outlier_zscores_exact.
Proof.
  eexists. split; [reflexivity|].
  repeat (constructor; [vm_compute; reflexivity|]). constructor.
Qed.

(** A frame of one record has standard deviation 0; its z-score is 0/0 and
    numpy files nan after the last edge, in bin [nbins + 1]. *)
Lemma single_record_bin :
  exists r,
    returned (digitize_shape_mode
                (mkDataFrame [7]%Z [("pc", FloatCol [Fin 3])]) "pc" 9 [] 1 None false)
    = Ok r
    /\ lookup "bin" (columns (ret_df r)) = Some (IntCol [10]%Z)
    /\ ret_pc_std r = Fin 0.
Proof. eexists. split; [vm_compute; reflexivity|]. split; reflexivity. Qed.

(** ** The coefficient matrix *)

Lemma nth_error_update {A : Type} (f : A -> A) (l : list A) : forall n i,
  nth_error (update n f l) i
  = if Nat.eqb i n then option_map f (nth_error l i) else nth_error l i.
Proof.
  induction l as [|x l IH]; intros n i; simpl.
  - destruct n, i; simpl; try reflexivity; destruct (Nat.eqb _ _); reflexivity.
  - destruct n as [|n], i as [|i]; simpl; try reflexivity. apply IH.
Qed.









Lemma prefix_append (a b : string) : forall s,
  String.prefix (String.append a b) s = true -> String.prefix a s = true.
Proof.
  induction a as [|x a IH]; intros s H; [destruct s; reflexivity|].
  destruct s as [|y s]; [discriminate|].
  cbn [String.append String.prefix] in *.
  destruct (ascii_dec x y); [apply IH; exact H | discriminate].
Qed.

Lemma contains_append (a b : string) : forall s,
  contains (String.append a b) s = true -> contains a s = true.
Proof.
  induction s as [|y s IH]; intro H;
    cbn [contains] in *; apply orb_true_iff in H; apply orb_true_iff;
    (destruct H as [H|H]; [left; apply (prefix_append a b); exact H|]).
  - discriminate.
  - right. auto.
Qed.





Lemma prefix_occurs (pat : string) : forall s,
  String.prefix pat s = true <-> exists after, s = String.append pat after.
Proof.
  induction pat as [|x pat IH]; intros s.
  - split; [intros _; exists s; reflexivity | destruct s; reflexivity].
  - destruct s as [|y s]; cbn [String.prefix String.append].
    + split; [discriminate | intros [after H]; discriminate].
    + destruct (ascii_dec x y) as [->|N].
      * rewrite IH. split; intros [after H]; exists after; congruence.
      * split; [discriminate | intros [after H]; congruence].
Qed.

Lemma contains_occurs (pat : string) : forall s,
  contains pat s = true <-> occurs_in pat s.
Proof.
  unfold occurs_in.
  induction s as [|y s IH]; cbn [contains]; rewrite orb_true_iff, prefix_occurs.
  - split.
    + intros [[after H]|H]; [|discriminate]. exists "", after. exact H.
    + intros (before & after & H). left.
      destruct before; [exists after; exact H | discriminate].
  - rewrite IH. split.
    + intros [[after H]|(before & after & H)].
      * exists "", after. exact H.
      * exists (String y before), after. cbn [String.append]. congruence.
    + intros (before & after & H). destruct before as [|x before].
      * left. exists after. exact H.
      * right. cbn [String.append] in H. injection H as _ H. eauto.
Qed.

Lemma contains_not_occurs (pat s : string) :
  contains pat s = false <-> ~ occurs_in pat s.
Proof.
  rewrite <- contains_occurs. destruct (contains pat s); split; intuition congruence.
Qed.

Lemma filter_none {A : Type} (p : A -> bool) : forall l,
  filter p l = [] <-> forall y, In y l -> p y = false.
Proof.
  induction l as [|a l IH]; cbn [filter].
  - split; [intros _ y [] | reflexivity].
  - destruct (p a) eqn:Ea.
    + split; [discriminate|]. intro H. rewrite (H a) in Ea by (left; reflexivity).
      discriminate.
    + rewrite IH. split.
      * intros H y [<-|Hy]; auto.
      * intros H y Hy. apply H. right. exact Hy.
Qed.

Lemma filter_one {A : Type} (p : A -> bool) (x : A) : forall l,
  filter p l = [x]
  <-> exists before after,
        l = before ++ x :: after /\ p x = true
        /\ forall y, In y (before ++ after) -> p y = false.
Proof.
  induction l as [|a l IH]; cbn [filter].
  - split; [discriminate | intros ([|? ?] & after & H & _); discriminate].
  - destruct (p a) eqn:Ea.
    + split.
      * intro H. injection H as -> Hnil. exists [], l.
        split; [reflexivity|]. split; [exact Ea|].
        intros y Hy. cbn [app] in Hy.
        destruct (p y) eqn:Ey; [|reflexivity].
        assert (Hin : In y (filter p l)) by (apply filter_In; auto).
        rewrite Hnil in Hin. destruct Hin.
      * intros (before & after & H & Hx & Hrest).
        destruct before as [|b before]; cbn [app] in H.
        -- injection H as -> ->. f_equal.
           apply filter_none. exact Hrest.
        -- injection H as Hab _. subst b.
           rewrite (Hrest a) in Ea by (left; reflexivity). discriminate.
    + rewrite IH. split.
      * intros (before & after & -> & Hx & Hrest). exists (a :: before), after.
        split; [reflexivity|]. split; [exact Hx|].
        intros y [<-|Hy]; [exact Ea | auto].
      * intros (before & after & H & Hx & Hrest).
        destruct before as [|b before]; cbn [app] in H.
        -- injection H as Hax _. congruence.
        -- injection H as Hab Hl. subst b l. exists before, after.
           split; [reflexivity|]. split; [exact Hx|].
           intros y Hy. apply Hrest. right. exact Hy.
Qed.

Lemma cell_float32_stands (c : cell) (x : fl) :
  cell_float32 c = Ok x <-> stands_for c x.
Proof.
  split.
  - destruct c as [y|z|b|s]; cbn [cell_float32]; intro H.
    + injection H as <-. constructor.
    + destruct (np_float64 (fl_of_Z z)) as [| |q|] eqn:E; try discriminate.
      injection H as <-. constructor. exact E.
    + injection H as <-. destruct b; constructor.
    + destruct (python_float s) as [y|] eqn:E; [|discriminate].
      injection H as <-. constructor. exact E.
  - intros [y|z q E|b|s y E]; cbn [cell_float32]; try reflexivity;
      rewrite E; reflexivity.
Qed.

Lemma selects_as_scalar row pat x :
  selects row pat x <-> as_scalar (select_keys pat row) = Ok x.
Proof.
  unfold selects, as_scalar, select_keys. split.
  - intros (before & key & c & after & Hrow & Hkey & Hrest & Hc).
    assert (E : filter (fun kv => contains pat (fst kv)) row = [(key, c)]).
    { apply filter_one. exists before, after. split; [exact Hrow|].
      split; [apply contains_occurs; exact Hkey|].
      intros kv Hin. apply contains_not_occurs. apply Hrest. exact Hin. }
    rewrite E. cbn [map snd]. apply cell_float32_stands. exact Hc.
  - destruct (filter (fun kv => contains pat (fst kv)) row) as [|[key c] [|kv rest]] eqn:E;
      cbn [map snd]; try discriminate.
    intro Hc. apply filter_one in E.
    destruct E as (before & after & Hrow & Hkey & Hrest).
    exists before, key, c, after. split; [exact Hrow|].
    split; [apply contains_occurs; exact Hkey|].
    split; [|apply cell_float32_stands; exact Hc].
    intros kv Hin. apply contains_not_occurs. apply Hrest. exact Hin.
Qed.




(** A row in the naming of the manifests. *)
Lemma coefficient_matrix_sample :
  get_shcoeff_matrix_from_dataframe sample_row "mem_shcoeffs_L" 2
  = Ok [[[Fin 3; Fin 0]; [Fin 0; Fin (1 # 2)]];
        [[Fin 0; Fin 0]; [Fin 0; Fin 2]]].
Proof. vm_compute. reflexivity. Qed.

(** A sine coefficient whose cosine partner is missing is not stored: the
    failed cosine store leaves the [try] before the sine store. *)
Lemma sine_without_cosine :
  selects [("p1M0S", CFloat (Fin 5))] (coeff_key "p" 1 0 "S") (Fin 5)
  /\ get_shcoeff_matrix_from_dataframe [("p1M0S", CFloat (Fin 5))] "p" 2
     = Raise (NoCoefficientsFound "p").
Proof.
  split; [apply selects_as_scalar|]; vm_compute; reflexivity.
Qed.

(** A coefficient too small for float32 is stored as zero: a row whose only
    coefficient is 2^-151 raises. *)
Lemma tiny_coefficient_is_lost :
  get_shcoeff_matrix_from_dataframe
    [("p0M0C", CFloat (Fin (1 # 2 ^ 151))); ("p0M0S", CFloat (Fin 0))] "p" 1
  = Raise (NoCoefficientsFound "p").
Proof. vm_compute. reflexivity. Qed.

(** ** The per-bin driver *)

Section Driver.
Context {geometry : Geometry}.

Lemma reconstruct_rows_all_ok prefix proj lmax (rows : list Series) :
  forall acc,
    reconstruct_rows prefix proj lmax rows acc
    = (outs <- all_ok (map (reconstruct_row prefix proj lmax) rows) ;;
       Ok (collect acc outs)).
Proof.
  induction rows as [|row rows IH]; intros [[contours meshes] limits]; simpl.
  - rewrite !app_nil_r. reflexivity.
  - destruct (reconstruct_row prefix proj lmax row) as [[[pts mesh] limit]|e];
      simpl; [|reflexivity].
    rewrite IH.
    destruct (all_ok (map (reconstruct_row prefix proj lmax) rows)) as [outs|e];
      simpl; [|reflexivity].
    rewrite <- !app_assoc. reflexivity.
Qed.

Lemma all_ok_first_failure {A B : Type} (f : A -> result B)
    (before : list A) (x : A) (after : list A) (e : exn) :
  Forall (fun a => exists b, f a = Ok b) before ->
  f x = Raise e ->
  all_ok (map f (before ++ x :: after)) = Raise e.
Proof.
  intros Hbefore Hx. induction Hbefore as [|a before [b Hb] _ IH]; simpl.
  - rewrite Hx. reflexivity.
  - rewrite Hb. simpl. rewrite IH. reflexivity.
Qed.

(** C5, as the code has it.  The driver has no handler around its loop: when
    the reconstruction or the intersection of a row raises, after the rows
    before it went through, the driver raises that exception and returns
    nothing, for no bin.  It returns, with one contour, mesh and limit per
    row in row order, exactly when every row goes through. *)
Theorem driver_stops_at_first_failing_bin
    (df : DataFrame) (prefix : string) (proj : nat * nat) (lmax : nat) :
  let rows := rows_without_bin df in
  let run := get_contours_of_consecutive_reconstructions df prefix proj lmax in
  (forall before row after e,
      rows = before ++ row :: after ->
      Forall (fun r => exists out, reconstruct_row prefix proj lmax r = Ok out)
             before ->
      reconstruct_row prefix proj lmax row = Raise e ->
      run = Raise e)
  /\ (forall outs,
        all_ok (map (reconstruct_row prefix proj lmax) rows) = Ok outs ->
        run = Ok (map (fun o => fst (fst o)) outs,
                  map (fun o => snd (fst o)) outs,
                  map snd outs))
  /\ (forall out, run = Ok out ->
        Forall (fun r => exists o, reconstruct_row prefix proj lmax r = Ok o) rows).
Proof.
  intros rows run. unfold run, get_contours_of_consecutive_reconstructions.
  fold rows. rewrite reconstruct_rows_all_ok.
  split; [|split].
  - intros before row after e Hrows Hbefore Hrow. rewrite Hrows.
    rewrite (all_ok_first_failure _ before row after e Hbefore Hrow).
    reflexivity.
  - intros outs Houts. rewrite Houts. reflexivity.
  - intros out Hout.
    destruct (all_ok (map (reconstruct_row prefix proj lmax) rows)) as [outs|e] eqn:E;
      [|discriminate].
    clear Hout. revert outs E.
    induction rows as [|r rs IH]; intros outs E; [constructor|].
    simpl in E.
    destruct (reconstruct_row prefix proj lmax r) as [o|e] eqn:Er; [|discriminate].
    simpl in E.
    destruct (all_ok (map (reconstruct_row prefix proj lmax) rs)) as [os|e] eqn:Es;
      [|discriminate].
    constructor; [eauto | apply (IH os); reflexivity].
Qed.

End Driver.

(** Bin 1 of [two_bins] has a degenerate mesh and bin 2 a good one.  Alone,
    bin 2 yields its contour, mesh and limit; together with bin 1 nothing is
    returned, by the driver or by the animation step that calls it. *)
Lemma failing_bin_aborts_the_others :
  get_contours_of_consecutive_reconstructions (geometry := sample_geometry)
    two_bins "mem_shcoeffs_L" (0, 1)%nat 2
  = Raise OnlyZerosInPlaneAxis
  /\ (exists contour mesh limit,
        get_contours_of_consecutive_reconstructions (geometry := sample_geometry)
          second_bin_only "mem_shcoeffs_L" (0, 1)%nat 2
        = Ok ([contour], [mesh], [limit]))
  /\ snd (animate_shape_modes_and_save_meshes
            (geometry := sample_geometry) (trig := sample_trig)
            two_bins two_bins [(1, [1]); (2, [2])]%Z false)
     = Raise OnlyZerosInPlaneAxis.
Proof.
  split; [vm_compute; reflexivity|].
  split; [do 3 eexists; vm_compute; reflexivity | vm_compute; reflexivity].
Qed.

(** ** The nuclear offsets *)
























Section OffsetProofs.
Context {trig : Trig}.




(** The later turns of the loop leave the offsets of an earlier bin alone. *)
(** *** The rows of a selection *)













End OffsetProofs.


(** ** The bins in exact arithmetic *)

Lemma fl_div_Fin (x y : Q) : ~ y == 0 -> fl_div (Fin x) (Fin y) = Fin (x / y).
Proof.
  intro H. simpl. destruct (Qeq_bool y 0) eqn:E; [|reflexivity].
  apply Qeq_bool_iff in E. contradiction.
Qed.

Lemma set_last_snoc {F : Type} (v x : F) (l : list F) :
  set_last v (l ++ [x]) = l ++ [v].
Proof.
  induction l as [|y l IH]; simpl; [reflexivity|].
  rewrite IH. destruct (l ++ [x]) eqn:E; [|reflexivity].
  destruct l; discriminate.
Qed.


Lemma sort_leb_Fin (a b : Q) : sort_leb (Fin a) (Fin b) = Qle_bool a b.
Proof. reflexivity. Qed.

Lemma np_sort_ascending (l : list fl) : ascending l -> np_sort l = l.
Proof.
  induction l as [|x l IH]; intro H; [reflexivity|].
  change (np_sort (x :: l)) with (insert_sorted x (np_sort l)).
  destruct l as [|y l]; [reflexivity|].
  destruct H as [Hxy Htl]. rewrite (IH Htl).
  cbn [insert_sorted]. rewrite Hxy. reflexivity.
Qed.

Section Pairs.
Variable w : Q.
Hypothesis w_pos : 0 < w.

Lemma edge_pairs_ascending (qs : list Q) :
  chain w qs -> ascending (edge_pairs w qs).
Proof.
  induction qs as [|q qs IH]; intro H; [exact I|].
  change (edge_pairs w (q :: qs))
    with (Fin (q + - w) :: Fin (q + w) :: edge_pairs w qs).
  split.
  - rewrite sort_leb_Fin. apply Qle_bool_iff. lra.
  - destruct qs as [|q' qs]; [exact I|].
    destruct H as [Hq Htl].
    change (edge_pairs w (q' :: qs))
      with (Fin (q' + - w) :: Fin (q' + w) :: edge_pairs w qs) in *.
    split; [|apply IH; exact Htl].
    rewrite sort_leb_Fin. apply Qle_bool_iff. lra.
Qed.

Lemma drop_repeats_pairs (qs : list Q) : forall q,
  chain w (q :: qs) ->
  drop_repeats (Fin (q + w)) (edge_pairs w qs)
  = map (fun q => Fin (q + w)) qs.
Proof.
  induction qs as [|q' qs IH]; intros q H; [reflexivity|].
  destruct H as [Hq Htl].
  change (edge_pairs w (q' :: qs))
    with (Fin (q' + - w) :: Fin (q' + w) :: edge_pairs w qs).
  cbn [drop_repeats eqb exact_ops fl_eqb map].
  assert (E1 : Qeq_bool (q' + - w) (q + w) = true)
    by (apply Qeq_bool_iff; lra).
  assert (E2 : Qeq_bool (q' + w) (q' + - w) = false).
  { destruct (Qeq_bool (q' + w) (q' + - w)) eqn:E; [|reflexivity].
    apply Qeq_bool_iff in E. lra. }
  rewrite E1, E2. f_equal. apply IH. exact Htl.
Qed.

Lemma unique_pairs (q : Q) (qs : list Q) :
  chain w (q :: qs) ->
  np_unique (edge_pairs w (q :: qs))
  = Fin (q + - w) :: map (fun q => Fin (q + w)) (q :: qs).
Proof.
  intro H. unfold np_unique.
  rewrite (np_sort_ascending _ (edge_pairs_ascending _ H)).
  change (edge_pairs w (q :: qs))
    with (Fin (q + - w) :: Fin (q + w) :: edge_pairs w qs).
  cbn [drop_repeats eqb exact_ops fl_eqb map].
  assert (E : Qeq_bool (q + w) (q + - w) = false).
  { destruct (Qeq_bool (q + w) (q + - w)) eqn:E; [|reflexivity].
    apply Qeq_bool_iff in E. lra. }
  rewrite E. do 2 f_equal. apply drop_repeats_pairs. exact H.
Qed.

End Pairs.

Section ExactBins.
Variable nbins : Z.
Hypothesis two_bins_at_least : (2 <= nbins)%Z.

Let k : nat := (Z.to_nat nbins - 1)%nat.

Lemma nbins_k : Z.to_nat nbins = S k.
Proof. unfold k. lia. Qed.

Lemma inject_k : inject_Z (nbins - 1) == inject_Z (Z.of_nat k).
Proof. unfold k. replace (Z.of_nat (Z.to_nat nbins - 1)) with (nbins - 1)%Z by lia. reflexivity. Qed.

Lemma dv_pos : 0 < inject_Z (nbins - 1).
Proof. change 0 with (inject_Z 0). rewrite <- Zlt_Qlt. lia. Qed.

Lemma step_pos : 0 < bin_step nbins.
Proof.
  unfold bin_step. pose proof dv_pos.
  apply Qlt_shift_div_l; [assumption|]. rewrite Qmult_0_l. reflexivity.
Qed.

Lemma step_twice_width : bin_step nbins == 2 * bin_width nbins.
Proof.
  unfold bin_step, bin_width. pose proof dv_pos as H.
  rewrite inject_Z_mult. field. lra.
Qed.

Lemma width_pos : 0 < bin_width nbins.
Proof. pose proof step_pos. pose proof step_twice_width. lra. Qed.

Lemma step_times_k : inject_Z (Z.of_nat k) * bin_step nbins == 4.
Proof.
  rewrite <- inject_k. unfold bin_step. pose proof dv_pos as H.
  field. lra.
Qed.


Lemma inject_Z_nonzero (z : Z) : z <> 0%Z -> ~ inject_Z z == 0.
Proof. intros H E. apply H. unfold Qeq in E. simpl in E. lia. Qed.

Lemma exact_half_width :
  bin_half_width (F := fl) nbins = Ok (Fin (bin_width nbins)).
Proof.
  unfold bin_half_width.
  destruct (Z.eqb_spec (2 * (nbins - 1)) 0) as [E|E]; [lia|].
  f_equal. unfold LSUP, LINF. cbn [of_Z sub div exact_ops].
  unfold fl_sub, fl_of_Z. cbn [fl_neg fl_add].
  apply fl_div_Fin. apply inject_Z_nonzero. exact E.
Qed.

Lemma exact_centers :
  np_linspace (F := fl) LINF LSUP nbins
  = Ok (map (fun i => Fin (center_value nbins i)) (seq 0 k)
        ++ [Fin (inject_Z 2)]).
Proof.
  unfold np_linspace.
  destruct (Z.ltb_spec nbins 0); [lia|].
  destruct (Z.ltb_spec 0 (nbins - 1)); [|lia].
  destruct (Z.ltb_spec 1 nbins); [|lia].
  unfold LSUP, LINF. cbn [of_Z sub div mul add eqb exact_ops].
  unfold fl_sub, fl_of_Z. cbn [fl_neg fl_add].
  rewrite fl_div_Fin by (apply inject_Z_nonzero; lia).
  fold (bin_step nbins).
  assert (Hstep : fl_eqb (Fin (bin_step nbins)) (Fin (inject_Z 0)) = false).
  { simpl. destruct (Qeq_bool (bin_step nbins) (inject_Z 0)) eqn:E; [|reflexivity].
    apply Qeq_bool_iff in E. pose proof step_pos as Hp. rewrite E in Hp.
    discriminate. }
  rewrite Hstep. f_equal. rewrite !map_map. cbn [fl_mul fl_add].
  rewrite nbins_k, seq_S, map_app. cbn [map]. rewrite set_last_snoc.
  reflexivity.
Qed.


Lemma center_succ (i : nat) :
  center_value nbins (S i) == center_value nbins i + bin_step nbins.
Proof.
  unfold center_value. rewrite Nat2Z.inj_succ. unfold Z.succ.
  rewrite inject_Z_plus. ring.
Qed.

Lemma last_center :
  center_value nbins k == inject_Z 2.
Proof.
  unfold center_value. rewrite step_times_k. reflexivity.
Qed.

Lemma centers_chain_from (len : nat) : forall a,
  (a + len = k)%nat ->
  chain (bin_width nbins)
        (map (center_value nbins) (seq a len) ++ [inject_Z 2]).
Proof.
  pose proof step_twice_width as Hs.
  induction len as [|len IH]; intros a Ha; [exact I|].
  cbn [seq map app].
  assert (Hnext : center_value nbins a + bin_width nbins
                  == center_value nbins (S a) + - bin_width nbins)
    by (rewrite center_succ; lra).
  destruct len as [|len].
  - cbn [seq map app chain]. split; [|exact I].
    rewrite Hnext. replace (S a) with k by lia.
    rewrite last_center. reflexivity.
  - specialize (IH (S a) ltac:(lia)). cbn [seq map app] in *.
    split; [exact Hnext | exact IH].
Qed.

Lemma flat_map_Fin (w : Q) (qs : list Q) :
  flat_map (fun b : fl => [sub b (Fin w); add b (Fin w)]) (map Fin qs)
  = edge_pairs w qs.
Proof.
  unfold edge_pairs. induction qs as [|q qs IH]; [reflexivity|].
  cbn [map flat_map]. rewrite IH. reflexivity.
Qed.

(** The bins of the code, in exact arithmetic: the centers, and the edges
    -inf, then the upper edge of every center but the last, then +inf. *)
Lemma exact_bins :
  shape_mode_bins (F := fl) nbins
  = Ok (map (fun i => Fin (center_value nbins i)) (seq 0 k) ++ [Fin (inject_Z 2)],
        NInf :: map (fun i => Fin (center_value nbins i + bin_width nbins)) (seq 0 k)
             ++ [PInf]).
Proof.
  unfold shape_mode_bins. rewrite exact_half_width, exact_centers.
  cbn [bind].
  set (qs := map (center_value nbins) (seq 0 k) ++ [inject_Z 2]).
  assert (Hqs : map (fun i => Fin (center_value nbins i)) (seq 0 k)
                ++ [Fin (inject_Z 2)] = map Fin qs).
  { unfold qs. rewrite map_app, map_map. reflexivity. }
  rewrite Hqs, flat_map_Fin.
  assert (Hchain : chain (bin_width nbins) qs)
    by (apply (centers_chain_from k 0%nat); lia).
  destruct qs as [|q qs'] eqn:E.
  { apply (f_equal (@List.length Q)) in E. unfold qs in E.
    rewrite length_app in E. simpl in E. lia. }
  rewrite (unique_pairs _ width_pos q qs' Hchain).
  cbn [open_ends bind pos_inf neg_inf exact_ops]. do 2 f_equal.
  rewrite <- E. unfold qs. rewrite map_app, map_map. cbn [map].
  rewrite app_comm_cons, set_last_snoc. reflexivity.
Qed.


Let edge (i : nat) : Q := center_value nbins i + bin_width nbins.
Let edges : list fl := NInf :: map (fun i => Fin (edge i)) (seq 0 k) ++ [PInf].

Lemma inner_edges_non_decreasing (len : nat) : forall a,
  non_decreasing (map (fun i => Fin (edge i)) (seq a len) ++ [PInf]) = true.
Proof.
  induction len as [|len IH]; intro a; [reflexivity|].
  specialize (IH (S a)). cbn [seq map app] in *.
  destruct len as [|len]; cbn [seq map app non_decreasing] in *.
  - reflexivity.
  - rewrite IH, andb_true_r. cbn [leb exact_ops fl_leb].
    apply Qle_bool_iff. unfold edge. rewrite center_succ.
    pose proof step_pos. lra.
Qed.

Lemma edges_non_decreasing : non_decreasing edges = true.
Proof.
  unfold edges. pose proof (inner_edges_non_decreasing k 0%nat) as H.
  destruct (map (fun i => Fin (edge i)) (seq 0 k) ++ [PInf]) as [|x l] eqn:E.
  - destruct (map _ (seq 0 k)); discriminate.
  - change (non_decreasing (NInf :: x :: l))
      with (leb NInf x && non_decreasing (x :: l)).
    rewrite H, andb_true_r.
    destruct k as [|k']; cbn [seq map app] in E; injection E as <- _; reflexivity.
Qed.

Lemma filter_map_length {A B : Type} (p : B -> bool) (g : A -> B) (l : list A) :
  List.length (filter p (map g l)) = List.length (filter (fun a => p (g a)) l).
Proof.
  induction l as [|a l IH]; simpl; [reflexivity|].
  destruct (p (g a)); simpl; rewrite IH; reflexivity.
Qed.

(** The bin of a number: one more than the number of inner edges that are
    not above it. *)
Lemma bin_of_number (z : Q) :
  searchsorted_right edges (Fin z)
  = Z.of_nat (S (List.length (filter (fun i => Qle_bool (edge i) z) (seq 0 k)))).
Proof.
  unfold searchsorted_right, edges. f_equal.
  cbn [filter]. change (sort_leb NInf (Fin z)) with true. cbn [List.length].
  f_equal. rewrite filter_app, length_app, filter_map_length.
  cbn [filter]. change (sort_leb PInf (Fin z)) with false. cbn [List.length].
  rewrite Nat.add_0_r. reflexivity.
Qed.

Lemma filter_all_true {A : Type} (p : A -> bool) (l : list A) :
  (forall a, In a l -> p a = true) -> filter p l = l.
Proof.
  induction l as [|a l IH]; intro H; simpl; [reflexivity|].
  rewrite (H a) by (left; reflexivity). f_equal. apply IH.
  intros b Hb. apply H. right. exact Hb.
Qed.

Lemma filter_all_false {A : Type} (p : A -> bool) (l : list A) :
  (forall a, In a l -> p a = false) -> filter p l = [].
Proof.
  induction l as [|a l IH]; intro H; simpl; [reflexivity|].
  rewrite (H a) by (left; reflexivity). apply IH.
  intros b Hb. apply H. right. exact Hb.
Qed.

Lemma center_le (i j : nat) :
  (i <= j)%nat -> center_value nbins i <= center_value nbins j.
Proof.
  intro H. unfold center_value.
  assert (Hij : inject_Z (Z.of_nat i) <= inject_Z (Z.of_nat j))
    by (rewrite <- Zle_Qle; lia).
  pose proof step_pos as Hs.
  apply Qplus_le_compat; [|apply Qle_refl].
  apply Qmult_le_compat_r; [exact Hij | lra].
Qed.

Lemma first_center : center_value nbins 0 == inject_Z (-2).
Proof. unfold center_value. simpl (Z.of_nat 0). ring. Qed.

Lemma bin_in_range (z : Q) :
  (1 <= searchsorted_right edges (Fin z) <= nbins)%Z.
Proof.
  rewrite bin_of_number.
  pose proof (filter_length_le (fun i => Qle_bool (edge i) z) (seq 0 k)) as H.
  rewrite length_seq in H. pose proof nbins_k. lia.
Qed.

Lemma bin_below (z : Q) :
  z < inject_Z (-2) -> searchsorted_right edges (Fin z) = 1%Z.
Proof.
  intro Hz. rewrite bin_of_number, filter_all_false; [reflexivity|].
  intros i _. destruct (Qle_bool (edge i) z) eqn:E; [|reflexivity].
  apply Qle_bool_iff in E. unfold edge in E.
  pose proof (center_le 0 i ltac:(lia)) as H0. rewrite first_center in H0.
  pose proof width_pos. lra.
Qed.

Lemma bin_above (z : Q) :
  inject_Z 2 < z -> searchsorted_right edges (Fin z) = nbins.
Proof.
  intro Hz. rewrite bin_of_number, filter_all_true.
  - rewrite length_seq. pose proof nbins_k. lia.
  - intros i Hi. apply in_seq in Hi. apply Qle_bool_iff. unfold edge.
    pose proof (center_le (S i) k ltac:(lia)) as H0.
    rewrite center_succ, last_center in H0.
    pose proof width_pos. pose proof step_twice_width. lra.
Qed.


Lemma count_below (j : nat) : forall n,
  List.length (filter (fun i => (i <? j)%nat) (seq 0 n)) = Nat.min j n.
Proof.
  induction n as [|n IH]; [rewrite Nat.min_0_r; reflexivity|].
  rewrite seq_S, filter_app, length_app, IH. cbn [filter Nat.add].
  destruct (Nat.ltb_spec n j); cbn [List.length]; lia.
Qed.

Lemma bin_of_center (j : nat) :
  (j < k)%nat ->
  searchsorted_right edges (Fin (center_value nbins j)) = Z.of_nat (S j).
Proof.
  intro Hj. rewrite bin_of_number. do 2 f_equal.
  rewrite (filter_ext _ (fun i => (i <? j)%nat)).
  - rewrite count_below. lia.
  - intro i. unfold edge.
    pose proof width_pos as Hw. pose proof step_twice_width as Hs.
    destruct (Nat.ltb_spec i j) as [Hij|Hij].
    + apply Qle_bool_iff.
      pose proof (center_le (S i) j ltac:(lia)) as H.
      rewrite center_succ in H. lra.
    + destruct (Qle_bool _ _) eqn:E; [|reflexivity].
      apply Qle_bool_iff in E.
      pose proof (center_le j i Hij). lra.
Qed.

Lemma bin_of_last_center :
  searchsorted_right edges (Fin (inject_Z 2)) = nbins.
Proof.
  rewrite bin_of_number, filter_all_true.
  - rewrite length_seq. pose proof nbins_k. lia.
  - intros i Hi. apply in_seq in Hi. apply Qle_bool_iff. unfold edge.
    pose proof (center_le (S i) k ltac:(lia)) as H0.
    rewrite center_succ, last_center in H0.
    pose proof width_pos. pose proof step_twice_width. lra.
Qed.

Lemma centers_fill_the_bins :
  map (searchsorted_right edges)
      (map (fun i => Fin (center_value nbins i)) (seq 0 k) ++ [Fin (inject_Z 2)])
  = map (fun i => Z.of_nat (S i)) (seq 0 (S k)).
Proof.
  rewrite seq_S, !map_app, map_map. cbn [map Nat.add].
  rewrite bin_of_last_center. f_equal.
  - apply map_ext_in. intros j Hj. apply in_seq in Hj.
    apply bin_of_center. lia.
  - pose proof nbins_k. f_equal. lia.
Qed.

(** In exact arithmetic the lines do what their comment says, for every
    [nbins >= 2]: there are [nbins + 1] edges, the centers fall in the bins
    1, ..., nbins in this order, every number gets a bin in 1..nbins, a
    number below -2 gets bin 1 and a number above 2 gets bin [nbins]. *)
Lemma exact_bins_partition :
  exists centers edges',
    shape_mode_bins (F := fl) nbins = Ok (centers, edges')
    /\ List.length edges' = S (Z.to_nat nbins)
    /\ np_digitize centers edges'
       = Ok (map (fun i => Z.of_nat (S i)) (seq 0 (Z.to_nat nbins)))
    /\ forall values : list Q,
         exists idx,
           np_digitize (map Fin values) edges' = Ok idx
           /\ Forall2 (fun z b => (1 <= b <= nbins)%Z
                                  /\ (z < -2 -> b = 1%Z)
                                  /\ (2 < z -> b = nbins))
                      values idx.
Proof.
  exists (map (fun i => Fin (center_value nbins i)) (seq 0 k) ++ [Fin (inject_Z 2)]),
         edges.
  split; [apply exact_bins|].
  split.
  { unfold edges. cbn [List.length].
    rewrite length_app, length_map, length_seq, nbins_k. simpl. lia. }
  unfold np_digitize. rewrite edges_non_decreasing.
  split.
  { rewrite centers_fill_the_bins, nbins_k. reflexivity. }
  intro values. eexists. split; [reflexivity|].
  induction values as [|z values IH]; cbn [map]; constructor; [|exact IH].
  split; [apply bin_in_range|].
  split; [apply bin_below | apply bin_above].
Qed.

End ExactBins.

(** The same, for the list of bins the code assigns to z-scored numbers. *)
Lemma exact_digitize_values (nbins : Z) (values : list Q) :
  (2 <= nbins)%Z ->
  exists idx,
    digitize_values (F := fl) (map Fin values) nbins = Ok idx
    /\ Forall2 (fun z b => (1 <= b <= nbins)%Z
                           /\ (z < -2 -> b = 1%Z)
                           /\ (2 < z -> b = nbins))
               values idx.
Proof.
  intro H.
  destruct (exact_bins_partition nbins H) as (centers & edges & Hb & _ & _ & Hv).
  unfold digitize_values. rewrite Hb. cbn [bind snd]. apply Hv.
Qed.

(** * Further properties *)

(** ** The percentile filter: what it returns on any input *)

Lemma mask_select_length {A B : Type} (mask : list bool) :
  forall (l : list A) (l' : list B),
    List.length l = List.length l' ->
    List.length (mask_select mask l) = List.length (mask_select mask l').
Proof.
  induction mask as [|b mask IH]; intros [|x l] [|y l'] H; simpl in *;
    try discriminate; auto.
  injection H as H. destruct b; simpl; auto.
Qed.

Lemma select_column_length (mask : list bool) (c : column) {A : Type} (l : list A) :
  column_length c = List.length l ->
  column_length (select_column mask c) = List.length (mask_select mask l).
Proof.
  destruct c; simpl; intro H; apply mask_select_length; exact H.
Qed.

Lemma select_rows_well_formed (mask : list bool) (df : DataFrame) :
  well_formed df -> well_formed (select_rows mask df).
Proof.
  unfold well_formed, select_rows. cbn [columns index].
  intro H. rewrite Forall_map. revert H. apply Forall_impl.
  intros [n c] Hc. cbn [fst snd] in *. apply select_column_length. exact Hc.
Qed.

Lemma drop_column_well_formed (name : string) (df : DataFrame) :
  well_formed df -> well_formed (drop_column name df).
Proof.
  unfold well_formed, drop_column. cbn [columns index].
  intro H. rewrite Forall_forall in *. intros nc Hin.
  apply filter_In in Hin. apply H. tauto.
Qed.

Lemma mask_select_all {A : Type} (l : list A) :
  mask_select (repeat true (List.length l)) l = l.
Proof. induction l as [|x l IH]; simpl; congruence. Qed.

Lemma select_column_all (c : column) :
  select_column (repeat true (column_length c)) c = c.
Proof. destruct c; simpl; rewrite mask_select_all; reflexivity. Qed.

Lemma select_rows_all (df : DataFrame) :
  well_formed df ->
  select_rows (repeat true (List.length (index df))) df = df.
Proof.
  destruct df as [idx cols]. unfold well_formed, select_rows. cbn [columns index].
  intro H. rewrite mask_select_all. f_equal.
  induction cols as [|[n c] cols IH]; simpl; [reflexivity|].
  inversion H as [|? ? Hc Hrest]; subst. cbn [snd] in Hc.
  rewrite <- Hc at 1. rewrite select_column_all, IH by exact Hrest. reflexivity.
Qed.

Lemma filter_names_map {A B : Type} (p : string -> bool) (g : A -> B)
    (l : list (string * A)) :
  filter (fun nc => p (fst nc)) (map (fun nc => (fst nc, g (snd nc))) l)
  = map (fun nc => (fst nc, g (snd nc))) (filter (fun nc => p (fst nc)) l).
Proof.
  induction l as [|[n a] l IH]; cbn [filter map fst snd]; [reflexivity|].
  destruct (p n); cbn [map fst snd]; rewrite IH; reflexivity.
Qed.

Lemma lookup_filter_names {A : Type} (name : string) (l : list (string * A)) :
  lookup name (filter (fun nc => negb (String.eqb name (fst nc))) l) = None.
Proof.
  induction l as [|[n a] l IH]; cbn [filter lookup fst]; [reflexivity|].
  destruct (String.eqb name n) eqn:E; cbn [negb lookup]; [exact IH|].
  rewrite E. exact IH.
Qed.

(** What the filter returns is always a selection of rows of the frame it
    was given, without the temporary column. *)
Lemma filter_returns_selection
    (df : DataFrame) (features : list string) (pct : Q) (out : DataFrame) :
  snd (filter_extremes_based_on_percentile df features pct) = Ok out ->
  exists flags,
    List.length flags = List.length (index df)
    /\ out = drop_column extreme (select_rows (map negb flags) df).
Proof.
  unfold filter_extremes_based_on_percentile.
  fold (scratch (repeat false (List.length (index df))) df).
  destruct (flag_extremes_scratch features pct (repeat false (List.length (index df))) df)
    as (flags & H & L).
  rewrite repeat_length in L.
  destruct (flag_extremes features pct _) as [df1 [[]|e]]; simpl in *; subst df1;
    [|discriminate].
  rewrite not_extreme_scratch. simpl. rewrite drop_select_scratch.
  intro E. injection E as <-. exists flags. auto.
Qed.

(** X1.  Whenever [filter_extremes_based_on_percentile] returns, on any
    frame, feature list and percentage, the returned frame is made of rows
    of the input: some of the input's rows, in their order, each with its
    label and its cells, under the input's columns other than "extreme"; and
    it is well formed when the input is. *)
Theorem filter_returns_rows_of_the_input
    (df : DataFrame) (features : list string) (pct : Q) (out : DataFrame) :
  well_formed df ->
  snd (filter_extremes_based_on_percentile df features pct) = Ok out ->
  (exists keep : list bool,
      List.length keep = List.length (index df)
      /\ index out = mask_select keep (index df)
      /\ columns out
         = map (fun nc => (fst nc, select_column keep (snd nc)))
               (filter (fun nc => negb (String.eqb extreme (fst nc))) (columns df)))
  /\ well_formed out
  /\ has_column extreme out = false.
Proof.
  intros Hwf Hout.
  destruct (filter_returns_selection df features pct out Hout) as (flags & L & ->).
  split; [|split].
  - exists (map negb flags). split; [rewrite length_map; exact L|].
    split; [reflexivity|].
    unfold drop_column, select_rows. cbn [columns index].
    apply (filter_names_map (fun n => negb (String.eqb extreme n))).
  - apply drop_column_well_formed, select_rows_well_formed, Hwf.
  - unfold has_column, drop_column. cbn [columns].
    rewrite lookup_filter_names. reflexivity.
Qed.

Lemma filter_returns_rows_witness :
  (exists keep : list bool,
      List.length keep = List.length (index sample_frame)
      /\ index (mkDataFrame [11; 12; 13]%Z
                  [("a", FloatCol [Fin 2; Fin 3; Fin 4]);
                   ("structure_name", StrCol ["y"; "x"; "y"])])
         = mask_select keep (index sample_frame)
      /\ columns (mkDataFrame [11; 12; 13]%Z
                  [("a", FloatCol [Fin 2; Fin 3; Fin 4]);
                   ("structure_name", StrCol ["y"; "x"; "y"])])
         = map (fun nc => (fst nc, select_column keep (snd nc)))
               (filter (fun nc => negb (String.eqb extreme (fst nc)))
                       (columns sample_frame)))
  /\ well_formed (mkDataFrame [11; 12; 13]%Z
                  [("a", FloatCol [Fin 2; Fin 3; Fin 4]);
                   ("structure_name", StrCol ["y"; "x"; "y"])])
  /\ has_column extreme (mkDataFrame [11; 12; 13]%Z
                  [("a", FloatCol [Fin 2; Fin 3; Fin 4]);
                   ("structure_name", StrCol ["y"; "x"; "y"])]) = false.
Proof.
  apply (filter_returns_rows_of_the_input sample_frame ["a"] 10).
  - repeat constructor.
  - reflexivity.
Defined.

(** ** Sorting and the percentiles at 0 and 100 *)

Lemma insert_sorted_perm (x : fl) (l : list fl) :
  Permutation (insert_sorted x l) (x :: l).
Proof.
  induction l as [|y l IH]; simpl; [reflexivity|].
  destruct (sort_leb x y); [reflexivity|].
  rewrite IH. apply perm_swap.
Qed.

Lemma np_sort_perm (l : list fl) : Permutation (np_sort l) l.
Proof.
  induction l as [|x l IH]; simpl; [reflexivity|].
  rewrite insert_sorted_perm. constructor. exact IH.
Qed.

Lemma existsb_nan_false (l : list fl) : existsb fl_is_nan l = false <-> no_nan l.
Proof.
  unfold no_nan. induction l as [|x l IH]; simpl.
  - split; [constructor | reflexivity].
  - rewrite orb_false_iff, IH. split.
    + intros [H1 H2]. constructor; assumption.
    + intro H. inversion H; subst. auto.
Qed.

Lemma fl_leb_trans (a b c : fl) :
  fl_leb a b = true -> fl_leb b c = true -> fl_leb a c = true.
Proof.
  destruct a, b, c; simpl; try discriminate; try reflexivity.
  rewrite !Qle_bool_iff. apply Qle_trans.
Qed.

Lemma fl_leb_total (a b : fl) :
  fl_is_nan a = false -> fl_is_nan b = false ->
  fl_leb a b = false -> fl_leb b a = true.
Proof.
  destruct a, b; simpl; try discriminate; try reflexivity.
  intros _ _ H. apply Qle_bool_iff.
  destruct (Qle_bool q q0) eqn:E; [discriminate|].
  apply Qlt_le_weak, Qnot_le_lt. intro Hle. apply Qle_bool_iff in Hle. congruence.
Qed.

Lemma fl_leb_refl (a : fl) : fl_is_nan a = false -> fl_leb a a = true.
Proof. destruct a; simpl; try discriminate; try reflexivity. intros _. apply Qle_bool_iff, Qle_refl. Qed.

Lemma insert_sorted_in_order (x : fl) (l : list fl) :
  fl_is_nan x = false -> no_nan l -> in_order l -> in_order (insert_sorted x l).
Proof.
  intros Hx. induction l as [|y l IH]; intros Hn Ho; simpl.
  - split; constructor.
  - inversion Hn as [|? ? Hy Hl]; subst. destruct Ho as [Hy' Ho].
    unfold sort_leb. cbn [is_nan leb exact_ops]. rewrite Hx, Hy. simpl.
    destruct (fl_leb x y) eqn:E.
    + split; [|split; assumption].
      constructor; [exact E|].
      revert Hy'. apply Forall_impl. intros z Hz. apply (fl_leb_trans x y z); assumption.
    + split; [|apply IH; assumption].
      apply (Permutation_Forall (x := x :: l)).
      * symmetry. apply insert_sorted_perm.
      * constructor; [apply fl_leb_total; assumption | exact Hy'].
Qed.

Lemma np_sort_in_order (l : list fl) : no_nan l -> in_order (np_sort l).
Proof.
  induction l as [|x l IH]; intro Hn; simpl; [exact I|].
  inversion Hn; subst.
  apply insert_sorted_in_order; auto.
  apply (Permutation_Forall (x := l)); [symmetry; apply np_sort_perm | assumption].
Qed.

Lemma in_order_first (l : list fl) (d : fl) (x : fl) :
  no_nan l -> in_order l -> In x l -> fl_leb (nth 0 l d) x = true.
Proof.
  destruct l as [|y l]; simpl; [tauto|].
  intros Hn [Hy _] [<-|Hin].
  - inversion Hn; subst. apply fl_leb_refl. assumption.
  - rewrite Forall_forall in Hy. auto.
Qed.

Lemma in_order_last (l : list fl) (d : fl) (x : fl) :
  no_nan l -> in_order l -> In x l ->
  fl_leb x (nth (List.length l - 1) l d) = true.
Proof.
  induction l as [|y l IH]; [simpl; tauto|].
  intros Hn [Hy Ho] Hin. inversion Hn as [|? ? Hyn Hln]; subst.
  destruct l as [|z l].
  - destruct Hin as [->|[]]. apply fl_leb_refl. assumption.
  - replace (List.length (y :: z :: l) - 1)%nat with (S (List.length l))
      by (simpl; lia).
    replace (List.length (z :: l) - 1)%nat with (List.length l) in IH
      by (simpl; lia).
    change (nth (S (List.length l)) (y :: z :: l) d)
      with (nth (List.length l) (z :: l) d).
    destruct Hin as [->|Hin].
    + rewrite Forall_forall in Hy. apply Hy. apply nth_In. simpl. lia.
    + apply IH; assumption.
Qed.

Lemma fl_ltb_not_below (r a x : fl) :
  r = NaN \/ fl_same r a -> fl_leb a x = true -> fl_ltb x r = false.
Proof.
  intros [->|H]; [intros _; apply fl_ltb_nan_r|].
  destruct r, a, x; simpl in *; try contradiction; try discriminate; try reflexivity.
  intro Hle. apply Qle_bool_iff in Hle. unfold Qltb.
  apply negb_false_iff, Qle_bool_iff. rewrite H. exact Hle.
Qed.

Lemma fl_ltb_not_above (r a x : fl) :
  r = NaN \/ fl_same r a -> fl_leb x a = true -> fl_ltb r x = false.
Proof.
  intros [->|H]; [intros _; apply fl_ltb_nan_l|].
  destruct r, a, x; simpl in *; try contradiction; try discriminate; try reflexivity.
  intro Hle. apply Qle_bool_iff in Hle. unfold Qltb.
  apply negb_false_iff, Qle_bool_iff. rewrite H. exact Hle.
Qed.

Lemma round64_Qeq (x y : Q) : x == y -> round64 x = round64 y.
Proof. apply round_to_Qeq. Qed.

(** A product with zero is zero, or nan when the other factor is not
    finite. *)
Lemma mul64_zero_l (x : fl) : mul64 (Fin 0) x = Fin 0 \/ mul64 (Fin 0) x = NaN.
Proof.
  destruct x as [| |q|]; auto; left; unfold mul64, fl_mul, np_float64;
    rewrite (round64_Qeq (0 * q) 0) by ring; reflexivity.
Qed.

Lemma mul64_zero_r (x : fl) : mul64 x (Fin 0) = Fin 0 \/ mul64 x (Fin 0) = NaN.
Proof.
  destruct x as [| |q|]; auto; left; unfold mul64, fl_mul, np_float64;
    rewrite (round64_Qeq (q * 0) 0) by ring; reflexivity.
Qed.

Lemma sub64_zero (b : fl) : sub64 b (Fin 0) = add64 b (Fin 0).
Proof.
  destruct b; reflexivity.
Qed.

Lemma add64_nan (b : fl) : add64 b NaN = NaN.
Proof. destruct b; reflexivity. Qed.

Lemma sub64_nan (b : fl) : sub64 b NaN = NaN.
Proof. destruct b; reflexivity. Qed.

Lemma mul64_nan (x : fl) : mul64 NaN x = NaN.
Proof. reflexivity. Qed.

(** The difference of an entry with itself. *)
Lemma array_diff_same (ints : bool) (b : fl) :
  array_diff ints b b = Fin 0 \/ array_diff ints b b = NaN.
Proof.
  unfold array_diff. destruct ints.
  - destruct b as [| |q|]; auto; left; rewrite Z.sub_diag; reflexivity.
  - destruct b as [| |q|]; auto; left;
      unfold sub64, fl_sub, fl_add, fl_neg, np_float64;
      rewrite (round64_Qeq (q + - q) 0) by ring; reflexivity.
Qed.

(** The interpolation between an entry and itself is that entry, whatever
    the weight, or nan. *)
Lemma lerp_same (ints : bool) (b b' t : fl) :
  let r := lerp b' b' (array_diff ints b b) t in
  r = NaN \/ r = add64 b' (Fin 0).
Proof.
  unfold lerp.
  destruct (array_diff_same ints b) as [-> | ->].
  - destruct (fl_leb (Fin (1 # 2)) t).
    + destruct (mul64_zero_l (sub64 (Fin 1) t)) as [-> | ->].
      * right. apply sub64_zero.
      * left. apply sub64_nan.
    + destruct (mul64_zero_l t) as [-> | ->].
      * right. reflexivity.
      * left. apply add64_nan.
  - left. rewrite !mul64_nan. destruct (fl_leb (Fin (1 # 2)) t).
    + apply sub64_nan.
    + apply add64_nan.
Qed.

(** A binary64 number is not changed by the cast, nor by adding zero. *)
Lemma binary64_add_zero (b : fl) :
  binary64 b -> fl_same (add64 (np_float64 b) (Fin 0)) b.
Proof.
  destruct b as [| |q|]; try (intros _; exact I).
  intros (q' & Hq & E). cbn [np_float64]. rewrite Hq.
  unfold add64, fl_add, np_float64.
  rewrite (round64_Qeq (q' + 0) q) by (rewrite E; ring).
  rewrite Hq. exact E.
Qed.

Lemma binary64_cast (b : fl) : binary64 b -> fl_same (np_float64 b) b.
Proof.
  destruct b as [| |q|]; try (intros _; exact I).
  intros (q' & Hq & E). unfold np_float64. rewrite Hq. exact E.
Qed.

Lemma Forall_nth_default {A : Type} (P : A -> Prop) (l : list A) (d : A) (i : nat) :
  Forall P l -> P d -> P (nth i l d).
Proof.
  intros Hl Hd. destruct (Nat.lt_ge_cases i (List.length l)) as [Hi|Hi].
  - rewrite Forall_forall in Hl. apply Hl. apply nth_In. exact Hi.
  - rewrite nth_overflow by exact Hi. exact Hd.
Qed.

(** The number of entries less one, as a float: exact up to 2^53 entries. *)
Lemma last_index_exact (n : nat) :
  (1 <= n)%nat -> (Z.of_nat n <= 2 ^ 53)%Z ->
  exists k, round64 (inject_Z (Z.of_nat n - 1)) = Fin k
            /\ k == inject_Z (Z.of_nat n - 1).
Proof.
  intros H1 H53. apply round_to_integer; lia.
Qed.

Lemma np_take_last (s : list fl) :
  s <> [] -> np_take s (-1) = nth (List.length s - 1) s NaN.
Proof.
  intro Hs. unfold np_take. cbn [Z.ltb Z.compare].
  f_equal. destruct s; [contradiction|]. cbn [List.length]. lia.
Qed.

(** The quantile 1 of a sorted array is its last entry, or nan. *)
Lemma quantile_at_1 (ints : bool) (s : list fl) :
  s <> [] -> (Z.of_nat (List.length s) <= 2 ^ 53)%Z ->
  let r := quantile_of_sorted ints s (Fin 1) in
  r = NaN
  \/ r = add64 (np_float64 (nth (List.length s - 1) s NaN)) (Fin 0).
Proof.
  intros Hs H53.
  destruct (last_index_exact (List.length s)) as (k & Hk & Ek); [|exact H53|].
  { destruct s; [contradiction | cbn [List.length]; lia]. }
  unfold quantile_of_sorted.
  change (np_float64 (fl_of_Z (Z.of_nat (List.length s) - 1)))
    with (round64 (inject_Z (Z.of_nat (List.length s) - 1))).
  rewrite Hk.
  assert (Hv : mul64 (Fin k) (Fin 1) = Fin k).
  { unfold mul64, fl_mul, np_float64.
    rewrite (round64_Qeq (k * 1) (inject_Z (Z.of_nat (List.length s) - 1)))
      by (rewrite Ek; ring).
    exact Hk. }
  rewrite Hv.
  assert (Hle : fl_leb (Fin k) (Fin k) = true) by (apply Qle_bool_iff, Qle_refl).
  assert (Hlt : fl_ltb (Fin k) (Fin 0) = false).
  { unfold fl_ltb, Qltb. apply negb_false_iff, Qle_bool_iff. rewrite Ek.
    change 0 with (inject_Z 0). rewrite <- Zle_Qle.
    destruct s; [contradiction | cbn [List.length]; lia]. }
  rewrite Hle, Hlt. cbn [fl_is_nan].
  change (intp (Fin (-1))) with (-1)%Z.
  rewrite np_take_last by exact Hs.
  apply lerp_same.
Qed.

(** The quantile 0 of a sorted array is its first entry, or nan. *)
Lemma quantile_at_0 (ints : bool) (s : list fl) :
  s <> [] -> (Z.of_nat (List.length s) <= 2 ^ 53)%Z ->
  let r := quantile_of_sorted ints s (Fin 0) in
  r = NaN \/ r = add64 (np_float64 (nth 0 s NaN)) (Fin 0).
Proof.
  intros Hs H53.
  destruct (last_index_exact (List.length s)) as (k & Hk & Ek); [|exact H53|].
  { destruct s; [contradiction | cbn [List.length]; lia]. }
  unfold quantile_of_sorted.
  change (np_float64 (fl_of_Z (Z.of_nat (List.length s) - 1)))
    with (round64 (inject_Z (Z.of_nat (List.length s) - 1))).
  rewrite Hk.
  assert (Hv : mul64 (Fin k) (Fin 0) = Fin 0).
  { unfold mul64, fl_mul, np_float64.
    rewrite (round64_Qeq (k * 0) 0) by ring. reflexivity. }
  rewrite Hv.
  change (fl_ltb (Fin 0) (Fin 0)) with false. cbn [fl_is_nan].
  destruct (fl_leb (Fin k) (Fin 0)) eqn:Hle.
  - (* one entry *)
    assert (Hone : (List.length s - 1 = 0)%nat).
    { apply Qle_bool_iff in Hle. rewrite Ek in Hle.
      change 0 with (inject_Z 0) in Hle. rewrite <- Zle_Qle in Hle. lia. }
    change (intp (Fin (-1))) with (-1)%Z.
    rewrite np_take_last by exact Hs. rewrite Hone.
    apply lerp_same.
  - change (intp (fl_floor (Fin 0))) with 0%Z.
    change (intp (add64 (fl_floor (Fin 0)) (Fin 1))) with 1%Z.
    change (sub64 (Fin 0) (fl_floor (Fin 0))) with (Fin 0).
    unfold np_take. cbn [Z.ltb Z.compare Z.to_nat Pos.to_nat Pos.iter_op Nat.add].
    unfold lerp. change (fl_leb (Fin (1 # 2)) (Fin 0)) with false. cbv iota.
    match goal with
    | |- context [mul64 ?d (Fin 0)] => destruct (mul64_zero_r d) as [-> | ->]
    end.
    + right. reflexivity.
    + left. apply add64_nan.
Qed.

Lemma fl_same_ltb_l (x y r : fl) : fl_same x y -> fl_ltb x r = fl_ltb y r.
Proof.
  destruct x, y, r; simpl; try contradiction; try reflexivity.
  intro E. unfold Qltb. f_equal.
  destruct (Qle_bool q1 q) eqn:A, (Qle_bool q1 q0) eqn:B; try reflexivity.
  - apply Qle_bool_iff in A. rewrite E in A. apply Qle_bool_iff in A. congruence.
  - apply Qle_bool_iff in B. rewrite <- E in B. apply Qle_bool_iff in B. congruence.
Qed.

Lemma fl_same_ltb_r (x y r : fl) : fl_same x y -> fl_ltb r x = fl_ltb r y.
Proof.
  destruct x, y, r; simpl; try contradiction; try reflexivity.
  intro E. unfold Qltb. f_equal.
  destruct (Qle_bool q q1) eqn:A, (Qle_bool q0 q1) eqn:B; try reflexivity.
  - apply Qle_bool_iff in A. rewrite E in A. apply Qle_bool_iff in A. congruence.
  - apply Qle_bool_iff in B. rewrite <- E in B. apply Qle_bool_iff in B. congruence.
Qed.

(** Of numbers without a nan, none is strictly below the quantile 0 or
    strictly above the quantile 1. *)
Lemma quantiles_at_0_and_1 (ints : bool) (l : list fl) (y : fl) :
  no_nan l -> Forall binary64 l -> (Z.of_nat (List.length l) <= 2 ^ 53)%Z ->
  In y l ->
  outside (quantile_of_sorted ints (np_sort l) (Fin 0))
          (quantile_of_sorted ints (np_sort l) (Fin 1)) y = false.
Proof.
  intros Hn Hb H53 Hy.
  pose proof (np_sort_in_order l Hn) as Ho.
  assert (Hns : no_nan (np_sort l)).
  { apply (Permutation_Forall (x := l)); [symmetry; apply np_sort_perm | exact Hn]. }
  assert (Hbs : Forall binary64 (np_sort l)).
  { apply (Permutation_Forall (x := l)); [symmetry; apply np_sort_perm | exact Hb]. }
  assert (Hin : In y (np_sort l)).
  { apply (Permutation_in (l := l)); [symmetry; apply np_sort_perm | exact Hy]. }
  assert (Hne : np_sort l <> []).
  { intro E. rewrite E in Hin. inversion Hin. }
  assert (Hlen : (Z.of_nat (List.length (np_sort l)) <= 2 ^ 53)%Z).
  { rewrite (Permutation_length (np_sort_perm l)). exact H53. }
  unfold outside. apply orb_false_iff. split.
  - apply (fl_ltb_not_below _ (nth 0 (np_sort l) NaN)).
    + destruct (quantile_at_0 ints (np_sort l) Hne Hlen) as [E|E];
        [left; exact E | right].
      rewrite E. apply binary64_add_zero.
      apply Forall_nth_default; [exact Hbs | exact I].
    + apply in_order_first; assumption.
  - apply (fl_ltb_not_above _ (nth (List.length (np_sort l) - 1) (np_sort l) NaN)).
    + destruct (quantile_at_1 ints (np_sort l) Hne Hlen) as [E|E];
        [left; exact E | right].
      rewrite E. apply binary64_add_zero.
      apply Forall_nth_default; [exact Hbs | exact I].
    + apply in_order_last; assumption.
Qed.

(** At [pct = 0] the two cutoffs are the smallest and the largest value (or
    nan): no value is strictly below the one or strictly above the other. *)
Lemma np_percentile2_at_0 (c : column) (v : list fl) (lo hi : fl) :
  binary64_column c -> (Z.of_nat (column_length c) <= 2 ^ 53)%Z ->
  numeric c -> as_float64s c = Ok v ->
  np_percentile2 c 0 = Ok (lo, hi) ->
  forall x, In x v -> outside lo hi x = false.
Proof.
  intros Hb H53 Hnum Hv.
  rewrite (np_percentile2_accepts c 0)
    by (apply accepted_in_range; split; discriminate).
  change (div64 (sub64 (Fin 100) (Fin 0)) (Fin 100)) with (Fin 1).
  change (div64 (Fin 0) (Fin 100)) with (Fin 0).
  destruct (column_length c =? 0)%nat; [discriminate|].
  destruct c as [v0|v0|v0|v0|v0]; cbn [numeric] in Hnum; try contradiction;
    cbn [as_float64s as_floats] in Hv; injection Hv as <-;
    cbn [binary64_column column_length] in Hb, H53; cbv beta zeta.
  - destruct (existsb fl_is_nan v0) eqn:En.
    + intro E. injection E as <- <-. intros x _. unfold outside.
      rewrite fl_ltb_nan_l, fl_ltb_nan_r. reflexivity.
    + apply existsb_nan_false in En.
      intro E. injection E as <- <-. intros x Hx.
      apply quantiles_at_0_and_1; assumption.
  - intro E. injection E as <- <-. intros x Hx.
    apply in_map_iff in Hx. destruct Hx as (z & <- & Hz).
    assert (Hsame : fl_same (np_float64 (fl_of_Z z)) (fl_of_Z z)).
    { apply binary64_cast. rewrite Forall_forall in Hb. apply Hb. exact Hz. }
    unfold outside.
    rewrite (fl_same_ltb_l _ _ _ Hsame), (fl_same_ltb_r _ _ _ Hsame).
    apply (quantiles_at_0_and_1 true (map fl_of_Z v0) (fl_of_Z z)).
    + apply Forall_forall. intros y Hy. apply in_map_iff in Hy.
      destruct Hy as (w & <- & _). reflexivity.
    + apply Forall_forall. intros y Hy. apply in_map_iff in Hy.
      destruct Hy as (w & <- & Hw). rewrite Forall_forall in Hb. apply Hb. exact Hw.
    + rewrite length_map. exact H53.
    + apply in_map. exact Hz.
Qed.

Lemma map_negb_repeat_false (n : nat) : map negb (repeat false n) = repeat true n.
Proof. induction n; simpl; congruence. Qed.

(** X2.  With an empty feature list the filter looks at nothing: whatever
    the percentage, in range or not, and whatever the frame, even one
    without rows, it returns every row of the frame under its columns other
    than "extreme", and leaves the all-False column "extreme" on the frame it
    was given. *)
Theorem filter_without_features_returns_every_row (df : DataFrame) (pct : Q) :
  well_formed df ->
  filter_extremes_based_on_percentile df [] pct
  = (set_column extreme (BoolCol (repeat false (List.length (index df)))) df,
     Ok (drop_column extreme df)).
Proof.
  intro Hwf. unfold filter_extremes_based_on_percentile.
  fold (scratch (repeat false (List.length (index df))) df).
  cbn [flag_extremes]. rewrite not_extreme_scratch. cbn [bind].
  rewrite drop_select_scratch, map_negb_repeat_false, select_rows_all by exact Hwf.
  reflexivity.
Qed.

Lemma filter_without_features_witness :
  filter_extremes_based_on_percentile sample_frame [] 250
  = (set_column extreme (BoolCol (repeat false (List.length (index sample_frame))))
       sample_frame,
     Ok (drop_column extreme sample_frame)).
Proof.
  apply (filter_without_features_returns_every_row sample_frame 250).
  repeat constructor.
Defined.

Lemma extreme_on_at_0 (df : DataFrame) (f : string) (i : nat) :
  well_formed df -> (Z.of_nat (List.length (index df)) <= 2 ^ 53)%Z ->
  readable f df -> holds_binary64 f df ->
  (i < List.length (index df))%nat ->
  extreme_on df 0 i f = false.
Proof.
  intros Hwf H53 (c & Hc & Hnum) Hb Hi. unfold extreme_on, cutoffs, get_column.
  rewrite Hc. cbn [bind].
  destruct (numeric_float64s c Hnum) as (v & Hv). rewrite Hv.
  destruct (np_percentile2 c 0) as [[lo hi]|e] eqn:Hp; [|reflexivity].
  apply (np_percentile2_at_0 c v lo hi (Hb c Hc)); try assumption.
  - rewrite (column_length_frame f df c Hwf Hc). exact H53.
  - apply nth_In. rewrite (readable_length f df c v Hwf Hc Hv). exact Hi.
Qed.

Lemma extreme_on_any_at_0 (df : DataFrame) (features : list string) (i : nat) :
  well_formed df -> (Z.of_nat (List.length (index df)) <= 2 ^ 53)%Z ->
  Forall (fun f => readable f df /\ holds_binary64 f df) features ->
  (i < List.length (index df))%nat ->
  existsb (extreme_on df 0 i) features = false.
Proof.
  intros Hwf H53 Hall Hi. induction features as [|f rest IH]; [reflexivity|].
  inversion Hall as [|? ? [Hr Hb] Hrest]; subst.
  cbn [existsb]. rewrite (IH Hrest), orb_false_r.
  apply extreme_on_at_0; assumption.
Qed.

Lemma binary64_counting (a n : nat) :
  (Z.of_nat (a + n) <= 2 ^ 53)%Z ->
  binary64_column (FloatCol (map (fun i => fl_of_Z (Z.of_nat i)) (seq a n))).
Proof.
  intros Hle. cbn [binary64_column].
  apply Forall_forall. intros x Hx. apply in_map_iff in Hx.
  destruct Hx as (i & <- & Hi). apply in_seq in Hi.
  destruct (round_to_integer 53 (-1074) 1024 (Z.of_nat i)) as (v & Hv & Ev);
    try lia.
  exists v. split; [exact Hv | exact Ev].
Qed.

(** X3.  At [pct = 0] the cutoffs are the smallest and the largest value of
    each feature (or nan, when a feature holds a nan or an infinity), so no
    record is strictly outside them: on a frame with at least one and at
    most 2^53 records, for features other than the scratch column "extreme"
    that are columns of binary64 numbers or of integers that binary64 holds
    exactly, the filter returns every record, under the columns other than
    "extreme". *)
Theorem filter_at_zero_percent_keeps_every_row
    (df : DataFrame) (features : list string) :
  well_formed df -> index df <> [] ->
  (Z.of_nat (List.length (index df)) <= 2 ^ 53)%Z ->
  ~ In extreme features ->
  Forall (fun f => readable f df /\ holds_binary64 f df) features ->
  snd (filter_extremes_based_on_percentile df features 0)
  = Ok (drop_column extreme df).
Proof.
  intros Hwf Hne H53 Hnin Hall.
  assert (Hread : Forall (fun f => readable f df) features).
  { revert Hall. apply Forall_impl. intros f [H _]. exact H. }
  unfold filter_extremes_based_on_percentile.
  fold (scratch (repeat false (List.length (index df))) df).
  assert (Hpct : 0 <= 0 /\ 0 <= 100) by (split; discriminate).
  destruct (flag_extremes_flags df 0 Hwf Hne Hpct features
              (repeat false (List.length (index df))) Hnin Hread
              (repeat_length _ _)) as (flags & Hrun & Hlen & Hnth).
  rewrite Hrun. cbn [snd]. rewrite not_extreme_scratch. cbn [bind].
  rewrite drop_select_scratch.
  assert (E : flags = repeat false (List.length (index df))).
  { apply (nth_ext _ _ false false).
    - rewrite repeat_length. exact Hlen.
    - intros i Hi. rewrite Hnth, nth_repeat, orb_false_r.
      apply extreme_on_any_at_0; [exact Hwf | exact H53 | exact Hall | congruence]. }
  rewrite E, map_negb_repeat_false, select_rows_all by exact Hwf.
  reflexivity.
Qed.

(** The numbers 0, 1, ..., 100, whose smallest and largest are the cutoffs
    at 0 percent, and a column of int64 next to it. *)
Lemma filter_at_zero_percent_witness :
  snd (filter_extremes_based_on_percentile hundred ["a"] 0)
  = Ok (drop_column extreme hundred).
Proof.
  apply (filter_at_zero_percent_keeps_every_row hundred ["a"]).
  - repeat constructor.
  - discriminate.
  - vm_compute. discriminate.
  - simpl. intros [H|[]]. discriminate.
  - constructor; [|constructor]. split.
    + eexists. split; [reflexivity | exact I].
    + intros c Hc.
      assert (E : c = FloatCol (map (fun i => fl_of_Z (Z.of_nat i)) (seq 0 101)))
        by (injection Hc as <-; reflexivity).
      rewrite E. apply (binary64_counting 0 101). discriminate.
Defined.

(** ** The digitizer: when it returns and what it returns *)

Lemma shape_mode_bins_below_two (nbins : Z) :
  (nbins < 2)%Z ->
  shape_mode_bins (F := fl) nbins
  = Raise (if (nbins =? 1)%Z then ZeroDivisionError
           else if (nbins =? 0)%Z then IndexError
           else ValueError "Number of samples must be non-negative.").
Proof.
  intro H. unfold shape_mode_bins, bin_half_width.
  destruct (Z.eqb_spec nbins 1) as [->|H1]; [reflexivity|].
  destruct (Z.eqb_spec (2 * (nbins - 1)) 0) as [E|_]; [lia|].
  cbn [bind]. unfold np_linspace.
  destruct (Z.eqb_spec nbins 0) as [->|H0]; [reflexivity|].
  destruct (Z.ltb_spec nbins 0) as [_|Hge]; [reflexivity | lia].
Qed.


Lemma np_digitize_length (xs bins : list fl) (idx : list Z) :
  np_digitize xs bins = Ok idx -> List.length idx = List.length xs.
Proof.
  unfold np_digitize.
  destruct (non_decreasing bins); [|destruct (non_increasing bins)];
    intro E; inversion E; subst; apply length_map.
Qed.

Lemma all_ok_map_returns {A B : Type} (f : A -> result B) (l : list A) :
  (exists bs, all_ok (map f l) = Ok bs) <-> Forall (fun x => exists b, f x = Ok b) l.
Proof.
  induction l as [|a l IH]; cbn [map all_ok].
  - split; [constructor | eauto].
  - split.
    + intros [bs H]. destruct (f a) as [b|e] eqn:Ea; cbn [bind] in H; [|discriminate].
      destruct (all_ok (map f l)) as [rest|e]; cbn [bind] in H; [|discriminate].
      constructor; [eauto | apply IH; eauto].
    + intro H. inversion H as [|? ? [b Hb] Hrest]; subst.
      destruct (proj2 IH Hrest) as [bs Hbs]. rewrite Hb, Hbs. cbn [bind]. eauto.
Qed.

Lemma cell_float32_returns (c : cell) :
  (exists x, cell_float32 c = Ok x) <-> reads_as_number c.
Proof.
  destruct c as [y|z|b|s]; cbn [cell_float32 reads_as_number].
  - split; eauto.
  - destruct (np_float64 (fl_of_Z z)) as [| |q|].
    + split; [intros [x H]; discriminate | intros [q H]; discriminate].
    + split; [intros [x H]; discriminate | intros [q H]; discriminate].
    + split; eauto.
    + split; [intros [x H]; discriminate | intros [q H]; discriminate].
  - split; eauto.
  - destruct (python_float s) as [y|].
    + split; [discriminate | eauto].
    + split; [intros [x H]; discriminate | congruence].
Qed.

(** The values of the feature are read exactly when the feature is a
    column that converts. *)
Lemma feature_values_returns (feature : string) (df : DataFrame) :
  (exists v, feature_values feature df = Ok v) <-> feature_converts feature df.
Proof.
  unfold feature_values, feature_converts, get_column.
  destruct (lookup feature (columns df)) as [c|]; cbn [bind].
  2:{ split; [intros [v H]; discriminate | intros (c & H & _); discriminate]. }
  assert (Hc : (exists v,
                   match c with
                   | FloatCol v0 => Ok (map np_float32 v0)
                   | IntCol v0 => Ok (map (fun z => np_float32 (fl_of_Z z)) v0)
                   | BoolCol v0 => Ok (map fl_of_bool v0)
                   | StrCol v0 => all_ok (map (fun s => cell_float32 (CStr s)) v0)
                   | ObjCol v0 => all_ok (map cell_float32 v0)
                   end = Ok v) <-> converts c).
  { destruct c as [v0|v0|v0|v0|v0]; cbn [converts]; try (split; eauto; fail).
    - rewrite all_ok_map_returns.
      split; apply Forall_impl; intros s; apply (cell_float32_returns (CStr s)).
    - rewrite all_ok_map_returns.
      split; apply Forall_impl; intros x; apply cell_float32_returns. }
  rewrite Hc. split; [eauto|]. intros (c' & E & H). injection E as <-. exact H.
Qed.

Lemma feature_values_column_length (feature : string) (df : DataFrame)
    (c : column) (v : list fl) :
  lookup feature (columns df) = Some c -> feature_values feature df = Ok v ->
  List.length v = column_length c.
Proof.
  unfold feature_values, get_column. intros ->. cbn [bind].
  destruct c as [v0|v0|v0|v0|v0]; cbn [column_length]; intro H.
  - injection H as <-. apply length_map.
  - injection H as <-. apply length_map.
  - injection H as <-. apply length_map.
  - rewrite (all_ok_length _ _ H). apply length_map.
  - rewrite (all_ok_length _ _ H). apply length_map.
Qed.

Lemma int_column_bin (idx : list Z) (df : DataFrame) :
  int_column "bin" (set_column "bin" (IntCol idx) df) = Ok idx.
Proof.
  unfold int_column, get_column, set_column. cbn [columns].
  rewrite lookup_assign_same. reflexivity.
Qed.

(** The call, step by step, once the feature is there, the filter has
    returned and the values are binned. *)
Lemma digitize_steps df feature nbins filter_based_on pct save flag
    caller out v centers edges idx :
  has_column feature df = true ->
  filter_extremes_based_on_percentile df filter_based_on pct = (caller, Ok out) ->
  feature_values feature out = Ok v ->
  shape_mode_bins (F := fl) nbins = Ok (centers, edges) ->
  np_digitize (fst (zscore v)) edges = Ok idx ->
  let df2 := set_column "bin" (IntCol idx) out in
  digitize_shape_mode df feature nbins filter_based_on pct save flag
  = mkOutcome caller
      (match save with
       | Some path => Some (String.append path ".txt", bin_counts idx)
       | None => None
       end)
      (df_agg <- groupby_bin_mean df2 ;;
       bin_indexes <- groupby_bin_indexes df2 ;;
       if flag then
         df_freq <- freqs_per_structs df2 ;;
         Ok (mkDigitized df_agg bin_indexes centers (snd (zscore v)) (Some df_freq))
       else
         Ok (mkDigitized df2 bin_indexes centers (snd (zscore v)) None)).
Proof.
  intros Hc Hf Hv Hb Hd df2. unfold digitize_shape_mode.
  rewrite Hc, Hf. cbn [negb]. rewrite Hv. cbn [bind].
  destruct (zscore v) as [z sd] eqn:Ez. cbn [fst snd] in *.
  rewrite Hb. cbn [bind]. rewrite Hd. cbn [bind]. reflexivity.
Qed.

(** Conversely, a call that returns has gone through these steps. *)
Lemma digitize_returned df feature nbins filter_based_on pct save flag r :
  returned (digitize_shape_mode df feature nbins filter_based_on pct save flag)
  = Ok r ->
  exists caller out v centers edges idx,
    has_column feature df = true
    /\ filter_extremes_based_on_percentile df filter_based_on pct = (caller, Ok out)
    /\ feature_values feature out = Ok v
    /\ shape_mode_bins (F := fl) nbins = Ok (centers, edges)
    /\ np_digitize (fst (zscore v)) edges = Ok idx.
Proof.
  unfold digitize_shape_mode.
  destruct (has_column feature df) eqn:Hc; [|discriminate]. cbn [negb].
  destruct (filter_extremes_based_on_percentile df filter_based_on pct)
    as [caller [out|e]] eqn:Hf; [|discriminate].
  destruct (feature_values feature out) as [v|e] eqn:Hv; [|discriminate].
  cbn [bind].
  destruct (zscore v) as [z sd] eqn:Ez.
  destruct (shape_mode_bins nbins) as [[centers edges]|e] eqn:Hb; [|discriminate].
  cbn [bind].
  destruct (np_digitize z edges) as [idx|e] eqn:Ed; [|discriminate].
  intros _. exists caller, out, v, centers, edges, idx.
  rewrite Ez. cbn [fst]. repeat split; reflexivity || assumption.
Qed.

(** X4.  [digitize_shape_mode] cannot be asked for fewer than two bins: the
    call raises for every [nbins < 2], whatever the other arguments.  When
    the feature is there, the filter returns and the feature is numeric, the
    exception is ZeroDivisionError for [nbins = 1] (the half width divides by
    [2*(nbins-1)]), IndexError for [nbins = 0] (there is no edge to set to
    -inf) and numpy's ValueError for a negative [nbins]; the caller's frame
    has got the column "extreme" by then. *)
Theorem digitize_raises_below_two_bins
    (df : DataFrame) (feature : string) (nbins : Z)
    (filter_based_on : list string) (pct : Q) (save : option string)
    (flag : bool) :
  (nbins < 2)%Z ->
  let run := digitize_shape_mode df feature nbins filter_based_on pct save flag in
  raised (returned run)
  /\ flog run = None
  /\ forall out v,
       has_column feature df = true ->
       snd (filter_extremes_based_on_percentile df filter_based_on pct) = Ok out ->
       feature_values feature out = Ok v ->
       returned run
       = Raise (if (nbins =? 1)%Z then ZeroDivisionError
                else if (nbins =? 0)%Z then IndexError
                else ValueError "Number of samples must be non-negative.")
       /\ has_column extreme (caller_frame run) = true.
Proof.
  intros H run. subst run. unfold digitize_shape_mode.
  destruct (has_column feature df); cbn [negb].
  2:{ split; [unfold raised; cbn; eauto|]. split; [reflexivity|].
      intros out v Hx. discriminate Hx. }
  pose proof (caller_frame_after_filter df filter_based_on pct) as (flags & Hcf & _ & Hex).
  destruct (filter_extremes_based_on_percentile df filter_based_on pct)
    as [caller [out|e]]; cbn [fst snd] in *.
  2:{ split; [unfold raised; cbn; eauto|]. split; [reflexivity|].
      intros out v _ Hx. discriminate Hx. }
  destruct (feature_values feature out) as [v|e] eqn:Hv; cbn [bind].
  2:{ split; [unfold raised; cbn; eauto|]. split; [reflexivity|].
      intros out' v _ Hx Hy. injection Hx as <-. rewrite Hv in Hy. discriminate Hy. }
  destruct (zscore v) as [z sd]. rewrite (shape_mode_bins_below_two nbins H).
  cbn [bind returned flog caller_frame].
  split; [unfold raised; eauto|]. split; [reflexivity|].
  intros out' v' _ _ _. split; [reflexivity | exact Hex].
Qed.

Lemma digitize_raises_below_two_bins_witness :
  let run := digitize_shape_mode sample_frame "a" 1 [] 1 None false in
  raised (returned run)
  /\ flog run = None
  /\ forall out v,
       has_column "a" sample_frame = true ->
       snd (filter_extremes_based_on_percentile sample_frame [] 1) = Ok out ->
       feature_values "a" out = Ok v ->
       returned run = Raise ZeroDivisionError
       /\ has_column extreme (caller_frame run) = true.
Proof.
  apply (digitize_raises_below_two_bins sample_frame "a" 1 [] 1 None false).
  reflexivity.
Defined.

(** *** The groups of a groupby on the bin *)

Lemma insert_key_In (x y : Z) (l : list Z) :
  In y (insert_key Z.leb Z.eqb x l) <-> y = x \/ In y l.
Proof.
  induction l as [|z l IH]; simpl.
  - intuition.
  - destruct (Z.eqb_spec x z) as [->|Hne].
    + simpl. intuition.
    + destruct (Z.leb_spec x z); simpl; [intuition|].
      rewrite IH. intuition.
Qed.

Lemma group_keys_In (b : Z) (l : list Z) :
  In b (group_keys Z.leb Z.eqb l) <-> In b l.
Proof.
  induction l as [|x l IH]; simpl; [tauto|].
  unfold group_keys in *. rewrite insert_key_In, IH. intuition.
Qed.

Lemma insert_key_sorted (x : Z) (l : list Z) :
  StronglySorted Z.lt l -> StronglySorted Z.lt (insert_key Z.leb Z.eqb x l).
Proof.
  induction l as [|z l IH]; intro Hs; simpl.
  - repeat constructor.
  - inversion Hs as [|? ? Hl Hz]; subst.
    destruct (Z.eqb_spec x z) as [->|Hne]; [exact Hs|].
    destruct (Z.leb_spec x z) as [Hle|Hgt].
    + constructor; [exact Hs|].
      constructor; [lia|]. revert Hz. apply Forall_impl. intros; lia.
    + constructor; [apply IH; exact Hl|].
      rewrite Forall_forall in *. intros y Hy.
      apply insert_key_In in Hy. destruct Hy as [->|Hy]; [lia | auto].
Qed.

Lemma group_keys_sorted (l : list Z) :
  StronglySorted Z.lt (group_keys Z.leb Z.eqb l).
Proof.
  induction l as [|x l IH]; simpl; [constructor|].
  apply insert_key_sorted. exact IH.
Qed.

Lemma sorted_NoDup (l : list Z) : StronglySorted Z.lt l -> NoDup l.
Proof.
  induction 1 as [|x l Hs IH Hx]; constructor; [|exact IH].
  intro Hin. rewrite Forall_forall in Hx. specialize (Hx x Hin). lia.
Qed.

Lemma mask_select_cons_eq {A : Type} (b b0 : Z) (bins : list Z) (i0 : A)
    (idx : list A) :
  mask_select (map (Z.eqb b) (b0 :: bins)) (i0 :: idx)
  = if Z.eqb b b0 then i0 :: mask_select (map (Z.eqb b) bins) idx
    else mask_select (map (Z.eqb b) bins) idx.
Proof. reflexivity. Qed.

Lemma groups_without (b0 : Z) (i0 : Z) (bins idx keys : list Z) :
  ~ In b0 keys ->
  map (fun b => mask_select (map (Z.eqb b) (b0 :: bins)) (i0 :: idx)) keys
  = map (fun b => mask_select (map (Z.eqb b) bins) idx) keys.
Proof.
  intro Hnin. apply map_ext_in. intros b Hb. rewrite mask_select_cons_eq.
  destruct (Z.eqb_spec b b0) as [->|_]; [contradiction | reflexivity].
Qed.

Lemma concat_map_split {A B : Type} (f : A -> list B) (k1 k2 : list A) (x : A) :
  List.concat (map f (k1 ++ x :: k2))
  = List.concat (map f k1) ++ f x ++ List.concat (map f k2).
Proof. rewrite map_app, concat_app. reflexivity. Qed.

(** The groups of distinct keys that cover the bins share out the rows. *)
Lemma groups_partition (keys : list Z) :
  NoDup keys ->
  forall bins idx : list Z,
    incl bins keys -> List.length bins = List.length idx ->
    Permutation
      (List.concat (map (fun b => mask_select (map (Z.eqb b) bins) idx) keys))
      idx.
Proof.
  intro Hnd. induction bins as [|b0 bins IH]; intros [|i0 idx] Hincl Hlen;
    try discriminate.
  - clear. induction keys as [|k keys IH]; simpl; [constructor | exact IH].
  - assert (Hin : In b0 keys) by (apply Hincl; left; reflexivity).
    destruct (in_split _ _ Hin) as (k1 & k2 & E).
    assert (Hn1 : ~ In b0 k1 /\ ~ In b0 k2).
    { rewrite E in Hnd. apply NoDup_remove_2 in Hnd.
      split; intro H; apply Hnd; apply in_or_app; auto. }
    destruct Hn1 as [Hn1 Hn2].
    specialize (IH idx (fun b H => Hincl b (or_intror H))
                  (f_equal pred Hlen)).
    rewrite E in IH |- *.
    rewrite concat_map_split in IH |- *.
    rewrite (groups_without b0 i0 bins idx k1 Hn1),
            (groups_without b0 i0 bins idx k2 Hn2).
    rewrite mask_select_cons_eq, Z.eqb_refl.
    cbn [app]. symmetry. apply Permutation_cons_app. symmetry. exact IH.
Qed.

Lemma group_not_empty (b : Z) (bins idx : list Z) :
  In b bins -> List.length bins = List.length idx ->
  mask_select (map (Z.eqb b) bins) idx <> [].
Proof.
  revert idx. induction bins as [|b0 bins IH]; intros [|i0 idx] Hin Hlen;
    try discriminate; [inversion Hin|].
  rewrite mask_select_cons_eq.
  destruct (Z.eqb_spec b b0) as [->|Hne]; [discriminate|].
  destruct Hin as [E|Hin]; [congruence|].
  apply IH; [exact Hin | simpl in Hlen; congruence].
Qed.

Lemma filter_result_well_formed df features pct out :
  well_formed df ->
  snd (filter_extremes_based_on_percentile df features pct) = Ok out ->
  well_formed out.
Proof.
  intros Hwf Hout.
  destruct (filter_returns_selection df features pct out Hout) as (flags & L & ->).
  apply drop_column_well_formed, select_rows_well_formed, Hwf.
Qed.

Lemma feature_values_length feature df v :
  well_formed df -> feature_values feature df = Ok v ->
  List.length v = List.length (index df).
Proof.
  intros Hwf Hv.
  destruct (proj1 (feature_values_returns feature df) (ex_intro _ v Hv))
    as (c & Hc & _).
  rewrite (feature_values_column_length feature df c v Hc Hv).
  apply (column_length_frame feature df c Hwf Hc).
Qed.

Lemma zscore_length v : List.length (fst (zscore v)) = List.length v.
Proof. unfold zscore. cbn [fst]. rewrite !length_map. reflexivity. Qed.

(** X5.  Every retained record is in exactly one group of the returned
    [bin_indexes].  When [digitize_shape_mode] returns, on a well-formed
    frame, the groups are listed by strictly increasing bin, none of them is
    empty, and their index lists taken together are the index of the
    filtered frame rearranged; the group of bin [b] lists, in row order, the
    labels of the rows whose "bin" is [b].  Without the frequency table the
    returned frame is the filtered frame with that "bin" column. *)
Theorem bin_indexes_share_out_the_records
    (df : DataFrame) (feature : string) (nbins : Z)
    (filter_based_on : list string) (pct : Q) (save : option string)
    (flag : bool) (r : digitized) :
  well_formed df ->
  returned (digitize_shape_mode df feature nbins filter_based_on pct save flag)
  = Ok r ->
  exists out bins,
    snd (filter_extremes_based_on_percentile df filter_based_on pct) = Ok out
    /\ List.length bins = List.length (index out)
    /\ (flag = false -> ret_df r = set_column "bin" (IntCol bins) out)
    /\ StronglySorted Z.lt (map fst (ret_bin_indexes r))
    /\ Forall (fun g => snd g <> []
                        /\ snd g = mask_select (map (Z.eqb (fst g)) bins) (index out))
              (ret_bin_indexes r)
    /\ Permutation (List.concat (map snd (ret_bin_indexes r))) (index out).
Proof.
  intros Hwf Hr.
  destruct (digitize_returned _ _ _ _ _ _ _ _ Hr)
    as (caller & out & v & centers & edges & idx & Hc & Hf & Hv & Hb & Hd).
  pose proof (digitize_steps df feature nbins filter_based_on pct save flag
                caller out v centers edges idx Hc Hf Hv Hb Hd) as Hrun.
  cbv zeta in Hrun. rewrite Hrun in Hr. cbn [returned] in Hr. clear Hrun.
  assert (Hout : snd (filter_extremes_based_on_percentile df filter_based_on pct)
                 = Ok out) by (rewrite Hf; reflexivity).
  pose proof (filter_result_well_formed df filter_based_on pct out Hwf Hout) as Hwo.
  assert (Hlen : List.length idx = List.length (index out)).
  { rewrite (np_digitize_length _ _ _ Hd), zscore_length.
    apply (feature_values_length feature); assumption. }
  exists out, idx. split; [exact Hout|]. split; [exact Hlen|].
  unfold groupby_bin_mean, groupby_bin_indexes in Hr.
  rewrite int_column_bin in Hr. cbn [bind] in Hr.
  set (groups := map (fun b => (b, mask_select (map (Z.eqb b) idx) (index out)))
                     (group_keys Z.leb Z.eqb idx)).
  assert (Hgroups : ret_bin_indexes r = groups).
  { destruct flag.
    - destruct (freqs_per_structs _) as [t|e]; [|discriminate].
      cbn [bind] in Hr. injection Hr as <-. reflexivity.
    - injection Hr as <-. reflexivity. }
  split.
  { intros ->. injection Hr as <-. reflexivity. }
  rewrite Hgroups. unfold groups. rewrite !map_map. cbn [fst snd].
  rewrite map_id.
  split; [apply group_keys_sorted|]. split.
  - rewrite Forall_map. apply Forall_forall. intros b Hb'. cbn [fst snd].
    split; [|reflexivity].
    apply group_not_empty; [apply group_keys_In; exact Hb' | exact Hlen].
  - apply groups_partition.
    + apply sorted_NoDup, group_keys_sorted.
    + intros b Hb'. apply group_keys_In. exact Hb'.
    + exact Hlen.
Qed.

Lemma bin_indexes_witness :
  exists r,
    returned (digitize_shape_mode frame_with_outlier "pc" 5 [] 1 None false) = Ok r
    /\ exists out bins,
         snd (filter_extremes_based_on_percentile frame_with_outlier [] 1) = Ok out
         /\ List.length bins = List.length (index out)
         /\ (false = false -> ret_df r = set_column "bin" (IntCol bins) out)
         /\ StronglySorted Z.lt (map fst (ret_bin_indexes r))
         /\ Forall (fun g => snd g <> []
                             /\ snd g = mask_select (map (Z.eqb (fst g)) bins)
                                                    (index out))
                   (ret_bin_indexes r)
         /\ Permutation (List.concat (map snd (ret_bin_indexes r))) (index out).
Proof.
  eexists. split; [vm_compute; reflexivity|].
  apply (bin_indexes_share_out_the_records frame_with_outlier "pc" 5 [] 1 None false).
  - repeat constructor.
  - vm_compute. reflexivity.
Defined.






(** ** Distinct values *)

Section Unique.
Context {A : Type} (eq : A -> A -> bool).
Hypothesis eq_spec : forall x y, reflect (x = y) (eq x y).

Lemma existsb_eq_In (x : A) (l : list A) : existsb (eq x) l = true <-> In x l.
Proof.
  rewrite existsb_exists. split.
  - intros (y & Hy & E). destruct (eq_spec x y); [subst; exact Hy | discriminate].
  - intro H. exists x. split; [exact H|]. destruct (eq_spec x x); congruence.
Qed.

Lemma pd_unique_In (x : A) (l : list A) : In x (pd_unique eq l) <-> In x l.
Proof.
  induction l as [|y l IH]; simpl; [tauto|].
  rewrite filter_In, IH. destruct (eq_spec y x) as [->|Hne]; simpl.
  - intuition.
  - intuition congruence.
Qed.

Lemma pd_unique_NoDup (l : list A) : NoDup (pd_unique eq l).
Proof.
  induction l as [|y l IH]; simpl; constructor.
  - rewrite filter_In. intros [_ H]. destruct (eq_spec y y); [discriminate | congruence].
  - apply NoDup_filter. exact IH.
Qed.

Lemma existsb_pd_unique (x : A) (l : list A) :
  existsb (eq x) (pd_unique eq l) = existsb (eq x) l.
Proof.
  apply eq_true_iff_eq. rewrite !existsb_eq_In. apply pd_unique_In.
Qed.

(** At most one distinct value: all the values are the first one. *)
Lemma pd_unique_one (l : list A) :
  (List.length (pd_unique eq l) <= 1)%nat <-> forall x y, In x l -> In y l -> x = y.
Proof.
  destruct l as [|a l]; simpl.
  - split; [intros _ x y [] | lia].
  - split.
    + intros Hlen.
      assert (Hnil : filter (fun y => negb (eq a y)) (pd_unique eq l) = []).
      { destruct (filter _ _); [reflexivity | simpl in Hlen; lia]. }
      assert (Hall : forall x, In x l -> x = a).
      { intros x Hx. apply (proj2 (pd_unique_In x l)) in Hx.
        destruct (eq_spec a x) as [E|Hne]; [congruence|].
        assert (Hin : In x (filter (fun y => negb (eq a y)) (pd_unique eq l))).
        { apply filter_In. split; [exact Hx|].
          destruct (eq_spec a x); [contradiction | reflexivity]. }
        rewrite Hnil in Hin. inversion Hin. }
      intros x y [<-|Hx] [<-|Hy]; auto.
      * symmetry. auto.
      * rewrite (Hall x Hx), (Hall y Hy). reflexivity.
    + intro Hall.
      assert (Hnil : filter (fun y => negb (eq a y)) (pd_unique eq l) = []).
      { destruct (filter _ _) as [|x rest] eqn:E; [reflexivity|].
        assert (Hin : In x (filter (fun y => negb (eq a y)) (pd_unique eq l)))
          by (rewrite E; left; reflexivity).
        apply filter_In in Hin. destruct Hin as [Hx Hne].
        apply (proj1 (pd_unique_In x l)) in Hx.
        rewrite (Hall a x (or_introl eq_refl) (or_intror Hx)) in Hne.
        destruct (eq_spec x x); [discriminate | congruence]. }
      rewrite Hnil. simpl. lia.
Qed.

Lemma pd_unique_first (l : list A) :
  nth_error (pd_unique eq l) 0 = nth_error l 0.
Proof. destruct l; reflexivity. Qed.

Lemma filter_split (p : A -> bool) (l a c : list A) (b : A) :
  filter p l = a ++ b :: c ->
  exists a' c', l = a' ++ b :: c' /\ filter p a' = a /\ filter p c' = c.
Proof.
  revert a. induction l as [|x l IH]; intros a H; cbn [filter] in H.
  - destruct a; discriminate.
  - destruct (p x) eqn:Px.
    + destruct a as [|y a]; cbn [app] in H; injection H as Hx Hl.
      * subst x. exists [], l. cbn [filter app]. auto.
      * subst y. destruct (IH a Hl) as (a' & c' & -> & Ha & Hc).
        exists (x :: a'), c'. cbn [filter app]. rewrite Px, Ha. auto.
    + destruct (IH a H) as (a' & c' & -> & Ha & Hc).
      exists (x :: a'), c'. cbn [filter app]. rewrite Px. auto.
Qed.

(** [pd.unique] lists the values in the order in which they first occur. *)
Lemma pd_unique_in_order (l : list A) : in_order_of_appearance (pd_unique eq l) l.
Proof.
  split; [apply pd_unique_NoDup|]. split; [intro b; apply pd_unique_In|].
  induction l as [|x l IH]; intros k1 b1 k2 b2 k3 E; cbn [pd_unique] in E.
  - destruct k1; discriminate.
  - destruct k1 as [|y k1]; cbn [app] in E; injection E as Hx Hl.
    + subst x. exists [], l. split; [reflexivity | intros []].
    + subst y.
      assert (Hb2 : In b2 (filter (fun y => negb (eq x y)) (pd_unique eq l))).
      { rewrite Hl. apply in_or_app. right. right. apply in_or_app. right.
        left. reflexivity. }
      apply filter_In in Hb2. destruct Hb2 as [_ Hne].
      destruct (filter_split _ _ _ _ _ Hl) as (a' & c' & Hu & _ & Hc).
      destruct (filter_split _ _ _ _ _ Hc) as (a2 & c2 & -> & _ & _).
      destruct (IH a' b1 a2 b2 c2 Hu) as (before & after & -> & Hnin).
      exists (x :: before), after. split; [reflexivity|].
      intros [->|Hin]; [|exact (Hnin Hin)].
      destruct (eq_spec b2 b2); [discriminate | congruence].
Qed.

End Unique.

Lemma list_sum_lengths {A : Type} (L : list (list A)) :
  list_sum (map (@List.length A) L) = List.length (List.concat L).
Proof.
  induction L as [|l L IH]; simpl; [reflexivity|].
  rewrite length_app, IH. reflexivity.
Qed.

Lemma list_sum_Permutation (l l' : list nat) :
  Permutation l l' -> list_sum l = list_sum l'.
Proof. induction 1; simpl; lia. Qed.

Lemma count_is_group_size (b : Z) (bins idx : list Z) :
  List.length bins = List.length idx ->
  List.length (filter (Z.eqb b) bins)
  = List.length (mask_select (map (Z.eqb b) bins) idx).
Proof.
  revert idx. induction bins as [|b0 bins IH]; intros [|i0 idx] Hlen;
    try discriminate; [reflexivity|].
  rewrite mask_select_cons_eq. cbn [filter].
  destruct (Z.eqb b b0); cbn [List.length]; rewrite (IH idx); auto.
Qed.

(** The bins in order of first appearance are the keys of the groups,
    rearranged. *)
Lemma unique_bins_are_group_keys (bins : list Z) :
  Permutation (pd_unique Z.eqb bins) (group_keys Z.leb Z.eqb bins).
Proof.
  apply NoDup_Permutation.
  - apply (pd_unique_NoDup Z.eqb Z.eqb_spec).
  - apply sorted_NoDup, group_keys_sorted.
  - intro b. rewrite (pd_unique_In Z.eqb Z.eqb_spec). symmetry. apply group_keys_In.
Qed.

(** X7.  The table of counts that is printed when [save] is given (to the
    file [save] followed by ".txt") counts every retained record once.  On
    a well-formed frame, when [digitize_shape_mode] returns, the table has
    one row for each bin that occurs in the column "bin" of the filtered
    frame, in the order in which the bins first occur there
    ([value_counts(sort=False)]), not in increasing order; its rows are
    those of the groups of [bin_indexes] rearranged, each with the bin and
    the number of records of the group, and the counts add up to the number
    of rows of the filtered frame.  (When printing, pandas abbreviates a
    table of more than 60 rows.)  Without [save] nothing is written. *)
Theorem report_counts_every_record
    (df : DataFrame) (feature : string) (nbins : Z)
    (filter_based_on : list string) (pct : Q) (save : option string)
    (flag : bool) (r : digitized) :
  well_formed df ->
  let run := digitize_shape_mode df feature nbins filter_based_on pct save flag in
  returned run = Ok r ->
  match save with
  | None => flog run = None
  | Some path =>
      exists out bins counts,
        snd (filter_extremes_based_on_percentile df filter_based_on pct) = Ok out
        /\ List.length bins = List.length (index out)
        /\ (flag = false -> ret_df r = set_column "bin" (IntCol bins) out)
        /\ Forall (fun g => snd g = mask_select (map (Z.eqb (fst g)) bins)
                                                (index out))
                  (ret_bin_indexes r)
        /\ flog run = Some (String.append path ".txt", counts)
        /\ in_order_of_appearance (map fst counts) bins
        /\ Permutation counts
                       (map (fun g => (fst g, List.length (snd g)))
                            (ret_bin_indexes r))
        /\ list_sum (map snd counts) = List.length (index out)
  end.
Proof.
  intros Hwf run Hr. subst run.
  destruct (digitize_returned _ _ _ _ _ _ _ _ Hr)
    as (caller & out & v & centers & edges & idx & Hc & Hf & Hv & Hb & Hd).
  pose proof (digitize_steps df feature nbins filter_based_on pct save flag
                caller out v centers edges idx Hc Hf Hv Hb Hd) as Hrun.
  cbv zeta in Hrun. rewrite Hrun in Hr |- *. cbn [returned flog] in *. clear Hrun.
  destruct save as [path|]; [|reflexivity].
  assert (Hout : snd (filter_extremes_based_on_percentile df filter_based_on pct)
                 = Ok out) by (rewrite Hf; reflexivity).
  pose proof (filter_result_well_formed df filter_based_on pct out Hwf Hout) as Hwo.
  assert (Hlen : List.length idx = List.length (index out)).
  { rewrite (np_digitize_length _ _ _ Hd), zscore_length.
    apply (feature_values_length feature); assumption. }
  unfold groupby_bin_mean, groupby_bin_indexes in Hr.
  rewrite int_column_bin in Hr. cbn [bind] in Hr.
  assert (Hgroups : ret_bin_indexes r
                    = map (fun b => (b, mask_select (map (Z.eqb b) idx) (index out)))
                          (group_keys Z.leb Z.eqb idx)).
  { destruct flag.
    - destruct (freqs_per_structs _) as [t|e]; [|discriminate].
      cbn [bind] in Hr. injection Hr as <-. reflexivity.
    - injection Hr as <-. reflexivity. }
  assert (Hperm : Permutation (bin_counts idx)
                    (map (fun g => (fst g, List.length (snd g))) (ret_bin_indexes r))).
  { rewrite Hgroups, map_map. cbn [fst snd set_column index]. unfold bin_counts.
    rewrite (map_ext (fun b => (b, List.length (filter (Z.eqb b) idx)))
                     (fun b => (b, List.length
                                     (mask_select (map (Z.eqb b) idx) (index out)))))
      by (intro b; f_equal; apply count_is_group_size; exact Hlen).
    apply Permutation_map, unique_bins_are_group_keys. }
  exists out, idx, (bin_counts idx).
  split; [exact Hout|]. split; [exact Hlen|]. split.
  { intros ->. injection Hr as <-. reflexivity. }
  split.
  { rewrite Hgroups, Forall_map. apply Forall_forall. intros b _. reflexivity. }
  split; [reflexivity|]. split.
  { unfold bin_counts. rewrite map_map. cbn [fst]. rewrite map_id.
    apply (pd_unique_in_order Z.eqb Z.eqb_spec). }
  split; [exact Hperm|].
  rewrite (list_sum_Permutation _ _ (Permutation_map snd Hperm)).
  rewrite Hgroups, !map_map. cbn [fst snd set_column index].
  rewrite <- (map_map (fun b => mask_select (map (Z.eqb b) idx) (index out))
                      (@List.length Z)).
  rewrite list_sum_lengths.
  apply Permutation_length. apply groups_partition.
  - apply sorted_NoDup, group_keys_sorted.
  - intros b Hb'. apply group_keys_In. exact Hb'.
  - exact Hlen.
Qed.

(** The first record is the outlier, in the last bin: its row is the first
    of the table. *)
Lemma report_counts_witness :
  exists r,
    let run := digitize_shape_mode frame_with_outlier "pc" 5 [] 1 (Some "log") false in
    returned run = Ok r
    /\ flog run = Some ("log.txt", [(5%Z, 1%nat); (3%Z, 4%nat)])
    /\ map fst (ret_bin_indexes r) = [3; 5]%Z
    /\ exists out bins counts,
         snd (filter_extremes_based_on_percentile frame_with_outlier [] 1) = Ok out
         /\ List.length bins = List.length (index out)
         /\ (false = false -> ret_df r = set_column "bin" (IntCol bins) out)
         /\ Forall (fun g => snd g = mask_select (map (Z.eqb (fst g)) bins)
                                                 (index out))
                   (ret_bin_indexes r)
         /\ flog run = Some (String.append "log" ".txt", counts)
         /\ in_order_of_appearance (map fst counts) bins
         /\ Permutation counts
                        (map (fun g => (fst g, List.length (snd g)))
                             (ret_bin_indexes r))
         /\ list_sum (map snd counts) = List.length (index out).
Proof.
  eexists. split; [vm_compute; reflexivity|].
  split; [vm_compute; reflexivity|]. split; [vm_compute; reflexivity|].
  apply (report_counts_every_record frame_with_outlier "pc" 5 [] 1 (Some "log") false).
  - repeat constructor.
  - vm_compute. reflexivity.
Defined.

(** ** The feature is checked first *)

(** X9.  [digitize_shape_mode] looks for the feature before anything else.
    Without the column it raises ValueError and has touched nothing: the
    frame is as it was and no report is written, whatever the other
    arguments.  With the column, the frame the caller passed in comes back
    with the filter's column "extreme" on it (one flag per row), whether the
    call then returns or raises. *)
Theorem digitize_checks_the_feature_first
    (df : DataFrame) (feature : string) (nbins : Z)
    (filter_based_on : list string) (pct : Q) (save : option string)
    (flag : bool) :
  let run := digitize_shape_mode df feature nbins filter_based_on pct save flag in
  if has_column feature df then
    exists flags,
      List.length flags = List.length (index df)
      /\ caller_frame run = set_column extreme (BoolCol flags) df
  else
    run = mkOutcome df None (Raise (ValueError "Column not found.")).
Proof.
  cbv zeta. unfold digitize_shape_mode.
  destruct (has_column feature df); cbn [negb]; [|reflexivity].
  destruct (caller_frame_after_filter df filter_based_on pct)
    as (flags & Hcf & Hlen & _).
  exists flags. split; [exact Hlen|]. fold (scratch flags df). rewrite <- Hcf.
  destruct (filter_extremes_based_on_percentile df filter_based_on pct)
    as [caller [out|e]]; cbn [fst]; [|reflexivity].
  destruct (values <- feature_values feature out ;; _)
    as [[[[df2 idx] centers] sd]|e]; reflexivity.
Qed.

(** ** From the digitizer to the animation *)

Lemma group_mean_length (keys bins : list Z) (c c' : column) :
  group_mean keys bins c = Some c' -> column_length c' = List.length keys.
Proof.
  unfold group_mean. destruct (as_floats c); [|discriminate].
  intro E. injection E as <-. cbn [column_length]. apply length_map.
Qed.

Lemma groupby_bin_mean_shape (df df_agg : DataFrame) :
  groupby_bin_mean df = Ok df_agg ->
  exists bins,
    int_column "bin" df = Ok bins
    /\ index df_agg = group_keys Z.leb Z.eqb bins
    /\ well_formed df_agg
    /\ has_column "bin" df_agg = false
    /\ forall name c, In (name, c) (columns df_agg) -> exists v, c = FloatCol v.
Proof.
  unfold groupby_bin_mean.
  destruct (int_column "bin" df) as [bins|e]; [|discriminate]. cbn [bind].
  intro E. injection E as <-. exists bins. split; [reflexivity|].
  split; [reflexivity|]. cbn [columns index].
  set (keys := group_keys Z.leb Z.eqb bins).
  assert (Hall : forall nc,
             In nc (flat_map
                      (fun nc => if String.eqb (fst nc) "bin" then []
                                 else match group_mean keys bins (snd nc) with
                                      | Some c => [(fst nc, c)]
                                      | None => []
                                      end) (columns df)) ->
             String.eqb (fst nc) "bin" = false
             /\ column_length (snd nc) = List.length keys
             /\ exists v, snd nc = FloatCol v).
  { intros nc Hin. apply in_flat_map in Hin. destruct Hin as ([n c] & _ & Hin).
    cbn [fst snd] in Hin.
    destruct (String.eqb n "bin") eqn:En; [inversion Hin|].
    destruct (group_mean keys bins c) as [c'|] eqn:Eg; [|inversion Hin].
    destruct Hin as [<-|[]]. cbn [fst snd]. split; [exact En|].
    split; [apply (group_mean_length keys bins c c' Eg)|].
    unfold group_mean in Eg. destruct (as_floats c); [|discriminate].
    injection Eg as <-. eauto. }
  split; [|split].
  - unfold well_formed. cbn [columns index]. apply Forall_forall.
    intros nc Hin. apply Hall in Hin. tauto.
  - unfold has_column. cbn [columns].
    destruct (lookup "bin" _) as [c|] eqn:El; [|reflexivity].
    apply lookup_In in El. apply Hall in El. cbn [fst] in El.
    destruct El as [El _]. discriminate.
  - intros name c Hin. apply Hall in Hin. tauto.
Qed.

(** X11.  What [digitize_shape_mode] returns with
    [return_freqs_per_structs] is what the animation step takes: the frame
    of per-bin means is well formed, has one row per group of [bin_indexes],
    labelled by the bins in the same, strictly increasing order (so no bin
    label occurs twice), has no "bin" column left, and holds floats only. *)
Theorem bin_means_match_the_groups
    (df : DataFrame) (feature : string) (nbins : Z)
    (filter_based_on : list string) (pct : Q) (save : option string)
    (r : digitized) :
  returned (digitize_shape_mode df feature nbins filter_based_on pct save true)
  = Ok r ->
  well_formed (ret_df r)
  /\ index (ret_df r) = map fst (ret_bin_indexes r)
  /\ StronglySorted Z.lt (index (ret_df r))
  /\ NoDup (map fst (ret_bin_indexes r))
  /\ has_column "bin" (ret_df r) = false
  /\ forall name c, In (name, c) (columns (ret_df r)) -> exists v, c = FloatCol v.
Proof.
  intro Hr.
  destruct (digitize_returned _ _ _ _ _ _ _ _ Hr)
    as (caller & out & v & centers & edges & idx & Hc & Hf & Hv & Hb & Hd).
  pose proof (digitize_steps df feature nbins filter_based_on pct save true
                caller out v centers edges idx Hc Hf Hv Hb Hd) as Hrun.
  cbv zeta in Hrun. rewrite Hrun in Hr. cbn [returned] in Hr. clear Hrun.
  destruct (groupby_bin_mean _) as [df_agg|e] eqn:Hagg; [|discriminate].
  cbn [bind] in Hr. unfold groupby_bin_indexes in Hr.
  rewrite int_column_bin in Hr. cbn [bind] in Hr.
  destruct (freqs_per_structs _) as [t|e]; [|discriminate].
  cbn [bind] in Hr. injection Hr as <-. cbn [ret_df ret_bin_indexes].
  destruct (groupby_bin_mean_shape _ _ Hagg) as (bins & Hbins & Hidx & Hwf & Hnb & Hfl).
  rewrite int_column_bin in Hbins. injection Hbins as <-.
  rewrite map_map. cbn [fst]. rewrite map_id.
  split; [exact Hwf|]. split; [exact Hidx|]. rewrite Hidx.
  split; [apply group_keys_sorted|].
  split; [apply sorted_NoDup, group_keys_sorted|].
  split; assumption.
Qed.

Lemma bin_means_match_witness :
  exists r,
    returned (digitize_shape_mode frame_with_outlier "pc" 5 [] 1 None true) = Ok r
    /\ well_formed (ret_df r)
    /\ index (ret_df r) = map fst (ret_bin_indexes r)
    /\ StronglySorted Z.lt (index (ret_df r))
    /\ NoDup (map fst (ret_bin_indexes r))
    /\ has_column "bin" (ret_df r) = false
    /\ forall name c, In (name, c) (columns (ret_df r)) -> exists v, c = FloatCol v.
Proof.
  eexists. split; [vm_compute; reflexivity|].
  apply (bin_means_match_the_groups frame_with_outlier "pc" 5 [] 1 None).
  vm_compute. reflexivity.
Defined.

(** * The concordance heatmaps *)

(** ** [get_correlation_matrix] *)

Lemma get2_set2 (i j i' j' : nat) (v : fl) (M : array2) :
  get2 i j (set2 i' j' v M)
  = if Nat.eqb i i' && Nat.eqb j j'
    then option_map (fun _ => v) (get2 i j M)
    else get2 i j M.
Proof.
  unfold get2, set2. rewrite nth_error_update.
  destruct (Nat.eqb i i') eqn:Ei; simpl; [|reflexivity].
  destruct (nth_error M i) as [row|]; simpl; [|destruct (Nat.eqb j j'); reflexivity].
  rewrite nth_error_update. destruct (Nat.eqb j j'); reflexivity.
Qed.

Lemma get2_full_nan (n i j : nat) :
  get2 i j (np_full_nan n)
  = if (i <? n)%nat && (j <? n)%nat then Some NaN else None.
Proof.
  unfold get2, np_full_nan.
  destruct (Nat.ltb_spec i n) as [Hi|Hi]; simpl.
  2:{ rewrite (proj2 (nth_error_None _ _)); [reflexivity|].
      rewrite repeat_length. exact Hi. }
  rewrite nth_error_repeat by exact Hi.
  destruct (Nat.ltb_spec j n) as [Hj|Hj]; simpl.
  2:{ rewrite (proj2 (nth_error_None _ _)); [reflexivity|].
      rewrite repeat_length. exact Hj. }
  apply nth_error_repeat. exact Hj.
Qed.

Lemma find_label_of_row (df : corr_frame) (r : corr_row) :
  NoDup (map row_label df) -> In r df ->
  find (fun r' => Z.eqb (row_label r') (row_label r)) df = Some r.
Proof.
  induction df as [|r0 df IH]; intros Hnd Hin; [inversion Hin|].
  cbn [map] in Hnd. inversion Hnd as [|? ? Hnin Hnd']; subst.
  cbn [find]. destruct Hin as [->|Hin].
  - rewrite Z.eqb_refl. reflexivity.
  - destruct (Z.eqb_spec (row_label r0) (row_label r)) as [E|_].
    + exfalso. apply Hnin. rewrite E. apply in_map. exact Hin.
    + apply IH; assumption.
Qed.

Lemma pair_labels_first (name1 name2 : string) (df : corr_frame) :
  nth_error (pair_labels name1 name2 df) 0
  = option_map row_label (first_pair name1 name2 df).
Proof.
  unfold pair_labels, first_pair.
  induction df as [|r df IH]; cbn [filter find]; [reflexivity|].
  destruct (String.eqb (structure1 r) name1 && String.eqb (structure2 r) name2);
    [reflexivity | exact IH].
Qed.

(** One turn of the loops: the pair's value is found, or not, and stored. *)
Lemma correlation_cell_eq (df : corr_frame) (s1 s2 : nat) (name1 name2 : string)
    (M : array2) :
  NoDup (map row_label df) ->
  correlation_cell df (pd_unique String.eqb (map structure1 df))
                      (pd_unique String.eqb (map structure2 df))
                      s1 s2 name1 name2 M
  = match pair_value df name1 name2 with
    | Ok (Some x) => Ok (set2 s1 s2 x M)
    | Ok None => Ok M
    | Raise e => Raise e
    end.
Proof.
  intro Hnd. unfold correlation_cell, pair_value.
  rewrite !(existsb_pd_unique String.eqb String.eqb_spec).
  destruct (existsb _ _ && existsb _ _); [|reflexivity].
  unfold list_get. rewrite pair_labels_first.
  destruct (first_pair name1 name2 df) as [r|] eqn:Ef; cbn [option_map bind];
    [|reflexivity].
  unfold at_Pearson. rewrite (find_label_of_row df r Hnd); [reflexivity|].
  unfold first_pair in Ef. apply find_some in Ef. tauto.
Qed.

Section Loops.
Variable df : corr_frame.
Hypothesis distinct_labels : NoDup (map row_label df).

Let names1 : list string := pd_unique String.eqb (map structure1 df).
Let names2 : list string := pd_unique String.eqb (map structure2 df).

Lemma get2_cell (i j s1 s2 : nat) (name1 name2 : string) (M M' : array2) :
  correlation_cell df names1 names2 s1 s2 name1 name2 M = Ok M' ->
  get2 i j M'
  = if Nat.eqb i s1 && Nat.eqb j s2
    then stored (pair_value df name1 name2) (get2 i j M)
    else get2 i j M.
Proof.
  unfold names1, names2. rewrite (correlation_cell_eq df s1 s2 name1 name2 M distinct_labels).
  destruct (pair_value df name1 name2) as [[x|]|e]; intro E;
    [injection E as <- | injection E as <- | discriminate].
  - rewrite get2_set2. destruct (Nat.eqb i s1 && Nat.eqb j s2); [|reflexivity].
    destruct (get2 i j M); reflexivity.
  - destruct (Nat.eqb i s1 && Nat.eqb j s2); [|reflexivity].
    destruct (get2 i j M); reflexivity.
Qed.

(** The inner loop, from position [s2] on. *)
Lemma correlation_row_spec (s1 : nat) (name1 : string) (rank : list string) :
  forall (s2 : nat) (M : array2),
    match correlation_row df names1 names2 s1 name1 s2 rank M with
    | Ok M' =>
        Forall (fun name2 => pair_value df name1 name2 <> Raise IndexError) rank
        /\ forall i j,
             get2 i j M'
             = if Nat.eqb i s1 && (s2 <=? j)%nat then
                 match nth_error rank (j - s2) with
                 | Some name2 => stored (pair_value df name1 name2) (get2 i j M)
                 | None => get2 i j M
                 end
               else get2 i j M
    | Raise e =>
        e = IndexError
        /\ Exists (fun name2 => pair_value df name1 name2 = Raise IndexError) rank
    end.
Proof.
  induction rank as [|name2 rest IH]; intros s2 M; cbn [correlation_row].
  - split; [constructor|]. intros i j.
    destruct (Nat.eqb i s1 && (s2 <=? j)%nat); [|reflexivity].
    destruct (j - s2)%nat; reflexivity.
  - pose proof (fun i j M' => get2_cell i j s1 s2 name1 name2 M M') as Hcell.
    unfold names1, names2 in Hcell |- *.
    rewrite (correlation_cell_eq df s1 s2 name1 name2 M distinct_labels) in Hcell |- *.
    destruct (pair_value df name1 name2) as [[x|]|e] eqn:Ev.
    + cbn [bind]. specialize (IH (S s2) (set2 s1 s2 x M)).
      fold names1 names2.
      destruct (correlation_row df names1 names2 s1 name1 (S s2) rest _)
        as [M'|e'].
      * destruct IH as [Hall Hget]. split.
        { constructor; [rewrite Ev; discriminate | exact Hall]. }
        intros i j. rewrite Hget, (Hcell i j _ eq_refl).
        destruct (Nat.eqb_spec i s1) as [->|Hi]; cbn [andb]; [|reflexivity].
        destruct (Nat.leb_spec s2 j) as [Hle|Hgt].
        -- destruct (Nat.eqb_spec j s2) as [->|Hj].
           ++ replace (S s2 <=? s2)%nat with false
                by (symmetry; apply Nat.leb_gt; lia).
              rewrite Nat.sub_diag. cbn [nth_error]. rewrite Ev. reflexivity.
           ++ replace (S s2 <=? j)%nat with true
                by (symmetry; apply Nat.leb_le; lia).
              replace (j - s2)%nat with (S (j - S s2)) by lia. reflexivity.
        -- replace (S s2 <=? j)%nat with false
             by (symmetry; apply Nat.leb_gt; lia).
           destruct (Nat.eqb_spec j s2); [lia | reflexivity].
      * destruct IH as [-> Hex]. split; [reflexivity|].
        apply Exists_cons_tl. exact Hex.
    + cbn [bind]. specialize (IH (S s2) M). fold names1 names2.
      destruct (correlation_row df names1 names2 s1 name1 (S s2) rest _)
        as [M'|e'].
      * destruct IH as [Hall Hget]. split.
        { constructor; [rewrite Ev; discriminate | exact Hall]. }
        intros i j. rewrite Hget.
        destruct (Nat.eqb_spec i s1) as [->|Hi]; cbn [andb]; [|reflexivity].
        destruct (Nat.leb_spec s2 j) as [Hle|Hgt].
        -- destruct (Nat.eqb_spec j s2) as [->|Hj].
           ++ replace (S s2 <=? s2)%nat with false
                by (symmetry; apply Nat.leb_gt; lia).
              rewrite Nat.sub_diag. cbn [nth_error]. rewrite Ev.
              destruct (get2 s1 s2 M); reflexivity.
           ++ replace (S s2 <=? j)%nat with true
                by (symmetry; apply Nat.leb_le; lia).
              replace (j - s2)%nat with (S (j - S s2)) by lia. reflexivity.
        -- replace (S s2 <=? j)%nat with false
             by (symmetry; apply Nat.leb_gt; lia).
           reflexivity.
      * destruct IH as [-> Hex]. split; [reflexivity|].
        apply Exists_cons_tl. exact Hex.
    + cbn [bind].
      assert (He : e = IndexError).
      { unfold pair_value in Ev. destruct (_ && _); [|discriminate].
        destruct (first_pair name1 name2 df); [discriminate|].
        injection Ev as <-. reflexivity. }
      subst e. split; [reflexivity|]. apply Exists_cons_hd. exact Ev.
Qed.

(** The two loops, from position [s1] on. *)
Lemma correlation_rows_spec (rank todo : list string) :
  forall (s1 : nat) (M : array2),
    match correlation_rows df names1 names2 s1 todo rank M with
    | Ok M' =>
        Forall (fun name1 =>
                  Forall (fun name2 => pair_value df name1 name2 <> Raise IndexError)
                         rank) todo
        /\ forall i j,
             get2 i j M'
             = if (s1 <=? i)%nat then
                 match nth_error todo (i - s1), nth_error rank j with
                 | Some name1, Some name2 =>
                     stored (pair_value df name1 name2) (get2 i j M)
                 | _, _ => get2 i j M
                 end
               else get2 i j M
    | Raise e =>
        e = IndexError
        /\ Exists (fun name1 =>
                     Exists (fun name2 => pair_value df name1 name2 = Raise IndexError)
                            rank) todo
    end.
Proof.
  induction todo as [|name1 rest IH]; intros s1 M; cbn [correlation_rows].
  - split; [constructor|]. intros i j.
    destruct (s1 <=? i)%nat; [|reflexivity]. destruct (i - s1)%nat; reflexivity.
  - pose proof (correlation_row_spec s1 name1 rank 0 M) as Hrow.
    destruct (correlation_row df names1 names2 s1 name1 0 rank M) as [M1|e];
      cbn [bind].
    2:{ destruct Hrow as [-> Hex]. split; [reflexivity|].
        apply Exists_cons_hd. exact Hex. }
    destruct Hrow as [Hall1 Hget1]. specialize (IH (S s1) M1).
    destruct (correlation_rows df names1 names2 (S s1) rest rank M1) as [M'|e].
    2:{ destruct IH as [-> Hex]. split; [reflexivity|].
        apply Exists_cons_tl. exact Hex. }
    destruct IH as [Hall Hget]. split; [constructor; assumption|].
    intros i j. rewrite Hget, Hget1.
    change (0 <=? j)%nat with true. rewrite Nat.sub_0_r, andb_true_r.
    destruct (Nat.leb_spec s1 i) as [Hle|Hgt].
    + destruct (Nat.eqb_spec i s1) as [->|Hi].
      * replace (S s1 <=? s1)%nat with false by (symmetry; apply Nat.leb_gt; lia).
        rewrite Nat.sub_diag. cbn [nth_error]. reflexivity.
      * replace (S s1 <=? i)%nat with true by (symmetry; apply Nat.leb_le; lia).
        replace (i - s1)%nat with (S (i - S s1)) by lia. reflexivity.
    + replace (S s1 <=? i)%nat with false by (symmetry; apply Nat.leb_gt; lia).
      destruct (Nat.eqb_spec i s1); [lia | reflexivity].
Qed.

Lemma first_pair_some (name1 name2 : string) (r : corr_row) :
  first_pair name1 name2 df = Some r ->
  In r df /\ structure1 r = name1 /\ structure2 r = name2.
Proof.
  unfold first_pair. intro H. apply find_some in H. destruct H as [Hin H].
  apply andb_true_iff in H. destruct H as [H1 H2].
  apply String.eqb_eq in H1, H2. auto.
Qed.

Lemma first_pair_none (name1 name2 : string) :
  first_pair name1 name2 df = None <->
  forall r, In r df -> ~ (structure1 r = name1 /\ structure2 r = name2).
Proof.
  unfold first_pair. split.
  - intros H r Hin [H1 H2]. apply (find_none _ _ H) in Hin.
    rewrite H1, H2, !String.eqb_refl in Hin. discriminate.
  - intro H. destruct (find _ df) as [r|] eqn:E; [|reflexivity].
    apply find_some in E. destruct E as [Hin E].
    apply andb_true_iff in E. destruct E as [H1 H2].
    apply String.eqb_eq in H1, H2. exfalso. apply (H r Hin). auto.
Qed.

Lemma looked_up_iff (name1 name2 : string) :
  existsb (String.eqb name1) (map structure1 df)
  && existsb (String.eqb name2) (map structure2 df) = true
  <-> looked_up df name1 name2.
Proof.
  unfold looked_up.
  rewrite andb_true_iff, !(existsb_eq_In String.eqb String.eqb_spec). reflexivity.
Qed.

Lemma pair_value_raises (name1 name2 : string) :
  pair_value df name1 name2 = Raise IndexError
  <-> looked_up df name1 name2
      /\ forall r, In r df -> ~ (structure1 r = name1 /\ structure2 r = name2).
Proof.
  unfold pair_value. rewrite <- looked_up_iff, <- first_pair_none.
  destruct (_ && _); [|split; [discriminate | intros [H _]; discriminate]].
  destruct (first_pair name1 name2 df).
  - split; [discriminate | intros [_ H]; discriminate].
  - split; auto.
Qed.

Lemma stored_in_nan (name1 name2 : string) :
  stored (pair_value df name1 name2) (Some NaN)
  = Some (match first_pair name1 name2 df with
          | Some r => Pearson r
          | None => NaN
          end).
Proof.
  unfold pair_value.
  destruct (_ && _) eqn:E.
  - destruct (first_pair name1 name2 df); reflexivity.
  - destruct (first_pair name1 name2 df) as [r|] eqn:Ef; [|reflexivity].
    apply first_pair_some in Ef. destruct Ef as (Hin & H1 & H2).
    assert (Hl : looked_up df name1 name2).
    { split; [rewrite <- H1 | rewrite <- H2]; apply in_map; exact Hin. }
    apply looked_up_iff in Hl. congruence.
Qed.

(** X12.  The matrix that [get_correlation_matrix] returns, for a frame
    with distinct row labels, has one row and one column for each name of
    [rank], in the order of [rank]; the entry of a pair of names is the
    "Pearson" of the first row of the frame whose [structure1] and
    [structure2] are the two names, and nan when the frame has no such
    row. *)
Theorem correlation_matrix_entries (rank : list string) (M : array2) :
  get_correlation_matrix df rank = Ok M ->
  forall i j,
    get2 i j M
    = match nth_error rank i, nth_error rank j with
      | Some name1, Some name2 =>
          Some (match first_pair name1 name2 df with
                | Some r => Pearson r
                | None => NaN
                end)
      | _, _ => None
      end.
Proof.
  unfold get_correlation_matrix. fold names1 names2. intro HM.
  pose proof (correlation_rows_spec rank rank 0 (np_full_nan (List.length rank)))
    as Hspec.
  rewrite HM in Hspec. destruct Hspec as [_ Hget].
  intros i j. rewrite Hget.
  change (0 <=? i)%nat with true. cbv iota. rewrite Nat.sub_0_r, get2_full_nan.
  destruct (nth_error rank i) as [name1|] eqn:Ei.
  - assert (Hi : (i < List.length rank)%nat)
      by (apply nth_error_Some; congruence).
    destruct (nth_error rank j) as [name2|] eqn:Ej.
    + assert (Hj : (j < List.length rank)%nat)
        by (apply nth_error_Some; congruence).
      apply Nat.ltb_lt in Hi, Hj. rewrite Hi, Hj. apply stored_in_nan.
    + apply nth_error_None in Ej.
      replace (j <? List.length rank)%nat with false
        by (symmetry; apply Nat.ltb_ge; exact Ej).
      rewrite andb_false_r. reflexivity.
  - apply nth_error_None in Ei.
    replace (i <? List.length rank)%nat with false
      by (symmetry; apply Nat.ltb_ge; exact Ei).
    reflexivity.
Qed.

(** X13.  For a frame with distinct row labels, [get_correlation_matrix]
    returns exactly when every pair of names of [rank] that is looked up
    (the first name occurs somewhere as a [structure1], the second
    somewhere as a [structure2]) has a row of its own in the frame;
    otherwise it raises IndexError, from the empty list of row labels of
    the first pair without a row. *)
Theorem correlation_matrix_returns_exactly_when (rank : list string) :
  let complete :=
    forall name1 name2,
      In name1 rank -> In name2 rank -> looked_up df name1 name2 ->
      exists r, In r df /\ structure1 r = name1 /\ structure2 r = name2 in
  ((exists M, get_correlation_matrix df rank = Ok M) <-> complete)
  /\ (~ complete -> get_correlation_matrix df rank = Raise IndexError).
Proof.
  cbv zeta. unfold get_correlation_matrix. fold names1 names2.
  pose proof (correlation_rows_spec rank rank 0 (np_full_nan (List.length rank)))
    as Hspec.
  destruct (correlation_rows df names1 names2 0 rank rank _) as [M|e].
  - destruct Hspec as [Hall _].
    assert (Hc : forall name1 name2,
               In name1 rank -> In name2 rank -> looked_up df name1 name2 ->
               exists r, In r df /\ structure1 r = name1 /\ structure2 r = name2).
    { intros name1 name2 H1 H2 Hl.
      rewrite Forall_forall in Hall. specialize (Hall name1 H1).
      rewrite Forall_forall in Hall. specialize (Hall name2 H2).
      destruct (first_pair name1 name2 df) as [r|] eqn:Ef.
      - exists r. apply first_pair_some. exact Ef.
      - exfalso. apply Hall. apply pair_value_raises. split; [exact Hl|].
        apply first_pair_none. exact Ef. }
    split; [split; [intros _; exact Hc | eauto] | intro H; contradiction].
  - destruct Hspec as [-> Hex].
    assert (Hn : ~ forall name1 name2,
               In name1 rank -> In name2 rank -> looked_up df name1 name2 ->
               exists r, In r df /\ structure1 r = name1 /\ structure2 r = name2).
    { intro Hc. apply Exists_exists in Hex. destruct Hex as (name1 & H1 & Hex).
      apply Exists_exists in Hex. destruct Hex as (name2 & H2 & Hv).
      apply pair_value_raises in Hv. destruct Hv as [Hl Hno].
      destruct (Hc name1 name2 H1 H2 Hl) as (r & Hin & Hr). apply (Hno r Hin Hr). }
    split; [split; [intros [M HM]; discriminate | intro Hc; contradiction]
           | reflexivity].
Qed.

End Loops.

Lemma correlation_matrix_entries_witness :
  exists M,
    get_correlation_matrix sample_correlations ["A"; "B"; "C"] = Ok M
    /\ M = [[Fin 1; Fin (1 # 2); NaN]; [Fin (1 # 4); Fin 1; NaN]; [NaN; NaN; NaN]]
    /\ forall i j,
         get2 i j M
         = match nth_error ["A"; "B"; "C"] i, nth_error ["A"; "B"; "C"] j with
           | Some name1, Some name2 =>
               Some (match first_pair name1 name2 sample_correlations with
                     | Some r => Pearson r
                     | None => NaN
                     end)
           | _, _ => None
           end.
Proof.
  eexists. split; [vm_compute; reflexivity|]. split; [reflexivity|].
  apply (correlation_matrix_entries sample_correlations).
  - repeat constructor; simpl; intuition discriminate.
  - vm_compute. reflexivity.
Defined.

Lemma correlation_matrix_returns_witness :
  get_correlation_matrix incomplete_correlations ["A"; "B"] = Raise IndexError.
Proof.
  apply (correlation_matrix_returns_exactly_when incomplete_correlations).
  - repeat constructor; simpl; intuition discriminate.
  - intro H.
    destruct (H "B" "A") as (r & Hin & H1 & H2).
    + right. left. reflexivity.
    + left. reflexivity.
    + split; simpl; auto.
    + simpl in Hin. destruct Hin as [<-|[<-|[<-|[]]]]; discriminate.
Defined.

(** ** [check_and_store_parameters] *)

Lemma at_most_two (l : list Z) :
  (List.length (pd_unique Z.eqb l) <= 2)%nat
  <-> exists a b, forall x, In x l -> x = a \/ x = b.
Proof.
  pose proof (pd_unique_NoDup Z.eqb Z.eqb_spec l) as Hnd.
  pose proof (fun x => pd_unique_In Z.eqb Z.eqb_spec x l) as Hin.
  split.
  - destruct (pd_unique Z.eqb l) as [|a [|b [|c rest]]]; cbn [List.length]; intro H.
    + exists 0%Z, 0%Z. intros x Hx. apply Hin in Hx. inversion Hx.
    + exists a, a. intros x Hx. apply Hin in Hx. destruct Hx as [<-|[]]. auto.
    + exists a, b. intros x Hx. apply Hin in Hx. destruct Hx as [<-|[<-|[]]]; auto.
    + lia.
  - intros (a & b & H).
    apply (NoDup_incl_length (l' := [a; b])) in Hnd; [exact Hnd|].
    intros x Hx. apply Hin in Hx. destruct (H x Hx) as [-> | ->]; simpl; auto.
Qed.

Lemma one_value {A B : Type} (eq : B -> B -> bool)
    (eq_spec : forall x y, reflect (x = y) (eq x y)) (f : A -> B) (l : list A) :
  (List.length (pd_unique eq (map f l)) <= 1)%nat
  <-> forall r r', In r l -> In r' l -> f r = f r'.
Proof.
  rewrite (pd_unique_one eq eq_spec). split.
  - intros H r r' Hr Hr'. apply H; apply in_map; assumption.
  - intros H x y Hx Hy. apply in_map_iff in Hx, Hy.
    destruct Hx as (r & <- & Hr), Hy as (r' & <- & Hr'). auto.
Qed.

(** Either all the rows are of one map point, or two of them differ. *)
Lemma classic_two_ids (df : corr_frame) :
  (forall r r', In r df -> In r' df -> mpId r = mpId r')
  \/ exists r r', In r df /\ In r' df /\ mpId r <> mpId r'.
Proof.
  destruct df as [|r0 df]; [left; intros r r' []|].
  destruct (forallb (fun r => Z.eqb (mpId r) (mpId r0)) df) eqn:E.
  - left. rewrite forallb_forall in E.
    assert (H : forall r, In r (r0 :: df) -> mpId r = mpId r0).
    { intros r [<-|Hr]; [reflexivity|]. apply Z.eqb_eq. apply E. exact Hr. }
    intros r r' Hr Hr'. rewrite (H r Hr), (H r' Hr'). reflexivity.
  - right.
    assert (Hex : existsb (fun r => negb (Z.eqb (mpId r) (mpId r0))) df = true).
    { clear -E. induction df as [|r df IH]; simpl in *; [discriminate|].
      destruct (Z.eqb (mpId r) (mpId r0)); simpl in *; auto. }
    apply existsb_exists in Hex. destruct Hex as (r & Hr & Hne).
    exists r, r0. split; [right; exact Hr|]. split; [left; reflexivity|].
    apply negb_true_iff, Z.eqb_neq in Hne. exact Hne.
Qed.

Lemma two_ids_iff (df : corr_frame) :
  (1 <? List.length (pd_unique Z.eqb (map mpId df)))%nat = true
  <-> exists r r', In r df /\ In r' df /\ mpId r <> mpId r'.
Proof.
  pose proof (one_value Z.eqb Z.eqb_spec mpId df) as Hone.
  rewrite Nat.ltb_lt. split.
  - intro Hlt. destruct (classic_two_ids df) as [Hsame|Hdiff]; [|exact Hdiff].
    apply Hone in Hsame. lia.
  - intros (r & r' & Hr & Hr' & Hne).
    destruct (Nat.ltb_spec 1 (List.length (pd_unique Z.eqb (map mpId df))))
      as [Hlt|Hle]; [exact Hlt|].
    exfalso. apply Hne. apply (proj1 Hone Hle); assumption.
Qed.

(** X14.  [check_and_store_parameters] accepts exactly the frames that have
    a row, hold at most two map points and one alias and one shape mode
    throughout; the map points are checked first, then the aliases, then the
    shape modes, and a frame without rows raises IndexError.  What it stores
    is the alias and the shape mode of the rows, the map points in the order
    they first appear, and whether there are two of them. *)
Theorem parameters_accepted_exactly_when (df : corr_frame) :
  ((exists p, check_and_store_parameters df = Ok p)
   <-> df <> []
       /\ (exists a b, forall r, In r df -> mpId r = a \/ mpId r = b)
       /\ (forall r r', In r df -> In r' df -> alias r = alias r')
       /\ (forall r r', In r df -> In r' df -> shape_mode r = shape_mode r'))
  /\ (df = [] -> check_and_store_parameters df = Raise IndexError)
  /\ forall p,
       check_and_store_parameters df = Ok p ->
       (forall r, In r df -> alias r = self_alias p
                             /\ shape_mode r = self_shape_mode p)
       /\ self_mpIds p = pd_unique Z.eqb (map mpId df)
       /\ (self_multiple_mps p = true
           <-> exists r r', In r df /\ In r' df /\ mpId r <> mpId r').
Proof.
  unfold check_and_store_parameters.
  pose proof (at_most_two (map mpId df)) as Hmp.
  pose proof (one_value String.eqb String.eqb_spec alias df) as Hal.
  pose proof (one_value String.eqb String.eqb_spec shape_mode df) as Hsm.
  assert (Hmp' : (exists a b, forall x, In x (map mpId df) -> x = a \/ x = b)
                 <-> exists a b, forall r, In r df -> mpId r = a \/ mpId r = b).
  { split; intros (a & b & H); exists a, b.
    - intros r Hr. apply H. apply in_map. exact Hr.
    - intros x Hx. apply in_map_iff in Hx. destruct Hx as (r & <- & Hr). auto. }
  rewrite Hmp' in Hmp. clear Hmp'.
  split; [|split].
  - destruct (Nat.ltb_spec 2 (List.length (pd_unique Z.eqb (map mpId df))))
      as [H2|H2].
    { split; [intros [p E]; discriminate|].
      intros (_ & H & _). apply Hmp in H. lia. }
    destruct (Nat.ltb_spec 1 (List.length (pd_unique String.eqb (map alias df))))
      as [H1|H1].
    { split; [intros [p E]; discriminate|].
      intros (_ & _ & H & _). apply Hal in H. lia. }
    destruct (Nat.ltb_spec 1 (List.length (pd_unique String.eqb (map shape_mode df))))
      as [H0|H0].
    { split; [intros [p E]; discriminate|].
      intros (_ & _ & _ & H). apply Hsm in H. lia. }
    unfold list_get. rewrite !(pd_unique_first String.eqb).
    destruct df as [|r df]; cbn [map nth_error bind].
    + split; [intros [p E]; discriminate | intros [H _]; congruence].
    + split; [|eauto]. intros _. split; [discriminate|].
      split; [apply Hmp; exact H2|].
      split; [apply Hal; exact H1 | apply Hsm; exact H0].
  - intros ->. reflexivity.
  - intros p. pose proof (two_ids_iff df) as Htwo.
    destruct (Nat.ltb_spec 2 (List.length (pd_unique Z.eqb (map mpId df))))
      as [H2|H2]; [discriminate|].
    destruct (Nat.ltb_spec 1 (List.length (pd_unique String.eqb (map alias df))))
      as [H1|H1]; [discriminate|].
    destruct (Nat.ltb_spec 1 (List.length (pd_unique String.eqb (map shape_mode df))))
      as [H0|H0]; [discriminate|].
    unfold list_get. rewrite !(pd_unique_first String.eqb).
    destruct (nth_error (map alias df) 0) as [a|] eqn:Ea; cbn [bind];
      [|discriminate].
    destruct (nth_error (map shape_mode df) 0) as [sm|] eqn:Es; cbn [bind];
      [|discriminate].
    intro E. injection E as <-.
    cbn [self_alias self_shape_mode self_mpIds self_multiple_mps].
    split; [|split; [reflexivity | exact Htwo]].
    intros r Hr.
    destruct df as [|r0 df]; [inversion Hr|]. cbn [map nth_error] in Ea, Es.
    injection Ea as <-. injection Es as <-. split.
    + apply (proj1 Hal H1); [exact Hr | left; reflexivity].
    + apply (proj1 Hsm H0); [exact Hr | left; reflexivity].
Qed.

(** ** [build_correlation_matrix] *)

Lemma nth_error_combine {A B : Type} (a : list A) (b : list B) (i : nat) :
  nth_error (combine a b) i
  = match nth_error a i, nth_error b i with
    | Some x, Some y => Some (x, y)
    | _, _ => None
    end.
Proof.
  revert b i. induction a as [|x a IH]; intros [|y b] [|i]; simpl; try reflexivity.
  - destruct (nth_error a i); reflexivity.
  - apply IH.
Qed.

Lemma nth_error_enumerate {A : Type} (l : list A) (i : nat) :
  nth_error (combine (seq 0 (List.length l)) l) i
  = option_map (fun x => (i, x)) (nth_error l i).
Proof.
  rewrite nth_error_combine.
  destruct (nth_error l i) as [x|] eqn:E.
  - assert (Hi : (i < List.length l)%nat) by (apply nth_error_Some; congruence).
    rewrite (nth_error_nth' _ 0%nat) by (rewrite length_seq; exact Hi).
    rewrite seq_nth by exact Hi. reflexivity.
  - destruct (nth_error (seq 0 (List.length l)) i); reflexivity.
Qed.

Lemma get2_mapi2 (f : nat -> nat -> fl -> fl) (m : array2) (i j : nat) :
  get2 i j (mapi2 f m) = option_map (f i j) (get2 i j m).
Proof.
  unfold get2, mapi2. rewrite nth_error_map, nth_error_enumerate.
  destruct (nth_error m i) as [row|]; cbn [option_map fst snd]; [|reflexivity].
  rewrite nth_error_map, nth_error_enumerate.
  destruct (nth_error row j); reflexivity.
Qed.

Lemma get2_map2 (f : fl -> fl -> fl) (a b : array2) (i j : nat) :
  get2 i j (array2_map2 f a b)
  = match get2 i j a, get2 i j b with
    | Some x, Some y => Some (f x y)
    | _, _ => None
    end.
Proof.
  unfold get2, array2_map2. rewrite nth_error_map, nth_error_combine.
  destruct (nth_error a i) as [ra|]; [|reflexivity].
  destruct (nth_error b i) as [rb|]; cbn [option_map fst snd].
  - rewrite nth_error_map, nth_error_combine.
    destruct (nth_error ra j), (nth_error rb j); reflexivity.
  - destruct (nth_error ra j); reflexivity.
Qed.

Lemma parameters_stored (df : corr_frame) (p : parameters) :
  check_and_store_parameters df = Ok p ->
  self_mpIds p = pd_unique Z.eqb (map mpId df)
  /\ self_multiple_mps p = (1 <? List.length (self_mpIds p))%nat
  /\ df <> []
  /\ (List.length (self_mpIds p) <= 2)%nat.
Proof.
  unfold check_and_store_parameters.
  destruct (Nat.ltb_spec 2 (List.length (pd_unique Z.eqb (map mpId df))))
    as [H2|H2]; [discriminate|].
  destruct (1 <? List.length (pd_unique String.eqb (map alias df)))%nat;
    [discriminate|].
  destruct (1 <? List.length (pd_unique String.eqb (map shape_mode df)))%nat;
    [discriminate|].
  unfold list_get. rewrite !(pd_unique_first String.eqb).
  destruct df as [|r df]; [discriminate|]. cbn [map nth_error bind].
  intro E. injection E as <-. cbn [self_mpIds self_multiple_mps].
  repeat split; [discriminate | exact H2].
Qed.

(** X15.  [build_correlation_matrix], on the parameters stored for the
    frame.  With one map point the matrix is that of the frame's rows.  With
    two, it shows both: strictly below the diagonal the entries of the
    matrix of the map point that comes first in the frame, strictly above it
    those of the other, each added to 0, and 0 + 0 on the diagonal; the
    matrix is there only where both matrices have an entry. *)
Theorem map_points_share_the_matrix
    (df : corr_frame) (genes : list string) (p : parameters) (M : array2) :
  check_and_store_parameters df = Ok p ->
  build_correlation_matrix df genes p = Ok M ->
  match self_mpIds p with
  | [id0] =>
      self_multiple_mps p = false
      /\ rows_of_map_point id0 df = df
      /\ get_correlation_matrix df genes = Ok M
  | [id0; id1] =>
      self_multiple_mps p = true
      /\ id0 <> id1
      /\ exists M0 M1,
           get_correlation_matrix (rows_of_map_point id0 df) genes = Ok M0
           /\ get_correlation_matrix (rows_of_map_point id1 df) genes = Ok M1
           /\ forall i j,
                get2 i j M
                = match get2 i j M0, get2 i j M1 with
                  | Some x, Some y =>
                      Some (fl_add (if (j <? i)%nat then x else Fin 0)
                                   (if (i <? j)%nat then y else Fin 0))
                  | _, _ => None
                  end
  | _ => False
  end.
Proof.
  intros Hp Hb.
  destruct (parameters_stored df p Hp) as (Hids & Hmult & Hne & Hlen).
  unfold build_correlation_matrix in Hb. rewrite Hmult in Hb.
  pose proof (pd_unique_NoDup Z.eqb Z.eqb_spec (map mpId df)) as Hnd.
  pose proof (fun x => pd_unique_In Z.eqb Z.eqb_spec x (map mpId df)) as Hin.
  rewrite <- Hids in Hnd, Hin.
  destruct (self_mpIds p) as [|id0 [|id1 [|id2 rest]]];
    cbn [List.length] in Hlen, Hb; try lia.
  - exfalso. destruct df as [|r df]; [congruence|].
    apply (Hin (mpId r)). left. reflexivity.
  - cbn [Nat.ltb Nat.leb map all_ok] in Hb |- *.
    assert (Hall : rows_of_map_point id0 df = df).
    { unfold rows_of_map_point. apply filter_all_true. intros r Hr.
      apply Z.eqb_eq. assert (H : In (mpId r) [id0]) by (apply Hin, in_map, Hr).
      destruct H as [<-|[]]. reflexivity. }
    rewrite Hall in Hb |- *.
    destruct (get_correlation_matrix df genes) as [M0|e]; cbn [bind] in Hb;
      [|discriminate].
    cbn [list_get nth_error bind] in Hb.
    split; [rewrite Hmult; reflexivity|]. split; [reflexivity | exact Hb].
  - cbn [Nat.ltb Nat.leb map all_ok] in Hb |- *.
    split; [rewrite Hmult; reflexivity|].
    split; [inversion Hnd as [|? ? Hnin _]; subst; intro E; apply Hnin; left; auto|].
    destruct (get_correlation_matrix (rows_of_map_point id0 df) genes) as [M0|e];
      cbn [bind] in Hb; [|discriminate].
    destruct (get_correlation_matrix (rows_of_map_point id1 df) genes) as [M1|e];
      cbn [bind] in Hb; [|discriminate].
    cbn [list_get nth_error bind] in Hb. injection Hb as <-.
    exists M0, M1. split; [reflexivity|]. split; [reflexivity|].
    intros i j. unfold np_tril_below, np_triu_above.
    rewrite get2_map2, !get2_mapi2.
    destruct (get2 i j M0), (get2 i j M1); reflexivity.
Qed.

Lemma map_points_share_witness :
  exists p M,
    check_and_store_parameters two_map_points = Ok p
    /\ build_correlation_matrix two_map_points ["A"; "B"] p = Ok M
    /\ M = [[Fin (0 + 0); Fin (0 + 3 # 4)]; [Fin ((1 # 4) + 0); Fin (0 + 0)]]
    /\ match self_mpIds p with
       | [id0; id1] => self_multiple_mps p = true /\ id0 <> id1
       | _ => False
       end.
Proof.
  do 2 eexists. split; [vm_compute; reflexivity|].
  split; [vm_compute; reflexivity|]. split; [reflexivity|].
  pose proof (map_points_share_the_matrix two_map_points ["A"; "B"] _ _
                eq_refl eq_refl) as H.
  cbn [self_mpIds] in H |- *. destruct H as (H1 & H2 & _). split; assumption.
Defined.

(** ** The percentile filter and missing values *)







(** ** The offsets and the reconstructions *)

Lemma filter_after_assign {A : Type} (p : string -> bool) (n : string) (a : A)
    (l : list (string * A)) :
  p n = false ->
  filter (fun nc => p (fst nc)) (assign n a l) = filter (fun nc => p (fst nc)) l.
Proof.
  intro Hp. induction l as [|[m b] l IH]; cbn [assign filter fst].
  - rewrite Hp. reflexivity.
  - destruct (String.eqb_spec n m) as [->|Hne]; cbn [filter fst].
    + rewrite Hp. reflexivity.
    + rewrite IH. reflexivity.
Qed.

Lemma filter_twice {A : Type} (p q : A -> bool) (l : list A) :
  filter p (filter q l) = filter (fun x => q x && p x) l.
Proof.
  induction l as [|x l IH]; cbn [filter]; [reflexivity|].
  destruct (q x); cbn [filter andb]; rewrite IH; reflexivity.
Qed.

Lemma same_but_offsets_refl (df : DataFrame) : same_but_offsets df df.
Proof. repeat split. Qed.

Lemma same_but_offsets_trans (a b c : DataFrame) :
  same_but_offsets a b -> same_but_offsets b c -> same_but_offsets a c.
Proof.
  intros (I1 & L1 & F1) (I2 & L2 & F2). split; [congruence|]. split.
  - intros name H. rewrite L2, L1 by exact H. reflexivity.
  - intros p Hx Hy Hz. rewrite F2, F1 by assumption. reflexivity.
Qed.

Lemma loc_set_same_but_offsets (b : Z) (name : string) (x : fl) (df : DataFrame) :
  In name ["dna_dxc"; "dna_dyc"; "dna_dzc"] ->
  In b (index df) ->
  same_but_offsets df (loc_set b name x df).
Proof.
  intros Hname Hb. unfold loc_set.
  assert (E : existsb (Z.eqb b) (index df) = true).
  { apply existsb_exists. exists b. split; [exact Hb | apply Z.eqb_refl]. }
  rewrite E. unfold set_column. cbn [index columns].
  split; [reflexivity|]. split.
  - intros other Hother. apply lookup_assign_other. intro Heq. subst other.
    contradiction.
  - intros p Hx Hy Hz. apply filter_after_assign.
    destruct Hname as [<-|[<-|[<-|[]]]]; assumption.
Qed.

Lemma store_offset_same_but_offsets (b : Z) (d : fl * fl * fl) (df : DataFrame) :
  In b (index df) -> same_but_offsets df (store_offset b d df).
Proof.
  intro Hb. destruct d as [[dx dy] dz]. unfold store_offset.
  pose proof (loc_set_same_but_offsets b "dna_dxc" dx df
                (or_introl eq_refl) Hb) as H1.
  assert (Hb1 : In b (index (loc_set b "dna_dxc" dx df)))
    by (rewrite (proj1 H1); exact Hb).
  pose proof (loc_set_same_but_offsets b "dna_dyc" dy _
                (or_intror (or_introl eq_refl)) Hb1) as H2.
  assert (Hb2 : In b (index (loc_set b "dna_dyc" dy (loc_set b "dna_dxc" dx df))))
    by (rewrite (proj1 H2); exact Hb1).
  pose proof (loc_set_same_but_offsets b "dna_dzc" dz _
                (or_intror (or_intror (or_introl eq_refl))) Hb2) as H3.
  apply (same_but_offsets_trans _ _ _ H1).
  apply (same_but_offsets_trans _ _ _ H2). exact H3.
Qed.

Section Untouched.
Context {geometry : Geometry} {trig : Trig}.

Lemma nuclear_offsets_same_but_offsets (fix_nuclear_position : bool)
    (df : DataFrame) (bin_indexes : list (Z * list Z)) :
  forall df_agg,
    incl (map fst bin_indexes) (index df_agg) ->
    same_but_offsets df_agg
      (fst (nuclear_offsets fix_nuclear_position df bin_indexes df_agg)).
Proof.
  induction bin_indexes as [|[b indexes] rest IH]; intros df_agg Hincl;
    cbn [nuclear_offsets].
  - apply same_but_offsets_refl.
  - assert (Hb : In b (index df_agg)) by (apply Hincl; left; reflexivity).
    assert (Hrest : forall d, incl (map fst rest) (index (store_offset b d df_agg))).
    { intros d b' Hb'.
      rewrite (proj1 (store_offset_same_but_offsets b d df_agg Hb)).
      apply Hincl. right. exact Hb'. }
    destruct fix_nuclear_position.
    + destruct (bin_offset df indexes) as [d|e]; cbn [fst].
      * apply (same_but_offsets_trans _ (store_offset b d df_agg)).
        -- apply store_offset_same_but_offsets. exact Hb.
        -- apply IH. apply Hrest.
      * apply same_but_offsets_refl.
    + apply (same_but_offsets_trans _
               (store_offset b (Fin 0, Fin 0, Fin 0) df_agg)).
      * apply store_offset_same_but_offsets. exact Hb.
      * apply IH. apply Hrest.
Qed.

Lemma store_pair_selected (row row' : Series) (prefix : string) :
  (forall l m cs, select_keys (coeff_key prefix l m cs) row'
                  = select_keys (coeff_key prefix l m cs) row) ->
  forall l m M, store_pair row' prefix l m M = store_pair row prefix l m M.
Proof. intros H l m M. unfold store_pair. rewrite !H. reflexivity. Qed.

Lemma fill_coeffs_selected (row row' : Series) (prefix : string) (lmax : nat) :
  (forall l m cs, select_keys (coeff_key prefix l m cs) row'
                  = select_keys (coeff_key prefix l m cs) row) ->
  forall M, fill_coeffs row' prefix lmax M = fill_coeffs row prefix lmax M.
Proof.
  intros H. unfold fill_coeffs.
  induction (seq 0 lmax) as [|l ls IH]; intro M; cbn [fold_left]; [reflexivity|].
  rewrite IH. f_equal.
  generalize M. induction (seq 0 (l + 1)) as [|m ms IHm]; intro M0;
    cbn [fold_left]; [reflexivity|].
  rewrite IHm, (store_pair_selected row row' prefix H). reflexivity.
Qed.

Lemma reconstruct_row_selected (row row' : Series) (prefix : string)
    (proj : nat * nat) (lmax : nat) :
  (forall l m cs, select_keys (coeff_key prefix l m cs) row'
                  = select_keys (coeff_key prefix l m cs) row) ->
  reconstruct_row prefix proj lmax row' = reconstruct_row prefix proj lmax row.
Proof.
  intro H. unfold reconstruct_row, get_mesh_from_dataframe,
    get_shcoeff_matrix_from_dataframe.
  rewrite (fill_coeffs_selected row row' prefix lmax H). reflexivity.
Qed.

Lemma contains_prefix_false (prefix rest key : string) :
  contains prefix key = false ->
  contains (String.append prefix rest) key = false.
Proof.
  intro H. destruct (contains (String.append prefix rest) key) eqn:E;
    [|reflexivity].
  apply contains_append in E. congruence.
Qed.

Lemma select_keys_columns (pat : string) (i : nat) (cols : list (string * column)) :
  select_keys pat
    (map (fun nc => (fst nc, nth i (cells (snd nc)) (CFloat NaN))) cols)
  = map (fun nc => nth i (cells (snd nc)) (CFloat NaN))
        (filter (fun nc => contains pat (fst nc)) cols).
Proof.
  unfold select_keys.
  induction cols as [|[n c] cols IH]; cbn [map filter fst snd]; [reflexivity|].
  destruct (contains pat n); cbn [map fst snd]; rewrite IH; reflexivity.
Qed.

Lemma rows_selected (df df' : DataFrame) (pat : string) (i : nat) :
  same_but_offsets df df' ->
  contains pat "dna_dxc" = false -> contains pat "dna_dyc" = false ->
  contains pat "dna_dzc" = false ->
  select_keys pat
    (row_at i (if has_column "bin" df' then drop_column "bin" df' else df'))
  = select_keys pat
      (row_at i (if has_column "bin" df then drop_column "bin" df else df)).
Proof.
  intros (Hidx & Hlook & Hfilter) Hx Hy Hz.
  assert (Hbin : has_column "bin" df' = has_column "bin" df).
  { unfold has_column. rewrite Hlook; [reflexivity|].
    simpl. intros [H|[H|[H|[]]]]; discriminate. }
  rewrite Hbin. unfold row_at. rewrite !select_keys_columns.
  destruct (has_column "bin" df); unfold drop_column; cbn [columns].
  - rewrite !filter_twice.
    rewrite (Hfilter (fun n => negb (String.eqb "bin" n) && contains pat n));
      [reflexivity | | |]; cbn [andb negb String.eqb Ascii.eqb Bool.eqb];
      assumption.
  - rewrite (Hfilter (contains pat)) by assumption. reflexivity.
Qed.

Lemma map_rows_ext {B : Type} (g : Series -> B) (f f' : nat -> Series)
    (idx : list Z) (s : list nat) :
  (forall i, g (f' i) = g (f i)) ->
  map g (map snd (combine idx (map f' s)))
  = map g (map snd (combine idx (map f s))).
Proof.
  intro H. revert s. induction idx as [|z idx IH]; intros [|i s];
    cbn [map combine snd]; try reflexivity.
  rewrite H, IH. reflexivity.
Qed.

(** X17.  Storing the nuclear offsets does not disturb the reconstructions.
    When every bin of [bin_indexes] is a row of [df_agg] (as for the frames
    the digitizer returns), the loop over the bins, with the nuclear
    position fixed or not, and whether it returns or raises, leaves the rows
    and every column other than "dna_dxc", "dna_dyc" and "dna_dzc" as they
    were, and the contours, meshes and limits reconstructed from the
    membrane and the nuclear coefficients are those of the frame without the
    offsets. *)
Theorem offsets_leave_the_reconstructions
    (fix_nuclear_position : bool) (df df_agg : DataFrame)
    (bin_indexes : list (Z * list Z)) :
  incl (map fst bin_indexes) (index df_agg) ->
  let df_agg' := fst (nuclear_offsets fix_nuclear_position df bin_indexes df_agg) in
  index df_agg' = index df_agg
  /\ (forall name,
        ~ In name ["dna_dxc"; "dna_dyc"; "dna_dzc"] ->
        lookup name (columns df_agg') = lookup name (columns df_agg))
  /\ forall prefix proj lmax,
       In prefix ["mem_shcoeffs_L"; "dna_shcoeffs_L"] ->
       get_contours_of_consecutive_reconstructions df_agg' prefix proj lmax
       = get_contours_of_consecutive_reconstructions df_agg prefix proj lmax.
Proof.
  intros Hincl df_agg'.
  pose proof (nuclear_offsets_same_but_offsets fix_nuclear_position df
                bin_indexes df_agg Hincl) as Hsame.
  fold df_agg' in Hsame.
  split; [exact (proj1 Hsame)|]. split; [exact (proj1 (proj2 Hsame))|].
  intros prefix proj lmax Hprefix.
  unfold get_contours_of_consecutive_reconstructions.
  rewrite !reconstruct_rows_all_ok. f_equal.
  unfold rows_without_bin, iterrows.
  assert (Hidx : index (if has_column "bin" df_agg' then drop_column "bin" df_agg'
                        else df_agg')
                 = index (if has_column "bin" df_agg then drop_column "bin" df_agg
                          else df_agg)).
  { destruct (has_column "bin" df_agg'), (has_column "bin" df_agg);
      cbn [drop_column index]; exact (proj1 Hsame). }
  rewrite Hidx. f_equal. apply map_rows_ext. intro i.
  apply reconstruct_row_selected. intros l m cs.
  unfold coeff_key.
  apply (rows_selected df_agg df_agg' _ i Hsame);
    apply contains_prefix_false;
    destruct Hprefix as [<-|[<-|[]]]; reflexivity.
Qed.

End Untouched.

Lemma offsets_leave_witness :
  let df_agg' := fst (nuclear_offsets (trig := sample_trig) true sample_cells
                        [(1, [10; 11]); (2, [12])]%Z two_bins) in
  index df_agg' = index two_bins
  /\ (forall name,
        ~ In name ["dna_dxc"; "dna_dyc"; "dna_dzc"] ->
        lookup name (columns df_agg') = lookup name (columns two_bins))
  /\ forall prefix proj lmax,
       In prefix ["mem_shcoeffs_L"; "dna_shcoeffs_L"] ->
       get_contours_of_consecutive_reconstructions (geometry := sample_geometry)
         df_agg' prefix proj lmax
       = get_contours_of_consecutive_reconstructions (geometry := sample_geometry)
           two_bins prefix proj lmax.
Proof.
  apply (offsets_leave_the_reconstructions (geometry := sample_geometry)
           (trig := sample_trig) true sample_cells two_bins
           [(1, [10; 11]); (2, [12])]%Z).
  intros b Hb. simpl in Hb |- *. tauto.
Defined.

(** ** What fixing the nuclear position changes *)

Section NuclearPosition.
Context {geometry : Geometry} {trig : Trig}.

Lemma contours_same_but_offsets (df df' : DataFrame) (prefix : string)
    (proj : nat * nat) (lmax : nat) :
  same_but_offsets df df' ->
  In prefix ["mem_shcoeffs_L"; "dna_shcoeffs_L"] ->
  get_contours_of_consecutive_reconstructions df' prefix proj lmax
  = get_contours_of_consecutive_reconstructions df prefix proj lmax.
Proof.
  intros Hsame Hprefix.
  unfold get_contours_of_consecutive_reconstructions.
  rewrite !reconstruct_rows_all_ok. f_equal.
  unfold rows_without_bin, iterrows.
  assert (Hidx : index (if has_column "bin" df' then drop_column "bin" df' else df')
                 = index (if has_column "bin" df then drop_column "bin" df else df)).
  { destruct (has_column "bin" df'), (has_column "bin" df);
      cbn [drop_column index]; exact (proj1 Hsame). }
  rewrite Hidx. f_equal. apply map_rows_ext. intro i.
  apply reconstruct_row_selected. intros l m cs.
  unfold coeff_key.
  apply (rows_selected df df' _ i Hsame);
    apply contains_prefix_false;
    destruct Hprefix as [<-|[<-|[]]]; reflexivity.
Qed.

Lemma save_meshes_same (df1 df0 : DataFrame) (bins : list (Z * list Z)) :
  forall mem dna s1 s0,
    save_meshes df1 bins mem dna = Ok s1 ->
    save_meshes df0 bins mem dna = Ok s0 ->
    Forall2 (fun s t => fst s = fst t /\ (fst (fst s) = "MEM" -> snd s = snd t))
            s1 s0.
Proof.
  induction bins as [|[b idx] bins IH]; intros mem dna s1 s0 H1 H0.
  - cbn [save_meshes] in *. injection H1 as <-. injection H0 as <-. constructor.
  - destruct mem as [|m mem]; [cbn [save_meshes] in *; injection H1 as <-;
                                injection H0 as <-; constructor|].
    destruct dna as [|d dna]; [cbn [save_meshes] in *; injection H1 as <-;
                                injection H0 as <-; constructor|].
    cbn [save_meshes] in H1, H0.
    destruct (shift_mesh b df1 d) as [d1|e]; cbn [bind] in H1; [|discriminate].
    destruct (shift_mesh b df0 d) as [d0|e]; cbn [bind] in H0; [|discriminate].
    destruct (save_meshes df1 bins mem dna) as [r1|e] eqn:E1; cbn [bind] in H1;
      [|discriminate].
    destruct (save_meshes df0 bins mem dna) as [r0|e] eqn:E0; cbn [bind] in H0;
      [|discriminate].
    injection H1 as <-. injection H0 as <-.
    constructor; [split; [reflexivity | reflexivity]|].
    constructor; [split; [reflexivity | intro H; discriminate]|].
    apply (IH mem dna); assumption.
Qed.

Lemma project_all_same (df df1 df0 : DataFrame) (bins : list (Z * list Z))
    (todo : list (nat * (nat * nat))) :
  same_but_offsets df df1 -> same_but_offsets df df0 ->
  forall acc1 acc0 p1 p0,
    same_plots acc1 acc0 ->
    project_all df1 bins todo acc1 = Ok p1 ->
    project_all df0 bins todo acc0 = Ok p0 ->
    same_plots p1 p0.
Proof.
  intros S1 S0. induction todo as [|[proj_id projection] todo IH];
    intros acc1 acc0 p1 p0 Hacc H1 H0; cbn [project_all] in H1, H0.
  - injection H1 as <-. injection H0 as <-. exact Hacc.
  - destruct (project_once df1 bins proj_id projection acc1) as [a1|e] eqn:E1;
      cbn [bind] in H1; [|discriminate].
    destruct (project_once df0 bins proj_id projection acc0) as [a0|e] eqn:E0;
      cbn [bind] in H0; [|discriminate].
    apply (IH a1 a0 p1 p0); [|assumption|assumption].
    clear IH H1 H0. unfold project_once in E1, E0.
    rewrite (contours_same_but_offsets df df1 "mem_shcoeffs_L" projection 32 S1)
      in E1 by (left; reflexivity).
    rewrite (contours_same_but_offsets df df1 "dna_shcoeffs_L" projection 32 S1)
      in E1 by (right; left; reflexivity).
    rewrite (contours_same_but_offsets df df0 "mem_shcoeffs_L" projection 32 S0)
      in E0 by (left; reflexivity).
    rewrite (contours_same_but_offsets df df0 "dna_shcoeffs_L" projection 32 S0)
      in E0 by (right; left; reflexivity).
    destruct (get_contours_of_consecutive_reconstructions
                df "mem_shcoeffs_L" projection 32)
      as [[[mem_contours mem_meshes] mem_limits]|e]; cbn [bind] in E1, E0;
      [|discriminate].
    destruct (get_contours_of_consecutive_reconstructions
                df "dna_shcoeffs_L" projection 32)
      as [[[dna_contours dna_meshes] dna_limits]|e]; cbn [bind] in E1, E0;
      [|discriminate].
    destruct (if Nat.eqb proj_id 0
              then save_meshes df1 bins mem_meshes dna_meshes else Ok [])
      as [saved1|e] eqn:Es1; cbn [bind] in E1; [|discriminate].
    destruct (if Nat.eqb proj_id 0
              then save_meshes df0 bins mem_meshes dna_meshes else Ok [])
      as [saved0|e] eqn:Es0; cbn [bind] in E0; [|discriminate].
    destruct (l <- limit_at 0 mem_limits ;; np_min l) as [xmin|e];
      cbn [bind] in E1, E0; [|discriminate].
    destruct (l <- limit_at 1 mem_limits ;; np_max l) as [xmax|e];
      cbn [bind] in E1, E0; [|discriminate].
    destruct (l <- limit_at 2 mem_limits ;; np_min l) as [ymin|e];
      cbn [bind] in E1, E0; [|discriminate].
    destruct (l <- limit_at 3 mem_limits ;; np_max l) as [ymax|e];
      cbn [bind] in E1, E0; [|discriminate].
    destruct (l <- limit_at 4 mem_limits ;; np_min l) as [zmin|e];
      cbn [bind] in E1, E0; [|discriminate].
    destruct (l <- limit_at 5 mem_limits ;; np_max l) as [zmax|e];
      cbn [bind] in E1, E0; [|discriminate].
    injection E1 as <-. injection E0 as <-.
    destruct Hacc as (Hm & Hd & Hh & Hv & Hs).
    unfold same_plots.
    cbn [all_mem_contours all_dna_contours hlimits vlimits saved_meshes].
    rewrite Hm, Hd, Hh, Hv. repeat split; try reflexivity.
    apply Forall2_app; [exact Hs|].
    destruct (Nat.eqb proj_id 0).
    + apply (save_meshes_same df1 df0 bins mem_meshes dna_meshes); assumption.
    + injection Es1 as <-. injection Es0 as <-. constructor.
Qed.

(** X18.  What the option [fix_nuclear_position] leaves alone, up to the
    animation.  When every bin of [bin_indexes] is a row label of [df_agg]
    and the function gets through its loop over the three projections with
    the option and without it, both runs have built the same lists
    [all_mem_contours] and [all_dna_contours] (the contours as
    reconstructed, before the animation shifts the nuclear ones by the
    offsets), the same [hlimits] and [vlimits], and have saved the same
    files with the same membrane meshes; the frame [df_agg] differs from
    the one passed in by the three offset columns at most.  The animation
    that follows, which draws each nuclear contour shifted by the offsets
    of its bin, is not part of the model. *)
Theorem nuclear_position_keeps_the_reconstructions
    (df df_agg : DataFrame) (bin_indexes : list (Z * list Z))
    (with_fix without_fix : DataFrame) (p1 p0 : projections) :
  incl (map fst bin_indexes) (index df_agg) ->
  animate_shape_modes_and_save_meshes df df_agg bin_indexes true
  = (with_fix, Ok p1) ->
  animate_shape_modes_and_save_meshes df df_agg bin_indexes false
  = (without_fix, Ok p0) ->
  all_mem_contours p1 = all_mem_contours p0
  /\ all_dna_contours p1 = all_dna_contours p0
  /\ hlimits p1 = hlimits p0
  /\ vlimits p1 = vlimits p0
  /\ Forall2 (fun s t => fst s = fst t
                         /\ (fst (fst s) = "MEM" -> snd s = snd t))
             (saved_meshes p1) (saved_meshes p0)
  /\ same_but_offsets df_agg with_fix
  /\ same_but_offsets df_agg without_fix.
Proof.
  intros Hincl H1 H0. unfold animate_shape_modes_and_save_meshes in H1, H0.
  pose proof (nuclear_offsets_same_but_offsets true df bin_indexes df_agg Hincl)
    as S1.
  pose proof (nuclear_offsets_same_but_offsets false df bin_indexes df_agg Hincl)
    as S0.
  destruct (nuclear_offsets true df bin_indexes df_agg) as [d1 [[]|e]];
    [|discriminate].
  destruct (nuclear_offsets false df bin_indexes df_agg) as [d0 [[]|e]];
    [|discriminate].
  cbn [fst] in S1, S0.
  injection H1 as <- H1. injection H0 as <- H0.
  pose proof (project_all_same df_agg d1 d0 bin_indexes
                [(0%nat, (0%nat, 1%nat)); (1%nat, (0%nat, 2%nat));
                 (2%nat, (1%nat, 2%nat))] S1 S0
                (mkProjections [] [] [] [] []) (mkProjections [] [] [] [] [])
                p1 p0) as H.
  destruct H as (Hm & Hd & Hh & Hv & Hs); [| exact H1 | exact H0 |].
  - repeat split; constructor.
  - repeat split; try assumption; try apply S1; try apply S0.
Qed.

End NuclearPosition.

Lemma nuclear_position_witness :
  exists with_fix without_fix p1 p0,
    animate_shape_modes_and_save_meshes (geometry := sample_geometry)
      (trig := sample_trig) sample_cells round_bins
      [(1, [10; 11]); (2, [12])]%Z true
    = (with_fix, Ok p1)
    /\ animate_shape_modes_and_save_meshes (geometry := sample_geometry)
         (trig := sample_trig) sample_cells round_bins
         [(1, [10; 11]); (2, [12])]%Z false
       = (without_fix, Ok p0)
    /\ loc_get 1 "dna_dxc" with_fix = Ok (np_mean [Fin 1; Fin 3])
    /\ loc_get 1 "dna_dxc" without_fix = Ok (Fin 0)
    /\ all_mem_contours p1 = all_mem_contours p0
    /\ all_dna_contours p1 = all_dna_contours p0
    /\ hlimits p1 = hlimits p0
    /\ vlimits p1 = vlimits p0
    /\ same_but_offsets round_bins with_fix
    /\ same_but_offsets round_bins without_fix.
Proof.
  do 4 eexists.
  match goal with
  | |- ?A /\ ?B /\ _ =>
      assert (H1 : A) by (vm_compute; reflexivity);
      assert (H0 : B) by (vm_compute; reflexivity)
  end.
  split; [exact H1|]. split; [exact H0|].
  split; [vm_compute; reflexivity|]. split; [vm_compute; reflexivity|].
  assert (Hincl : incl (map fst [(1, [10; 11]); (2, [12])]%Z) (index round_bins)).
  { intros b Hb. vm_compute in Hb |- *. exact Hb. }
  destruct (nuclear_position_keeps_the_reconstructions
              (geometry := sample_geometry) (trig := sample_trig)
              sample_cells round_bins [(1, [10; 11]); (2, [12])]%Z _ _ _ _
              Hincl H1 H0)
    as (Hm & Hd & Hh & Hv & _ & S1 & S0).
  split; [exact Hm|]. split; [exact Hd|]. split; [exact Hh|].
  split; [exact Hv|]. split; [exact S1 | exact S0].
Defined.

(** ** [plot_pairwise_correlations] *)

Lemma np_take_constant (s : list fl) (c : fl) (i : Z) :
  Forall (eq c) s -> np_take s i = c \/ np_take s i = NaN.
Proof.
  intro Hs. unfold np_take.
  apply (Forall_nth_default (fun x => x = c \/ x = NaN)); [|right; reflexivity].
  revert Hs. apply Forall_impl. intros x <-. left. reflexivity.
Qed.

Lemma lerp_nan_diff (a b t : fl) : lerp a b NaN t = NaN.
Proof.
  unfold lerp. destruct (fl_leb (Fin (1 # 2)) t).
  - rewrite mul64_nan. apply sub64_nan.
  - rewrite mul64_nan. apply add64_nan.
Qed.

Lemma sub64_nan_l (b : fl) : sub64 NaN b = NaN.
Proof. destruct b; reflexivity. Qed.

(** Between two entries of a constant array numpy interpolates to the
    constant, or to nan. *)
Lemma lerp_constant (s : list fl) (c : fl) (i j : Z) (t : fl) :
  Forall (eq c) s ->
  let r := lerp (np_float64 (np_take s i)) (np_float64 (np_take s j))
                (array_diff false (np_take s j) (np_take s i)) t in
  r = NaN \/ r = add64 (np_float64 c) (Fin 0).
Proof.
  intros Hs r. subst r.
  destruct (np_take_constant s c i Hs) as [-> | ->],
           (np_take_constant s c j Hs) as [-> | ->].
  - apply lerp_same.
  - left. cbn [array_diff]. rewrite sub64_nan_l. apply lerp_nan_diff.
  - left. cbn [array_diff]. rewrite sub64_nan. apply lerp_nan_diff.
  - left. apply lerp_nan_diff.
Qed.

Lemma quantile_of_constant (s : list fl) (c q : fl) :
  Forall (eq c) s ->
  let r := quantile_of_sorted false s q in
  r = NaN \/ r = add64 (np_float64 c) (Fin 0).
Proof.
  intros Hs. unfold quantile_of_sorted. cbv zeta.
  destruct (fl_leb _ _), (fl_ltb _ _), (fl_is_nan _); apply lerp_constant; exact Hs.
Qed.

Lemma np_sort_constant (a : fl) (l : list fl) :
  Forall (eq a) l -> Forall (eq a) (np_sort l).
Proof.
  intro H. apply (Permutation_Forall (x := l)); [symmetry; apply np_sort_perm | exact H].
Qed.

(** The two percentiles of a constant column leave nothing between them. *)
Lemma np_percentile2_constant (v : list fl) (c off : Q) :
  Forall (eq (Fin c)) v -> v <> [] -> 0 <= off /\ off <= 100 ->
  exists lo hi,
    np_percentile2 (FloatCol v) off = Ok (lo, hi)
    /\ (lo = NaN \/ hi = NaN \/ lo = hi).
Proof.
  intros Hv Hne Hoff.
  rewrite (np_percentile2_accepts _ off (accepted_in_range off Hoff)).
  cbn [column_length].
  destruct v as [|x v']; [contradiction|]. set (v := x :: v') in *.
  cbn [List.length Nat.eqb]. cbv beta zeta.
  destruct (existsb fl_is_nan v); [do 2 eexists; split; [reflexivity | auto]|].
  do 2 eexists. split; [reflexivity|].
  pose proof (np_sort_constant (Fin c) v Hv) as Hs.
  destruct (quantile_of_constant (np_sort v) (Fin c)
              (div64 (Fin off) (Fin 100)) Hs) as [-> | ->]; [auto|].
  destruct (quantile_of_constant (np_sort v) (Fin c)
              (div64 (sub64 (Fin 100) (Fin off)) (Fin 100)) Hs) as [-> | ->]; auto.
Qed.

Lemma all_ok_map_ok {A B : Type} (f : A -> result B) (l : list A) :
  (forall x, In x l -> exists b, f x = Ok b) ->
  exists bs,
    all_ok (map f l) = Ok bs
    /\ forall i x, nth_error l i = Some x ->
                   exists b, nth_error bs i = Some b /\ f x = Ok b.
Proof.
  induction l as [|a l IH]; intro H; cbn [map all_ok].
  - exists []. split; [reflexivity|]. intros [|i] x E; discriminate.
  - destruct (H a (or_introl eq_refl)) as [b Hb].
    destruct (IH (fun x Hx => H x (or_intror Hx))) as (bs & Hbs & Hnth).
    exists (b :: bs). rewrite Hb, Hbs. split; [reflexivity|].
    intros [|i] x E; cbn [nth_error] in *.
    + injection E as <-. eauto.
    + apply Hnth. exact E.
Qed.

(** A loop whose turns can fail in one way only fails in that way as soon
    as one turn fails. *)
Lemma all_ok_one_failure {A B : Type} (f : A -> result B) (l : list A) (e : exn) :
  (forall x e', In x l -> f x = Raise e' -> e' = e) ->
  (exists x, In x l /\ f x = Raise e) ->
  all_ok (map f l) = Raise e.
Proof.
  induction l as [|a l IH]; intros Hall (x & Hx & Ex); [inversion Hx|].
  cbn [map all_ok]. destruct (f a) as [b|e'] eqn:Ea; cbn [bind].
  - destruct Hx as [->|Hx]; [congruence|].
    rewrite IH; [reflexivity | | eauto].
    intros y e'' Hy. apply Hall. right. exact Hy.
  - rewrite (Hall a e' (or_introl eq_refl) Ea). reflexivity.
Qed.

Lemma mask_select_none {A : Type} (v : list bool) (l : list A) :
  Forall (eq false) v -> mask_select v l = [].
Proof.
  intro H. revert l. induction H as [|b v <- _ IH]; intros [|x l]; cbn [mask_select];
    auto.
Qed.

Lemma fl_ltb_one_way (a b : fl) : fl_ltb a b && fl_ltb b a = false.
Proof.
  destruct a as [| |p|], b as [| |q|]; try reflexivity.
  cbn [fl_ltb]. unfold Qltb.
  destruct (Qle_bool q p) eqn:A, (Qle_bool p q) eqn:B; try reflexivity.
  exfalso.
  assert (HA : ~ q <= p) by (rewrite <- Qle_bool_iff; congruence).
  assert (HB : ~ p <= q) by (rewrite <- Qle_bool_iff; congruence).
  apply HA. apply Qlt_le_weak. apply Qnot_le_lt. exact HB.
Qed.

Lemma nothing_between (lo hi a : fl) :
  lo = NaN \/ hi = NaN \/ lo = hi -> fl_ltb lo a && fl_ltb a hi = false.
Proof.
  intros [-> | [-> | ->]].
  - rewrite fl_ltb_nan_l. reflexivity.
  - rewrite fl_ltb_nan_r. apply andb_false_r.
  - apply fl_ltb_one_way.
Qed.

Lemma valids_constant_y (y x : list fl) (ry rx : fl * fl) :
  fst ry = NaN \/ snd ry = NaN \/ fst ry = snd ry ->
  Forall (eq false) (valids y x ry rx).
Proof.
  intros H. unfold valids. rewrite Forall_map. apply Forall_forall.
  intros [yi xi] _. cbn [fst snd].
  rewrite (nothing_between _ _ yi H). reflexivity.
Qed.

Lemma valids_constant_x (y x : list fl) (ry rx : fl * fl) :
  fst rx = NaN \/ snd rx = NaN \/ fst rx = snd rx ->
  Forall (eq false) (valids y x ry rx).
Proof.
  intros H. unfold valids. rewrite Forall_map. apply Forall_forall.
  intros [yi xi] _. cbn [fst snd].
  rewrite <- andb_assoc, (nothing_between _ _ xi H). symmetry. apply andb_false_r.
Qed.

Lemma grid_In (nf i j : nat) : In (i, j) (grid nf) <-> (i < nf /\ j < nf)%nat.
Proof.
  unfold grid. rewrite in_flat_map. split.
  - intros (a & Ha & Hin). apply in_map_iff in Hin. destruct Hin as (b & E & Hb).
    injection E as <- <-. apply in_seq in Ha, Hb. lia.
  - intros [Hi Hj]. exists i. split; [apply in_seq; lia|].
    apply in_map_iff. exists j. split; [reflexivity | apply in_seq; lia].
Qed.

Lemma np_max_after_min (l : list fl) (m : fl) :
  np_min l = Ok m -> exists m', np_max l = Ok m'.
Proof. destruct l; [discriminate | cbn; eauto]. Qed.

(** Inside the grid a panel can fail at its first minimum only. *)
Lemma pairwise_panel_failure (df : shape_modes) (prange : list (fl * fl))
    (i j : nat) (e : exn) :
  List.length prange = List.length df ->
  (i < List.length df)%nat -> (j < List.length df)%nat ->
  pairwise_panel df prange i j = Raise e ->
  e = ValueError "zero-size array to reduction operation minimum".
Proof.
  intros Hlen Hi Hj. unfold pairwise_panel, list_get.
  destruct (nth_error (map snd df) i) as [y|] eqn:Ey.
  2:{ apply nth_error_None in Ey. rewrite length_map in Ey. lia. }
  destruct (nth_error (map snd df) j) as [x|] eqn:Ex.
  2:{ apply nth_error_None in Ex. rewrite length_map in Ex. lia. }
  destruct (nth_error prange i) as [ry|] eqn:Ery.
  2:{ apply nth_error_None in Ery. lia. }
  destruct (nth_error prange j) as [rx|] eqn:Erx.
  2:{ apply nth_error_None in Erx. lia. }
  cbn [bind].
  destruct (j <? i)%nat.
  - destruct (np_min (mask_select (valids y x ry rx) x)) as [xmin|e'] eqn:E1;
      cbn [bind].
    2:{ destruct (mask_select (valids y x ry rx) x); [|discriminate].
        cbn in E1. injection E1 as <-. intro H. injection H as <-. reflexivity. }
    destruct (np_max_after_min _ _ E1) as [xmax ->]. cbn [bind].
    destruct (np_min (mask_select (valids y x ry rx) y)) as [ymin|e'] eqn:E2;
      cbn [bind].
    2:{ destruct (mask_select (valids y x ry rx) y); [|discriminate].
        cbn in E2. injection E2 as <-. intro H. injection H as <-. reflexivity. }
    destruct (np_max_after_min _ _ E2) as [ymax ->]. cbn [bind]. discriminate.
  - destruct (i <? j)%nat; discriminate.
Qed.

(** X20.  A shape mode that does not vary stops the pairwise plot.  With at
    least two shape modes, a percentage in [0, 100] and at least two records,
    if all the values of one shape mode are the same number, its two
    percentiles are that number, no record is strictly between them, and the
    first scatter panel of that shape mode takes the minimum of an empty
    selection: the call raises ValueError and appends no figure. *)
Theorem constant_shape_mode_stops_the_plot
    (df : shape_modes) (off : Q) (k : nat) (name : string) (v : list fl) (c : Q) :
  (2 <= List.length df)%nat ->
  0 <= off /\ off <= 100 ->
  Forall (fun col => (2 <= List.length (snd col))%nat) df ->
  nth_error df k = Some (name, v) ->
  Forall (eq (Fin c)) v ->
  plot_pairwise_correlations df off
  = Raise (ValueError "zero-size array to reduction operation minimum").
Proof.
  intros Hnf Hoff Hrows Hk Hv. unfold plot_pairwise_correlations.
  replace (List.length df <? 2)%nat with false
    by (symmetry; apply Nat.ltb_ge; exact Hnf).
  assert (Hall : forall col, In col df ->
                   exists r, (fun c0 => np_percentile2 (FloatCol (snd c0)) off) col
                             = Ok r).
  { intros col Hcol. cbv beta.
    rewrite Forall_forall in Hrows. specialize (Hrows col Hcol).
    destruct (np_percentile2_numeric (FloatCol (snd col)) off I) as (lo & hi & E).
    - cbn [column_length]. lia.
    - apply accepted_in_range. exact Hoff.
    - eauto. }
  destruct (all_ok_map_ok _ df Hall) as (prange & Hprange & Hnth).
  rewrite Hprange. cbn [bind].
  assert (Hlen : List.length prange = List.length df).
  { apply all_ok_length in Hprange. rewrite length_map in Hprange. exact Hprange. }
  assert (Hklt : (k < List.length df)%nat) by (apply nth_error_Some; congruence).
  destruct (Hnth k (name, v) Hk) as (rk & Erk & Hrk). cbn [snd] in Hrk.
  assert (Hvne : v <> []).
  { rewrite Forall_forall in Hrows.
    specialize (Hrows (name, v) (nth_error_In _ _ Hk)). cbn [snd] in Hrows.
    intro E. rewrite E in Hrows. simpl in Hrows. lia. }
  destruct (np_percentile2_constant v c off Hv Hvne Hoff) as (lo & hi & Ep & Hlo).
  rewrite Ep in Hrk. injection Hrk as <-.
  assert (Hcol : nth_error (map snd df) k = Some v).
  { rewrite nth_error_map, Hk. reflexivity. }
  set (bad := if Nat.eqb k 0 then (1, 0)%nat else (k, 0)%nat).
  rewrite (all_ok_one_failure _ (grid (List.length df))
             (ValueError "zero-size array to reduction operation minimum"));
    [reflexivity | |].
  - intros [i j] e' Hin He'. apply grid_In in Hin. cbn [fst snd] in He'.
    apply (pairwise_panel_failure df prange i j e' Hlen); tauto.
  - exists bad. split.
    + unfold bad. destruct (Nat.eqb k 0); apply grid_In; lia.
    + unfold bad. destruct (Nat.eqb_spec k 0) as [->|Hk0]; cbn [fst snd];
        unfold pairwise_panel, list_get.
      * destruct (nth_error (map snd df) 1) as [y|] eqn:Ey.
        2:{ apply nth_error_None in Ey. rewrite length_map in Ey. lia. }
        destruct (nth_error prange 1) as [ry|] eqn:Ery.
        2:{ apply nth_error_None in Ery. lia. }
        rewrite Hcol, Erk. cbn [bind Nat.ltb Nat.leb].
        rewrite (mask_select_none _ v (valids_constant_x y v ry (lo, hi) Hlo)).
        reflexivity.
      * destruct (nth_error (map snd df) 0) as [x|] eqn:Ex.
        2:{ apply nth_error_None in Ex. rewrite length_map in Ex. lia. }
        destruct (nth_error prange 0) as [rx|] eqn:Erx.
        2:{ apply nth_error_None in Erx. lia. }
        rewrite Hcol, Erk. cbn [bind].
        replace (0 <? k)%nat with true by (symmetry; apply Nat.ltb_lt; lia).
        rewrite (mask_select_none _ x (valids_constant_y v x (lo, hi) rx Hlo)).
        reflexivity.
Qed.

Lemma constant_shape_mode_witness :
  plot_pairwise_correlations flat_shape_mode 0
  = Raise (ValueError "zero-size array to reduction operation minimum").
Proof.
  apply (constant_shape_mode_stops_the_plot flat_shape_mode 0 1 "PC2"
           [Fin 5; Fin 5; Fin 5] 5).
  - simpl. lia.
  - split; discriminate.
  - repeat constructor; simpl; lia.
  - reflexivity.
  - repeat constructor.
Defined.

Lemma all_ok_map_Forall2 {A B : Type} (f : A -> result B) (l : list A) (bs : list B) :
  all_ok (map f l) = Ok bs -> Forall2 (fun x b => f x = Ok b) l bs.
Proof.
  revert bs. induction l as [|a l IH]; intros bs H; cbn [map all_ok] in H.
  - injection H as <-. constructor.
  - destruct (f a) as [b0|e] eqn:Ea; cbn [bind] in H; [|discriminate].
    destruct (all_ok (map f l)) as [rest|e]; cbn [bind] in H; [|discriminate].
    injection H as <-. constructor; [exact Ea | apply IH; reflexivity].
Qed.

Lemma all_ok_map_nth {A B : Type} (f : A -> result B) (l : list A) (bs : list B) :
  all_ok (map f l) = Ok bs ->
  forall i b, nth_error bs i = Some b ->
              exists x, nth_error l i = Some x /\ f x = Ok b.
Proof.
  revert bs. induction l as [|a l IH]; intros bs H i b Hb; cbn [map all_ok] in H.
  - injection H as <-. destruct i; discriminate.
  - destruct (f a) as [b0|e] eqn:Ea; cbn [bind] in H; [|discriminate].
    destruct (all_ok (map f l)) as [rest|e]; cbn [bind] in H; [|discriminate].
    injection H as <-. destruct i as [|i]; cbn [nth_error] in *.
    + injection Hb as <-. eauto.
    + apply (IH rest eq_refl i b Hb).
Qed.

(** At 0 percent a value above the lower cutoff is above a value of the
    column, and a value below the upper cutoff is below one. *)
Lemma inside_percentiles_at_0 (col : list fl) (lo hi a : fl) :
  Forall binary64 col -> (Z.of_nat (List.length col) <= 2 ^ 53)%Z ->
  np_percentile2 (FloatCol col) 0 = Ok (lo, hi) ->
  fl_ltb lo a = true -> fl_ltb a hi = true ->
  strictly_inside col a.
Proof.
  intros Hb H53.
  rewrite (np_percentile2_accepts (FloatCol col) 0)
    by (apply accepted_in_range; split; discriminate).
  change (div64 (sub64 (Fin 100) (Fin 0)) (Fin 100)) with (Fin 1).
  change (div64 (Fin 0) (Fin 100)) with (Fin 0).
  cbn [column_length].
  destruct (List.length col =? 0)%nat eqn:Hlen0; [discriminate|].
  apply Nat.eqb_neq in Hlen0. cbv beta zeta.
  destruct (existsb fl_is_nan col).
  { intro E. injection E as <- <-. rewrite fl_ltb_nan_l. discriminate. }
  intro E. injection E as <- <-. intros Hlo Hhi.
  set (s := np_sort col) in *.
  assert (Hperm : Permutation s col) by apply np_sort_perm.
  assert (Hne : s <> []).
  { intro E. apply Hlen0. rewrite <- (Permutation_length Hperm), E. reflexivity. }
  assert (Hbs : Forall binary64 s)
    by (apply (Permutation_Forall (x := col)); [symmetry|]; assumption).
  assert (H53s : (Z.of_nat (List.length s) <= 2 ^ 53)%Z)
    by (rewrite (Permutation_length Hperm); exact H53).
  assert (Hin : forall i, (i < List.length s)%nat -> In (nth i s NaN) col).
  { intros i Hi. apply (Permutation_in (l := s));
      [exact Hperm | apply nth_In; exact Hi]. }
  assert (Hlen : (0 < List.length s)%nat).
  { destruct s; [contradiction | simpl; lia]. }
  exists (nth 0 s NaN), (nth (List.length s - 1) s NaN).
  split; [apply Hin; lia|]. split; [apply Hin; lia|]. split.
  - destruct (quantile_at_0 false s Hne H53s) as [En|En].
    + rewrite En, fl_ltb_nan_l in Hlo. discriminate.
    + rewrite En in Hlo. rewrite <- Hlo. symmetry. apply fl_same_ltb_l.
      apply binary64_add_zero. apply Forall_nth_default; [exact Hbs | exact I].
  - destruct (quantile_at_1 false s Hne H53s) as [En|En].
    + rewrite En, fl_ltb_nan_r in Hhi. discriminate.
    + rewrite En in Hhi. rewrite <- Hhi. symmetry. apply fl_same_ltb_r.
      apply binary64_add_zero. apply Forall_nth_default; [exact Hbs | exact I].
Qed.

Lemma mask_select_pairs_l {A B : Type} (p : A * B -> bool) (a : A) :
  forall (y : list A) (x : list B),
    In a (mask_select (map p (combine y x)) y) ->
    exists b, In (a, b) (combine y x) /\ p (a, b) = true.
Proof.
  induction y as [|y0 y IH]; intros [|x0 x] Hin; cbn [combine map mask_select] in *;
    try contradiction.
  destruct (p (y0, x0)) eqn:E.
  - destruct Hin as [<-|Hin]; [exists x0; split; [left; reflexivity | exact E]|].
    destruct (IH x Hin) as (b & Hb & Hp). exists b. split; [right; exact Hb | exact Hp].
  - destruct (IH x Hin) as (b & Hb & Hp). exists b. split; [right; exact Hb | exact Hp].
Qed.

Lemma mask_select_pairs_r {A B : Type} (p : A * B -> bool) (b : B) :
  forall (y : list A) (x : list B),
    In b (mask_select (map p (combine y x)) x) ->
    exists a, In (a, b) (combine y x) /\ p (a, b) = true.
Proof.
  induction y as [|y0 y IH]; intros [|x0 x] Hin; cbn [combine map mask_select] in *;
    try contradiction.
  destruct (p (y0, x0)) eqn:E.
  - destruct Hin as [<-|Hin]; [exists y0; split; [left; reflexivity | exact E]|].
    destruct (IH x Hin) as (a & Ha & Hp). exists a. split; [right; exact Ha | exact Hp].
  - destruct (IH x Hin) as (a & Ha & Hp). exists a. split; [right; exact Ha | exact Hp].
Qed.

Lemma drawn_inside (y x : list fl) (ry rx : fl * fl) :
  Forall binary64 y -> (Z.of_nat (List.length y) <= 2 ^ 53)%Z ->
  Forall binary64 x -> (Z.of_nat (List.length x) <= 2 ^ 53)%Z ->
  np_percentile2 (FloatCol y) 0 = Ok ry -> np_percentile2 (FloatCol x) 0 = Ok rx ->
  Forall (strictly_inside x) (mask_select (valids y x ry rx) x)
  /\ Forall (strictly_inside y) (mask_select (valids y x ry rx) y).
Proof.
  intros Hby Hly Hbx Hlx Hy Hx. destruct ry as [ylo yhi], rx as [xlo xhi].
  unfold valids.
  split; apply Forall_forall.
  - intros b Hb. apply mask_select_pairs_r in Hb. destruct Hb as (a & _ & Hp).
    cbn [fst snd] in Hp. apply andb_true_iff in Hp. destruct Hp as [Hp H4].
    apply andb_true_iff in Hp. destruct Hp as [Hp H3].
    apply (inside_percentiles_at_0 x xlo xhi b Hbx Hlx Hx H3 H4).
  - intros a Ha. apply mask_select_pairs_l in Ha. destruct Ha as (b & _ & Hp).
    cbn [fst snd] in Hp. apply andb_true_iff in Hp. destruct Hp as [Hp H4].
    apply andb_true_iff in Hp. destruct Hp as [Hp H3].
    apply andb_true_iff in Hp. destruct Hp as [H1 H2].
    apply (inside_percentiles_at_0 y ylo yhi a Hby Hly Hy H1 H2).
Qed.

Lemma column_of_frame (df : shape_modes) (i : nat) (y : list fl) :
  nth_error (map snd df) i = Some y ->
  exists name, nth_error df i = Some (name, y) /\ In (name, y) df.
Proof.
  rewrite nth_error_map.
  destruct (nth_error df i) as [[name y']|] eqn:E; cbn [option_map snd];
    [|discriminate].
  intro H. injection H as <-. exists name. split; [reflexivity|].
  apply (nth_error_In _ _ E).
Qed.

(** X21.  With [off = 0], the default, the pairwise plot leaves out the
    extremes.  For shape modes whose values are binary64 numbers (as those
    of a float64 column are) and at most 2^53 records: when the call
    produces its figure, there is one panel for each position of the grid,
    row by row; the panel in row [f1id] and column [f2id] is a scatter plot
    below the diagonal, a histogram on it and an annotation above it; and
    every value drawn in a scatter panel or a histogram is strictly above
    some value and strictly below some other value of the shape mode it is
    taken from (that of the column for the horizontal values, that of the
    row for the vertical ones).  So a record that holds the smallest or the
    largest value of a shape mode is drawn in none of the scatter panels
    and histograms of that shape mode. *)
Theorem pairwise_plot_leaves_out_extremes
    (df : shape_modes) (panels : list panel) :
  Forall (fun col => Forall binary64 (snd col)
                     /\ (Z.of_nat (List.length (snd col)) <= 2 ^ 53)%Z) df ->
  plot_pairwise_correlations df 0 = Ok (Some panels) ->
  Forall2 (leaves_out_extremes df) (grid (List.length df)) panels.
Proof.
  intro Hcols. unfold plot_pairwise_correlations.
  destruct (List.length df <? 2)%nat; [discriminate|].
  destruct (all_ok (map (fun c => np_percentile2 (FloatCol (snd c)) 0) df))
    as [prange|e] eqn:Hprange; cbn [bind]; [|discriminate].
  destruct (all_ok (map _ (grid (List.length df)))) as [ps|e] eqn:Hps;
    cbn [bind]; [|discriminate].
  intro E. injection E as <-.
  apply all_ok_map_Forall2 in Hps. revert Hps. apply Forall2_impl.
  intros [i j] p Hpanel.
  cbn [fst snd] in Hpanel. unfold pairwise_panel, list_get in Hpanel.
  destruct (nth_error (map snd df) i) as [y|] eqn:Ey; cbn [bind] in Hpanel;
    [|discriminate].
  destruct (nth_error (map snd df) j) as [x|] eqn:Ex; cbn [bind] in Hpanel;
    [|discriminate].
  destruct (nth_error prange i) as [ry|] eqn:Ery; cbn [bind] in Hpanel;
    [|discriminate].
  destruct (nth_error prange j) as [rx|] eqn:Erx; cbn [bind] in Hpanel;
    [|discriminate].
  destruct (column_of_frame df i y Ey) as (namey & Hiy & Hy).
  destruct (column_of_frame df j x Ex) as (namex & Hjx & Hx).
  destruct (all_ok_map_nth _ _ _ Hprange i ry Ery) as (cy & Hcy & Hry).
  destruct (all_ok_map_nth _ _ _ Hprange j rx Erx) as (cx & Hcx & Hrx).
  rewrite Hiy in Hcy. injection Hcy as <-. rewrite Hjx in Hcx. injection Hcx as <-.
  cbn [snd] in Hry, Hrx.
  rewrite Forall_forall in Hcols.
  destruct (Hcols _ Hy) as [Hby Hly]. destruct (Hcols _ Hx) as [Hbx Hlx].
  cbn [snd] in Hby, Hly, Hbx, Hlx.
  destruct (drawn_inside y x ry rx Hby Hly Hbx Hlx Hry Hrx) as [Dx Dy].
  exists namey, y, namex, x. cbn [fst snd].
  split; [exact Hiy|]. split; [exact Hjx|].
  destruct (j <? i)%nat eqn:Hji.
  - destruct (np_min (mask_select (valids y x ry rx) x)); cbn [bind] in Hpanel;
      [|discriminate].
    destruct (np_max (mask_select (valids y x ry rx) x)); cbn [bind] in Hpanel;
      [|discriminate].
    destruct (np_min (mask_select (valids y x ry rx) y)); cbn [bind] in Hpanel;
      [|discriminate].
    destruct (np_max (mask_select (valids y x ry rx) y)); cbn [bind] in Hpanel;
      [|discriminate].
    injection Hpanel as <-. apply Nat.ltb_lt in Hji. auto.
  - apply Nat.ltb_ge in Hji.
    destruct (i <? j)%nat eqn:Hij; injection Hpanel as <-.
    + apply Nat.ltb_lt in Hij. exact Hij.
    + apply Nat.ltb_ge in Hij. split; [lia | exact Dx].
Qed.

Lemma pairwise_plot_witness :
  exists panels,
    plot_pairwise_correlations sample_shape_modes 0 = Ok (Some panels)
    /\ nth_error panels 2
       = Some (Scatter [Fin 3] [Fin 3] (Fin 3) (Fin 3) (Fin 3) (Fin 3))
    /\ Forall2 (leaves_out_extremes sample_shape_modes)
               (grid (List.length sample_shape_modes)) panels.
Proof.
  eexists. split; [vm_compute; reflexivity|]. split; [reflexivity|].
  apply (pairwise_plot_leaves_out_extremes sample_shape_modes).
  - repeat constructor;
      (eexists; split; [vm_compute; reflexivity | reflexivity])
      || (vm_compute; discriminate).
  - vm_compute. reflexivity.
Defined.
